(** * everyrow-make: deploy and test scripts of the Make.com integration

    A shallow embedding of the repository's TypeScript scripts:

    - [TestModule]: scripts/test-module.ts (parameter simulation, the IML
      template processor, the start-rank-task API flow);
    - [Validation]: scripts/test-makecom-validation.ts;
    - [Deploy]: scripts/deploy.ts, and [DeployPrev], the other copy of the
      deploy script kept in the repository.

    JavaScript values are modelled by [Value]; numbers are integers (no
    script computes with fractions).  An exception is modelled by its
    message, which is all the [catch] blocks read.  Remote services and the
    file system are parameters: every theorem holds for every behaviour of
    the two REST APIs.  Console output is not modelled. *)

From Stdlib Require Import ZArith Ascii List Lia.
From stdpp Require Import base option list sorting gmap strings pretty.

Set Warnings "-register-all".
Open Scope Z_scope.

(* ===================================================================== *)
(** * The JavaScript runtime *)
(* ===================================================================== *)

Module Js.

(** The values the scripts handle: JSON data, [undefined], and the built-in
    functions a lookup on a plain object can inherit. *)
Inductive Value : Type :=
| JUndef
| JNull
| JBool (b : bool)
| JNum (n : Z)
| JStr (s : string)
| JArr (items : list Value)
| JObj (props : list (string * Value))
| JFun (name : string).

(** The result of running a piece of JavaScript: a value, or an exception
    represented by its [message]. *)
Inductive Outcome (A : Type) : Type :=
| Returned (a : A)
| Thrown (message : string).
Arguments Returned {A} a.
Arguments Thrown {A} message.

(** The double-quote character. *)
Definition dq : string := String "034"%char EmptyString.

Definition typeof (v : Value) : string :=
  match v with
  | JUndef => "undefined"
  | JNull | JArr _ | JObj _ => "object"
  | JBool _ => "boolean"
  | JNum _ => "number"
  | JStr _ => "string"
  | JFun _ => "function"
  end.

(** ToBoolean. *)
Definition truthy (v : Value) : bool :=
  match v with
  | JUndef | JNull => false
  | JBool b => b
  | JNum n => negb (n =? 0)
  | JStr s => negb (String.eqb s "")
  | JArr _ | JObj _ | JFun _ => true
  end.

(** [a || b]. *)
Definition js_or (a b : Value) : Value := if truthy a then a else b.

Definition isArray (v : Value) : bool :=
  match v with JArr _ => true | _ => false end.

Definition is_undefined (v : Value) : bool :=
  match v with JUndef => true | _ => false end.

Definition is_null (v : Value) : bool :=
  match v with JNull => true | _ => false end.

(** [v === "s"]. *)
Definition is_string (v : Value) (s : string) : bool :=
  match v with JStr t => String.eqb t s | _ => false end.

(** [a === b].  Arrays and objects are compared by identity; the scripts only
    ever compare values allocated by different [JSON.parse] calls, which are
    never identical. *)
Definition strict_eq (a b : Value) : bool :=
  match a, b with
  | JUndef, JUndef | JNull, JNull => true
  | JBool x, JBool y => Bool.eqb x y
  | JNum x, JNum y => x =? y
  | JStr x, JStr y => String.eqb x y
  | JFun x, JFun y => String.eqb x y
  | _, _ => false
  end.

Fixpoint join (sep : string) (l : list string) : string :=
  match l with
  | [] => ""
  | [x] => x
  | x :: rest => x +:+ sep +:+ join sep rest
  end.

(** [o >>= k] on outcomes of pure code. *)
Definition and_then {A B} (o : Outcome A) (k : A -> Outcome B) : Outcome B :=
  match o with
  | Returned a => k a
  | Thrown e => Thrown e
  end.

(** The own property [k] of an object, the first one listed. *)
Fixpoint assoc (k : string) (ps : list (string * Value)) : option Value :=
  match ps with
  | [] => None
  | (k', x) :: rest => if String.eqb k k' then Some x else assoc k rest
  end.

(** The message of the TypeError of a conversion that finds no primitive
    value. *)
Definition not_primitive : string := "Cannot convert object to primitive value".

(** ToString, as applied by [String(v)], by template literals, to the
    return value of a [replace] callback and to property keys.  An array is
    printed by [Array.prototype.join], which converts its elements in turn.
    A plain object is printed by the [toString] it inherits, as
    [[object Object]]; an own property [toString] hides the inherited one,
    and the objects here are JSON data, which holds no function: then
    neither the own [toString] nor [valueOf] (an own one, or the inherited
    one, which returns the object itself) gives a primitive value, and the
    conversion throws a TypeError. *)
Fixpoint ToString (v : Value) : Outcome string :=
  match v with
  | JUndef => Returned "undefined"
  | JNull => Returned "null"
  | JBool true => Returned "true"
  | JBool false => Returned "false"
  | JNum n => Returned (pretty n)
  | JStr s => Returned s
  | JArr l =>
      and_then
        ((fix elements (l : list Value) : Outcome (list string) :=
            match l with
            | [] => Returned []
            | x :: rest =>
                and_then (match x with
                          | JUndef | JNull => Returned ""
                          | _ => ToString x
                          end) (fun s =>
                and_then (elements rest) (fun ss => Returned (s :: ss)))
            end) l)
        (fun ss => Returned (join "," ss))
  | JObj props =>
      match assoc "toString" props with
      | None => Returned "[object Object]"
      | Some _ => Thrown not_primitive
      end
  | JFun name => Returned ("function " +:+ name +:+ "() { [native code] }")
  end.

(** A value written into a template literal that is only logged: the
    console output is not modelled, the conversion to a string, which can
    throw, is. *)
Definition logged (v : Value) : Outcome unit :=
  and_then (ToString v) (fun _ => Returned tt).

Definition hex_digit (n : N) : ascii :=
  ascii_of_N (if (n <? 10)%N then 48 + n else 87 + n).

(** One character of a JSON string literal. *)
Definition json_escape (c : ascii) : string :=
  let n := N_of_ascii c in
  if (n =? 34)%N then "\" +:+ dq
  else if (n =? 92)%N then "\\"
  else if (n =? 8)%N then "\b"
  else if (n =? 12)%N then "\f"
  else if (n =? 10)%N then "\n"
  else if (n =? 13)%N then "\r"
  else if (n =? 9)%N then "\t"
  else if (n <? 32)%N then
    "\u00" +:+ String (hex_digit (n / 16)) (String (hex_digit (n mod 16)) "")
  else String c "".

Fixpoint json_quote_body (s : string) : string :=
  match s with
  | EmptyString => ""
  | String c rest => json_escape c +:+ json_quote_body rest
  end.

Definition json_quote (s : string) : string := dq +:+ json_quote_body s +:+ dq.

(** [JSON.stringify(v)]; [None] stands for the result [undefined].
    Properties whose value is [undefined] or a function are left out of an
    object; such elements of an array are written [null]. *)
Fixpoint JSON_stringify (v : Value) : option string :=
  match v with
  | JUndef | JFun _ => None
  | JNull => Some "null"
  | JBool true => Some "true"
  | JBool false => Some "false"
  | JNum n => Some (pretty n)
  | JStr s => Some (json_quote s)
  | JArr l =>
      Some ("[" +:+ join "," (List.map (fun x => match JSON_stringify x with
                                                | Some t => t
                                                | None => "null"
                                                end) l) +:+ "]")
  | JObj ps =>
      Some ("{" +:+ join ","
              ((fix members (ps : list (string * Value)) : list string :=
                  match ps with
                  | [] => []
                  | (k, x) :: rest =>
                      match JSON_stringify x with
                      | Some t => (json_quote k +:+ ":" +:+ t) :: members rest
                      | None => members rest
                      end
                  end) ps) +:+ "}")
  end.

(** A template literal's [${JSON.stringify(v)}]. *)
Definition stringify_text (v : Value) : string :=
  match JSON_stringify v with Some t => t | None => "undefined" end.

(** [s] without its prefix [p], when it has it. *)
Fixpoint strip_prefix (p s : string) : option string :=
  match p with
  | EmptyString => Some s
  | String a p' =>
      match s with
      | EmptyString => None
      | String b s' => if Ascii.eqb a b then strip_prefix p' s' else None
      end
  end.

(** How a TypeError names [undefined] and [null]. *)
Definition nullish_name (v : Value) : string :=
  match v with JNull => "null" | _ => "undefined" end.

(** [v.k] on JSON data.  Reading a property of [undefined] or [null] throws
    a TypeError.  The scripts read JSON data only under fixed names
    (session_id, label, type, ...), none of which is a built-in member, so
    own properties are all there is to find. *)
Definition get_prop (v : Value) (k : string) : Outcome Value :=
  match v with
  | JUndef | JNull =>
      Thrown ("Cannot read properties of " +:+ nullish_name v
              +:+ " (reading '" +:+ k +:+ "')")
  | JObj ps => Returned (match assoc k ps with Some x => x | None => JUndef end)
  | _ => Returned JUndef
  end.

(** [v?.k] *)
Definition optional_prop (v : Value) (k : string) : Outcome Value :=
  match v with
  | JUndef | JNull => Returned JUndef
  | _ => get_prop v k
  end.

(** The members every plain object inherits from [Object.prototype]. *)
Definition object_prototype_functions : list string :=
  [ "hasOwnProperty"; "isPrototypeOf"; "propertyIsEnumerable";
    "toLocaleString"; "toString"; "valueOf";
    "__defineGetter__"; "__defineSetter__";
    "__lookupGetter__"; "__lookupSetter__" ].

Definition inherited (k : string) : Value :=
  if String.eqb k "constructor" then JFun "Object"
  else if String.eqb k "__proto__" then JObj []
  else if existsb (String.eqb k) object_prototype_functions then JFun k
  else JUndef.

(** [r[k]] on a plain object used as a dictionary ([Record<string, any>]):
    an own property, else what the prototype chain provides. *)
Definition record_get (r : gmap string Value) (k : string) : Value :=
  match r !! k with
  | Some x => x
  | None => inherited k
  end.

(** [r[k] = x].  Assigning to [__proto__] creates no own property. *)
Definition record_set (r : gmap string Value) (k : string) (x : Value)
  : gmap string Value :=
  if String.eqb k "__proto__" then r else <[k := x]> r.

End Js.
Import Js.

(** An entry of a module definition's [parameters] array ([interface
    Parameter]); an absent optional field is [JUndef]. *)
Record ModuleParameter : Type := {
  p_name : string;
  p_type : string;
  p_required : Value;
  p_default : Value;
  p_spec : Value
}.

(* ===================================================================== *)
(** * Effects: state, exceptions and a trace of events *)
(* ===================================================================== *)

Module Eff.

(** A computation over a world [W] that emits events [E]: it returns or
    throws, leaves a new world, and lists the events it caused, in order. *)
Definition M (W E A : Type) : Type := W -> Outcome A * W * list E.

Section Ops.
Context {W E : Type}.

Definition ret {A} (a : A) : M W E A := fun w => (Returned a, w, []).

Definition throw {A} (message : string) : M W E A :=
  fun w => (Thrown message, w, []).

Definition lift {A} (o : Outcome A) : M W E A := fun w => (o, w, []).

Definition bind {A B} (m : M W E A) (k : A -> M W E B) : M W E B :=
  fun w =>
    match m w with
    | (Returned a, w1, t1) =>
        match k a w1 with (o, w2, t2) => (o, w2, t1 ++ t2) end
    | (Thrown e, w1, t1) => (Thrown e, w1, t1)
    end.

(** [try { m } catch (e) { h e.message }]. *)
Definition try_catch {A} (m : M W E A) (h : string -> M W E A) : M W E A :=
  fun w =>
    match m w with
    | (Returned a, w1, t1) => (Returned a, w1, t1)
    | (Thrown e, w1, t1) =>
        match h e w1 with (o, w2, t2) => (o, w2, t1 ++ t2) end
    end.

Definition modify (f : W -> W) : M W E unit := fun w => (Returned tt, f w, []).

Definition read {A} (f : W -> A) : M W E A := fun w => (Returned (f w), w, []).

Definition outcome {A} (r : Outcome A * W * list E) : Outcome A := r.1.1.
Definition final {A} (r : Outcome A * W * list E) : W := r.1.2.
Definition trace {A} (r : Outcome A * W * list E) : list E := r.2.

End Ops.

Notation "'let*' x ':=' m 'in' k" := (bind m (fun x => k))
  (at level 10, x name, m at level 100, k at level 200).
Notation "'let*' ' p ':=' m 'in' k" := (bind m (fun x => match x with p => k end))
  (at level 10, p pattern, m at level 100, k at level 200).

End Eff.
Import Eff.

(** HTTP methods. *)
Inductive Method : Type := GET | POST | PUT.

(* ===================================================================== *)
(** * scripts/test-makecom-validation.ts *)
(* ===================================================================== *)

Module Validation.

(** [interface ValidationResult]. *)
Record ValidationResult : Type := {
  valid : bool;
  errors : list string;
  warnings : list string
}.

Definition array_length (v : Value) : Z :=
  match v with JArr l => Z.of_nat (List.length l) | _ => 0 end.

(** The warnings of the loop over a collection-typed array: item [i] is
    reported when it is not an object, or is an array. *)
Fixpoint collection_warnings (name : string) (i : nat) (items : list Value)
  : list string :=
  match items with
  | [] => []
  | x :: rest =>
      (if negb (String.eqb (typeof x) "object") || isArray x
       then ["Array item " +:+ pretty i +:+ " in " +:+ dq +:+ name +:+ dq
             +:+ " should be an object (collection)"]
       else [])
      ++ collection_warnings name (S i) rest
  end.

Definition validateMakecomParameter (param : ModuleParameter) (value : Value)
  : ValidationResult :=
  (* Check required *)
  if truthy (p_required param) && (is_undefined value || is_null value) then
    {| valid := false;
       errors := ["Required parameter " +:+ dq +:+ p_name param +:+ dq
                  +:+ " is missing"];
       warnings := [] |}
  (* Type-specific validation *)
  else if String.eqb (p_type param) "text" then
    if isArray value then
      {| valid := false;
         errors := ["Parameter " +:+ dq +:+ p_name param +:+ dq
                    +:+ " is type " +:+ dq +:+ "text" +:+ dq
                    +:+ " but received array/collection. "
                    +:+ "User must use {{toString(variable)}} to convert to JSON string."];
         warnings := [] |}
    else if String.eqb (typeof value) "object" && negb (is_null value) then
      {| valid := false;
         errors := ["Parameter " +:+ dq +:+ p_name param +:+ dq
                    +:+ " is type " +:+ dq +:+ "text" +:+ dq
                    +:+ " but received object. "
                    +:+ "User must use {{toString(variable)}} to convert to JSON string."];
         warnings := [] |}
    else {| valid := true; errors := []; warnings := [] |}
  else if String.eqb (p_type param) "array" then
    match value with
    | JArr items =>
        let spec := p_spec param in
        if truthy spec && isArray spec && (0 <? array_length spec) then
          {| valid := true; errors := [];
             warnings := ["Parameter " +:+ dq +:+ p_name param +:+ dq
                          +:+ " has array spec - Make.com will validate each item"] |}
        else if truthy spec && String.eqb (typeof spec) "object"
                && negb (isArray spec) then
          match get_prop spec "type" with
          | Returned specType =>
              if is_string specType "collection" then
                {| valid := true; errors := [];
                   warnings := collection_warnings (p_name param) 0 items |}
              else {| valid := true; errors := []; warnings := [] |}
          | Thrown _ => {| valid := true; errors := []; warnings := [] |}
          end
        else {| valid := true; errors := []; warnings := [] |}
    | _ =>
        {| valid := false;
           errors := ["Parameter " +:+ dq +:+ p_name param +:+ dq
                      +:+ " expects array but got " +:+ typeof value];
           warnings := [] |}
    end
  else if String.eqb (p_type param) "boolean" then
    if negb (String.eqb (typeof value) "boolean") then
      {| valid := true; errors := [];
         warnings := ["Parameter " +:+ dq +:+ p_name param +:+ dq
                      +:+ " expects boolean but got " +:+ typeof value] |}
    else {| valid := true; errors := []; warnings := [] |}
  else if String.eqb (p_type param) "select" then
    {| valid := true; errors := []; warnings := [] |}
  else
    {| valid := true; errors := [];
       warnings := ["Unknown parameter type " +:+ dq +:+ p_type param +:+ dq
                    +:+ " for " +:+ dq +:+ p_name param +:+ dq] |}.

End Validation.

(* ===================================================================== *)
(** * scripts/test-module.ts *)
(* ===================================================================== *)

Module TestModule.

(** ** Test 2: simulated Make.com parameter processing *)

(** The value a parameter is processed with: the input value, or the
    declared default when the input is [undefined]. *)
Definition effective_value (param : ModuleParameter)
  (inputValues : gmap string Value) : Value :=
  let value := record_get inputValues (p_name param) in
  if is_undefined value && negb (is_undefined (p_default param))
  then p_default param
  else value.

(** One iteration of the loop over [parameters]. *)
Definition simulate_parameter (param : ModuleParameter)
  (inputValues result : gmap string Value) : Outcome (gmap string Value) :=
  let name := p_name param in
  let value := effective_value param inputValues in
  if String.eqb (p_type param) "text" then
    if String.eqb (typeof value) "object" then
      Thrown ("Parameter " +:+ dq +:+ name +:+ dq +:+ " is type " +:+ dq
              +:+ "text" +:+ dq
              +:+ " but received a collection/array. Use toString() in mapping.")
    else
      and_then (ToString value) (fun text =>
      Returned (record_set result name (JStr text)))
  else if String.eqb (p_type param) "array" then
    if negb (isArray value) then
      Thrown ("Parameter " +:+ dq +:+ name +:+ dq
              +:+ " expects array but got " +:+ typeof value)
    else Returned (record_set result name value)
  else if String.eqb (p_type param) "boolean" then
    Returned (record_set result name (JBool (truthy value)))
  else
    Returned (record_set result name value).

Fixpoint simulate_loop (parameters : list ModuleParameter)
  (inputValues result : gmap string Value) : Outcome (gmap string Value) :=
  match parameters with
  | [] => Returned result
  | param :: rest =>
      and_then (simulate_parameter param inputValues result)
               (simulate_loop rest inputValues)
  end.

Definition simulateMakecomParameters (parameters : list ModuleParameter)
  (inputValues : gmap string Value) : Outcome (gmap string Value) :=
  simulate_loop parameters inputValues ∅.

(** ** Test 3: simulated IML template processing *)

(** [\w] *)
Definition is_word (c : ascii) : bool :=
  let n := N_of_ascii c in
  ((48 <=? n) && (n <=? 57) || (65 <=? n) && (n <=? 90)
   || (97 <=? n) && (n <=? 122) || (n =? 95))%N.

(** The longest prefix of [s] made of characters in the class [f], and what
    follows it. *)
Fixpoint span (f : ascii -> bool) (s : string) : string * string :=
  match s with
  | EmptyString => (EmptyString, EmptyString)
  | String c s' =>
      if f c then (String c (span f s').1, (span f s').2)
      else (EmptyString, s)
  end.

(** The four regular expressions of [processImlTemplate] have one shape:
    a literal, a captured non-empty run of one character class, a literal. *)
Record Pattern : Type := {
  opening : string;
  inner : ascii -> bool;
  closing : string
}.

(** [/\{\{parameters\.(\w+)\}\}/] *)
Definition parameters_pattern : Pattern :=
  {| opening := "{{parameters."; inner := is_word; closing := "}}" |}.

(** [/\{\{temp\.(\w+)\}\}/] *)
Definition temp_pattern : Pattern :=
  {| opening := "{{temp."; inner := is_word; closing := "}}" |}.

(** [/\{\{body\.(\w+)\}\}/] *)
Definition body_pattern : Pattern :=
  {| opening := "{{body."; inner := is_word; closing := "}}" |}.

(** [/\{\{parseJSON\(([^)]+)\)\}\}/] *)
Definition parseJSON_pattern : Pattern :=
  {| opening := "{{parseJSON(";
     inner := fun c => negb (Ascii.eqb c ")"%char);
     closing := ")}}" |}.

(** A match of the pattern at the start of [s]: the captured group and the
    text after the match.  The run is greedy, and no shorter run can match:
    the character after a shorter run is in the class, and the closing
    literal starts with a character outside it. *)
Definition match_here (pat : Pattern) (s : string) : option (string * string) :=
  match strip_prefix (opening pat) s with
  | None => None
  | Some r =>
      let (captured, r') := span (inner pat) r in
      if String.eqb captured "" then None
      else match strip_prefix (closing pat) r' with
           | None => None
           | Some rest => Some (captured, rest)
           end
  end.

(** [s.replace(pat/g, f)]: matches are sought from left to right, the search
    resuming after each match; [f] is called on the captured group of each
    match in turn, and an exception it throws ends the replacement.  [fuel]
    bounds the number of steps; the length of [s] is enough. *)
Fixpoint replace_steps (fuel : nat) (pat : Pattern)
  (f : string -> Outcome string) (s : string) : Outcome string :=
  match s with
  | EmptyString => Returned EmptyString
  | String c s' =>
      match fuel with
      | O => Returned s
      | S n =>
          match match_here pat s with
          | Some (captured, rest) =>
              and_then (f captured) (fun r =>
              and_then (replace_steps n pat f rest) (fun out =>
              Returned (r +:+ out)))
          | None =>
              and_then (replace_steps n pat f s') (fun out =>
              Returned (String c out))
          end
      end
  end.

Definition replace_all (pat : Pattern) (f : string -> Outcome string)
  (s : string) : Outcome string :=
  replace_steps (String.length s) pat f s.

(** [expr.match(/parameters\.(\w+)/)]: the captured name of the leftmost
    occurrence. *)
Fixpoint find_parameter_ref (expr : string) : option string :=
  match strip_prefix "parameters." expr with
  | Some r =>
      if String.eqb (span is_word r).1 "" then
        match expr with
        | EmptyString => None
        | String _ expr' => find_parameter_ref expr'
        end
      else Some (span is_word r).1
  | None =>
      match expr with
      | EmptyString => None
      | String _ expr' => find_parameter_ref expr'
      end
  end.

(** The [context] argument: each of [parameters], [temp] and [body] is a
    plain object, or absent. *)
Record Context : Type := {
  parameters : option (gmap string Value);
  temp : option (gmap string Value);
  body : option (gmap string Value)
}.

(** [obj?.[key]] *)
Definition optional_get (obj : option (gmap string Value)) (key : string)
  : Value :=
  match obj with
  | Some r => record_get r key
  | None => JUndef
  end.

Section Template.

(** The runtime's [JSON.parse]: the parsed value, or the SyntaxError. *)
Variable JSON_parse : string -> Outcome Value.

(** The callbacks return a value, which [replace] converts to a string;
    that conversion is part of the definitions below. *)

(** The callback for [{{parameters.xxx}}]. *)
Definition replace_parameter (context : Context) (key : string)
  : Outcome string :=
  let value := optional_get (parameters context) key in
  if String.eqb (typeof value) "object"
  then Returned (stringify_text value)
  else ToString value.

(** The callback for [{{temp.xxx}}]. *)
Definition replace_temp (context : Context) (key : string) : Outcome string :=
  ToString (js_or (optional_get (temp context) key) (JStr "")).

(** The callback for [{{body.xxx}}]. *)
Definition replace_body (context : Context) (key : string) : Outcome string :=
  ToString (js_or (optional_get (body context) key) (JStr "")).

(** The callback for [{{parseJSON(...)}}]. *)
Definition replace_parseJSON (context : Context) (expr : string)
  : Outcome string :=
  match find_parameter_ref expr with
  | Some key =>
      match optional_get (parameters context) key with
      | JStr text =>
          and_then (JSON_parse text) (fun parsed =>
          Returned (stringify_text parsed))
      | value => Returned (stringify_text value)
      end
  | None => Returned ""
  end.

Definition processImlTemplate (template : string) (context : Context)
  : Outcome string :=
  and_then (replace_all parameters_pattern (replace_parameter context) template)
  (fun result =>
  and_then (replace_all temp_pattern (replace_temp context) result)
  (fun result =>
  and_then (replace_all body_pattern (replace_body context) result)
  (fun result =>
  replace_all parseJSON_pattern (replace_parseJSON context) result))).

End Template.

(** ** The EveryRow API, as the script sees it *)

(** A call [apiRequest(method, endpoint, body)]. *)
Record Request : Type := {
  method : Method;
  endpoint : string;
  payload : option Value
}.

(** What [fetch] is given as [body]: [body ? JSON.stringify(body) : undefined]. *)
Definition fetch_body (req : Request) : option string :=
  match payload req with
  | Some b => if truthy b then JSON_stringify b else None
  | None => None
  end.

(** What comes back: [fetch] rejects, or a response arrives with a status
    and a body that [response.json()] parses or rejects. *)
Inductive Reply : Type :=
| FetchFail (message : string)
| Response (status : Z) (json : Outcome Value).

(** What a run does that can be seen from outside. *)
Inductive Event : Type :=
| Call (req : Request) (rep : Reply)
| Sleep (ms : Z).

(** [interface TestResult] *)
Record TestResult : Type := {
  name : string;
  passed : bool;
  error : option string;
  details : option Value
}.

(** Sample test data *)
Definition TEST_DATA : Value :=
  JArr [ JObj [("name", JStr "OpenAI"); ("description", JStr "AI research company")];
         JObj [("name", JStr "Stripe"); ("description", JStr "Payment processing platform")];
         JObj [("name", JStr "Anthropic"); ("description", JStr "AI safety company")] ].

Section Flow.

(** The remote API: any state, any replies. *)
Variable Api : Type.
Variable serve : Api -> Request -> Reply * Api.

(** The script's mutable state: the API behind the network, and the global
    [results] array. *)
Record World : Type := {
  service : Api;
  results : list TestResult
}.

Definition Script (A : Type) : Type := M World Event A.

Definition apiRequest (method : Method) (endpoint : string)
  (body : option Value) : Script (Z * Value) :=
  fun w =>
    let req := {| method := method; endpoint := endpoint; payload := body |} in
    let (rep, s') := serve (service w) req in
    let w' := {| service := s'; results := results w |} in
    match rep with
    | FetchFail e => (Thrown e, w', [Call req rep])
    | Response _ (Thrown e) => (Thrown e, w', [Call req rep])
    | Response status (Returned data) => (Returned (status, data), w', [Call req rep])
    end.

(** [await new Promise(r => setTimeout(r, ms))] *)
Definition sleep (ms : Z) : Script unit :=
  fun w => (Returned tt, w, [Sleep ms]).

(** [results.push(r)] *)
Definition push_result (r : TestResult) : Script unit :=
  modify (fun w => {| service := service w; results := results w ++ [r] |}).

(** [res.status !== 200 && res.status !== 201] *)
Definition bad_status (status : Z) : bool :=
  negb (status =? 200) && negb (status =? 201).

(** [parameters.find((p) => p.name === 'inputData')] *)
Fixpoint find_inputData (ps : list Value) : Outcome Value :=
  match ps with
  | [] => Returned JUndef
  | p :: rest =>
      and_then (get_prop p "name") (fun n =>
      if is_string n "inputData" then Returned p else find_inputData rest)
  end.

(** Step 1: check parameter types.  Apart from console output, all the step
    can do is throw: when [module.parameters] has no [find], when an entry
    of it is [null], or when the type of the parameter found cannot be
    written to the log. *)
Definition checkParameterTypes (module : Value) : Outcome unit :=
  and_then (get_prop module "parameters") (fun ps =>
  match ps with
  | JArr items =>
      and_then (find_inputData items) (fun inputDataParam =>
      and_then (optional_prop inputDataParam "type") (fun type =>
      logged type))
  | JUndef | JNull =>
      Thrown ("Cannot read properties of " +:+ nullish_name ps
              +:+ " (reading 'find')")
  | _ => Thrown "module.parameters.find is not a function"
  end).

(** Step 2: create session; the session id is the result. *)
Definition createSession : Script Value :=
  let* sessionRes :=
    apiRequest POST "/sessions/create"
      (Some (JObj [("name", JStr "Test Rank Session")])) in
  if bad_status sessionRes.1 then
    throw ("Failed to create session: " +:+ stringify_text sessionRes.2)
  else
    let* sessionId := lift (get_prop sessionRes.2 "session_id") in
    let* _ := lift (logged sessionId) in
    ret sessionId.

Definition create_group_body (sessionId : Value) : Value :=
  JObj [ ("session_id", sessionId);
         ("payload", JObj [ ("task_type", JStr "create_group");
                            ("query", JObj [("data_to_create", TEST_DATA)]) ]) ].

(** Step 3: create artifact; the id of the artifact task is the result. *)
Definition createArtifact (sessionId : Value) : Script Value :=
  let* artifactRes :=
    apiRequest POST "/tasks" (Some (create_group_body sessionId)) in
  if bad_status artifactRes.1 then
    throw ("Failed to create artifact: " +:+ stringify_text artifactRes.2)
  else
    let* artifactTaskId := lift (get_prop artifactRes.2 "task_id") in
    let* _ := lift (logged artifactTaskId) in
    ret artifactTaskId.

(** [`/tasks/${artifactTaskId}/status`], given the string the task id is
    converted to. *)
Definition status_endpoint (id : string) : string :=
  "/tasks/" +:+ id +:+ "/status".

(** The [for] loop of step 4 with [attempts] iterations left; the result is
    the value of [artifactId] when the loop is left, [null] if it was never
    assigned. *)
Fixpoint pollArtifact (attempts : nat) (artifactTaskId : Value)
  : Script Value :=
  match attempts with
  | O => ret JNull
  | S k =>
      let* id := lift (ToString artifactTaskId) in
      let* statusRes := apiRequest GET (status_endpoint id) None in
      let* artifact_id := lift (get_prop statusRes.2 "artifact_id") in
      if truthy artifact_id then ret artifact_id
      else
        let* status := lift (get_prop statusRes.2 "status") in
        if is_string status "failed" then
          throw ("Artifact creation failed: " +:+ stringify_text statusRes.2)
        else
          let* _ := sleep 1000 in
          pollArtifact k artifactTaskId
  end.

(** Step 4: wait for artifact. *)
Definition waitForArtifact (artifactTaskId : Value) : Script Value :=
  let* artifactId := pollArtifact 30 artifactTaskId in
  if negb (truthy artifactId) then throw "Timeout waiting for artifact"
  else
    let* _ := lift (logged artifactId) in
    ret artifactId.

Definition deep_rank_body (sessionId artifactId : Value) : Value :=
  JObj [ ("session_id", sessionId);
         ("payload",
          JObj [ ("task_type", JStr "deep_rank");
                 ("query",
                  JObj [ ("task", JStr "Rank by relevance to AI");
                         ("field_to_sort_by", JStr "rank_score");
                         ("ascending_order", JBool false);
                         ("response_schema",
                          JObj [ ("_model_name", JStr "RankResponse");
                                 ("rank_score",
                                  JObj [ ("type", JStr "float");
                                         ("optional", JBool false) ]) ]) ]);
                 ("input_artifacts", JArr [artifactId]);
                 ("context_artifacts", JArr []) ]) ].

(** Step 5: create rank task; the id of the rank task is the result. *)
Definition createRankTask (sessionId artifactId : Value) : Script Value :=
  let* rankRes :=
    apiRequest POST "/tasks" (Some (deep_rank_body sessionId artifactId)) in
  if bad_status rankRes.1 then
    throw ("Failed to create rank task: " +:+ stringify_text rankRes.2)
  else
    let* rankTaskId := lift (get_prop rankRes.2 "task_id") in
    let* _ := lift (logged rankTaskId) in
    ret rankTaskId.

(** Test 4: full API flow test for startRankTask.  [module_file] is what
    reading and parsing startRankTask.imljson gives; that happens before the
    [try], so its exception is the function's own. *)
Definition testStartRankTaskFlow (module_file : Outcome Value) : Script unit :=
  let* module := lift module_file in
  try_catch
    (let* _ := lift (checkParameterTypes module) in
     let* sessionId := createSession in
     let* artifactTaskId := createArtifact sessionId in
     let* artifactId := waitForArtifact artifactTaskId in
     let* rankTaskId := createRankTask sessionId artifactId in
     push_result
       {| name := "api:startRankTask"; passed := true; error := None;
          details := Some (JObj [ ("sessionId", sessionId);
                                  ("artifactId", artifactId);
                                  ("rankTaskId", rankTaskId) ]) |})
    (fun e =>
       push_result
         {| name := "api:startRankTask"; passed := false; error := Some e;
            details := None |}).

End Flow.

Arguments service {Api} w.
Arguments results {Api} w.

End TestModule.


(* ===================================================================== *)
(** * The Make.com SDK API and the app directory, as the deploy scripts
      see them *)
(* ===================================================================== *)

Module MakeApi.

(** The endpoints the scripts address, under [API_BASE]. *)
Inductive Endpoint : Type :=
| EBase
| ECommon
| EConnections
| EConnectionPart (name part : string)
| EModules
| EModulePart (name part : string)
| ERpcs
| ERpcPart (name part : string).

(** The template literals the endpoints are written as. *)
Definition endpoint_path (MAKE_APP_ID MAKE_APP_VERSION : string)
  (e : Endpoint) : string :=
  match e with
  | EBase => "/" +:+ MAKE_APP_ID +:+ "/" +:+ MAKE_APP_VERSION +:+ "/base"
  | ECommon => "/" +:+ MAKE_APP_ID +:+ "/" +:+ MAKE_APP_VERSION +:+ "/common"
  | EConnections => "/" +:+ MAKE_APP_ID +:+ "/connections"
  | EConnectionPart name part =>
      "/" +:+ MAKE_APP_ID +:+ "/connections/" +:+ name +:+ "/" +:+ part
  | EModules => "/" +:+ MAKE_APP_ID +:+ "/" +:+ MAKE_APP_VERSION +:+ "/modules"
  | EModulePart name part =>
      "/" +:+ MAKE_APP_ID +:+ "/" +:+ MAKE_APP_VERSION +:+ "/modules/"
      +:+ name +:+ "/" +:+ part
  | ERpcs => "/" +:+ MAKE_APP_ID +:+ "/" +:+ MAKE_APP_VERSION +:+ "/rpcs"
  | ERpcPart name part =>
      "/" +:+ MAKE_APP_ID +:+ "/" +:+ MAKE_APP_VERSION +:+ "/rpcs/"
      +:+ name +:+ "/" +:+ part
  end.

(** What [fetch] is called with. *)
Record Request : Type := {
  method : Method;
  endpoint : Endpoint;
  body : option string;
  contentType : string
}.

(** [fetch] rejects, or a response arrives with a status and a text. *)
Inductive Reply : Type :=
| FetchFail (message : string)
| Response (status : Z) (text : string).

(** What a run does that can be seen from outside: its requests, each with
    the reply it got. *)
Definition Event : Type := Request * Reply.

(** [response.ok] *)
Definition ok (status : Z) : bool := (200 <=? status) && (status <=? 299).

(** The [data] argument of [makeRequest]: [string | object | undefined]. *)
Inductive RequestData : Type :=
| NoData
| Text (s : string)
| Json (v : Value).

(** [typeof data === 'string' ? data : (data ? JSON.stringify(data) : undefined)] *)
Definition request_body (data : RequestData) : option string :=
  match data with
  | NoData => None
  | Text s => Some s
  | Json v => if truthy v then JSON_stringify v else None
  end.

(** [JSON.stringify(v)] passed as [data]. *)
Definition stringified (v : Value) : RequestData :=
  match JSON_stringify v with
  | Some t => Text t
  | None => NoData
  end.

(** [interface DeployResult] *)
Record DeployResult : Type := {
  success : bool;
  component : string;
  error : option string
}.

(** How [main] ends when it does not reject: by [process.exit(1)], or by
    running to its last line. *)
Inductive MainEnd : Type := Exit1 | Complete.

(** The exit code of the script: [main().catch] exits with 1 too. *)
Definition exit_code (o : Outcome MainEnd) : Z :=
  match o with
  | Returned Complete => 0
  | Returned Exit1 => 1
  | Thrown _ => 1
  end.

(** A directory of the app: absent ([existsSync] answers false); there but
    not to be listed ([readdirSync] throws, as for a file of that name or a
    directory that may not be read); or listed, with its entries in
    [readdirSync] order, each with what [readFileSync] gives for it (the
    text, or the error). *)
Inductive Directory : Type :=
| Absent
| Unlistable (message : string)
| Listed (entries : list (string * Outcome string)).

(** The files under [APP_DIR]. *)
Record AppDir : Type := {
  base_imljson : Outcome string;
  common_imljson : Outcome string;
  connections : Directory;
  modules : Directory;
  rpcs : Directory
}.

(** [s.endsWith(suffix)] *)
Fixpoint ends_with (suffix s : string) : bool :=
  String.eqb s suffix
  || match s with
     | EmptyString => false
     | String _ s' => ends_with suffix s'
     end.

(** [s.replace(needle, '')]: the first occurrence goes. *)
Fixpoint remove_first (needle s : string) : string :=
  match strip_prefix needle s with
  | Some rest => rest
  | None =>
      match s with
      | EmptyString => EmptyString
      | String c s' => String c (remove_first needle s')
      end
  end.

(** [s.replace(/-/g, '_')] *)
Fixpoint dashes_to_underscores (s : string) : string :=
  match s with
  | EmptyString => EmptyString
  | String c s' =>
      String (if Ascii.eqb c "-"%char then "_"%char else c)
             (dashes_to_underscores s')
  end.

(** [readdirSync(dir).filter(f => f.endsWith('.imljson'))] *)
Definition imljson_files (entries : list (string * Outcome string))
  : list (string * Outcome string) :=
  List.filter (fun entry => ends_with ".imljson" entry.1) entries.

(** [file.replace('.imljson', '').replace(/-/g, '_')] *)
Definition local_name (file : string) : string :=
  dashes_to_underscores (remove_first ".imljson" file).

(** A JavaScript [Map]: entries in insertion order, keys compared as
    [Map] compares them. *)
Definition JsMap : Type := list (Value * Value).

Fixpoint map_set (m : JsMap) (k v : Value) : JsMap :=
  match m with
  | [] => [(k, v)]
  | (k', v') :: rest =>
      if strict_eq k' k then (k', v) :: rest else (k', v') :: map_set rest k v
  end.

Fixpoint map_get (m : JsMap) (k : Value) : Value :=
  match m with
  | [] => JUndef
  | (k', v') :: rest => if strict_eq k' k then v' else map_get rest k
  end.

Fixpoint map_has (m : JsMap) (k : Value) : bool :=
  match m with
  | [] => false
  | (k', _) :: rest => strict_eq k' k || map_has rest k
  end.

(** The values [for (const x of v)] visits; a value that is not iterable
    throws a TypeError (its message here stands for the engine's).  A string
    yields its characters. *)
Definition iterate (v : Value) : Outcome (list Value) :=
  match v with
  | JArr items => Returned items
  | JStr s =>
      Returned (List.map (fun c => JStr (String c EmptyString))
                         (String.list_ascii_of_string s))
  | _ => Thrown "response is not iterable"
  end.

End MakeApi.

(* ===================================================================== *)
(** * scripts/deploy.ts *)
(* ===================================================================== *)

Module Deploy.
Import MakeApi.

(** Make.com module type IDs *)
Definition types : gmap string Value :=
  list_to_map [ ("action", JNum 4); ("search", JNum 9); ("trigger", JNum 1);
                ("instant_trigger", JNum 5); ("responder", JNum 11);
                ("universal", JNum 12) ].

Definition getModuleTypeId (type : string) : Value :=
  js_or (record_get types type) (JNum 4).

(** [let moduleType = 'action'; if (type === 'search') moduleType = 'search';
    if (type === 'trigger') moduleType = 'trigger';], given [config.type]:
    the only argument [getModuleTypeId] is called with. *)
Definition moduleType (type : Value) : string :=
  if is_string type "trigger" then "trigger"
  else if is_string type "search" then "search"
  else "action".

Section Script.

(** The runtime's [JSON.parse]. *)
Variable JSON_parse : string -> Outcome Value.
(** The Make.com API: any state, any replies. *)
Variable Api : Type.
Variable serve : Api -> Request -> Reply * Api.
(** The app directory on disk. *)
Variable app : AppDir.

(** The script's mutable state: the API behind the network, [main]'s
    [results] array, and the global [connectionNameMap]. *)
Record World : Type := {
  service : Api;
  results : list DeployResult;
  connectionNameMap : JsMap
}.

Definition Script (A : Type) : Type := M World Event A.

Definition makeRequest (method : Method) (endpoint : Endpoint)
  (data : RequestData) (contentType : string) : Script Value :=
  fun w =>
    let req := {| method := method; endpoint := endpoint;
                  body := request_body data; contentType := contentType |} in
    let (rep, api') := serve (service w) req in
    let w' := {| service := api'; results := results w;
                 connectionNameMap := connectionNameMap w |} in
    match rep with
    | FetchFail e => (Thrown e, w', [(req, rep)])
    | Response status text =>
        if negb (ok status) then
          (Thrown ("HTTP " +:+ pretty status +:+ ": " +:+ text), w', [(req, rep)])
        else
          (Returned (match JSON_parse text with
                     | Returned v => v
                     | Thrown _ => JStr text
                     end), w', [(req, rep)])
    end.

(** [JSON.parse(fs.readFileSync(filePath, 'utf-8'))], given what reading the
    file gives. *)
Definition readJsonFile (file : Outcome string) : Outcome Value :=
  and_then file JSON_parse.

Definition deployBase : Script DeployResult :=
  try_catch
    (let* base := lift (readJsonFile (base_imljson app)) in
     let* _ := makeRequest PUT EBase (stringified base) "application/jsonc" in
     ret {| success := true; component := "base"; error := None |})
    (fun e => ret {| success := false; component := "base"; error := Some e |}).

Definition deployCommon : Script DeployResult :=
  try_catch
    (let* common := lift (readJsonFile (common_imljson app)) in
     let* _ := makeRequest PUT ECommon (stringified common) "application/json" in
     ret {| success := true; component := "common"; error := None |})
    (fun e => ret {| success := false; component := "common"; error := Some e |}).

(** The loop [for (const x of items) map.set(x[key], x[val])]. *)
Fixpoint collect (items : list Value) (key val : string) (map : JsMap)
  : Outcome JsMap :=
  match items with
  | [] => Returned map
  | x :: rest =>
      and_then (get_prop x key) (fun k =>
      and_then (get_prop x val) (fun v =>
      collect rest key val (map_set map k v)))
  end.

(** The body shared by [getExistingConnections], [getExistingModules] and
    [getExistingRpcs]: list the endpoint, then map [key] to [val] over the
    array found under [field]. *)
Definition getExisting (endpoint : Endpoint) (field key val : string)
  : Script JsMap :=
  let* response := makeRequest GET endpoint NoData "application/json" in
  let* listed := lift (get_prop response field) in
  let* items := lift (iterate (js_or listed (JArr []))) in
  lift (collect items key val []).

Definition getExistingConnections : Script JsMap :=
  getExisting EConnections "appConnections" "label" "name".

(** The label is written into the log and into the [component] of both
    results: a label that cannot be converted to a string makes the [try]
    block throw, and then the [catch] block too. *)
Definition deployConnection (localName : string) (config : Value)
  : Script DeployResult :=
  let* configured := lift (get_prop config "label") in
  let label := js_or configured (JStr localName) in
  try_catch
    ((* Check if connection already exists *)
     let* existingConnections := getExistingConnections in
     let remoteName := map_get existingConnections label in
     let* _ :=
       if negb (truthy remoteName) then
         (* Create the connection *)
         let* _ := lift (logged label) in
         let* type := lift (get_prop config "type") in
         let* response :=
           makeRequest POST EConnections
             (Json (JObj [ ("label", label);
                           ("type", js_or type (JStr "basic")) ]))
             "application/json" in
         let* appConnection := lift (get_prop response "appConnection") in
         let* remoteName := lift (get_prop appConnection "name") in
         lift (logged remoteName)
       else lift (logged remoteName) in
     let* text := lift (ToString label) in
     ret {| success := true; component := "connection:" +:+ text;
            error := None |})
    (fun e =>
       let* text := lift (ToString label) in
       ret {| success := false; component := "connection:" +:+ text;
              error := Some e |}).

Definition getExistingModules : Script JsMap :=
  getExisting EModules "appModules" "name" "name".

(** [if (config[field]) await makeRequest('PUT', endpoint,
    JSON.stringify(config[field]), contentType)] *)
Definition deployPart (config : Value) (field : string) (endpoint : Endpoint)
  (contentType : string) : Script unit :=
  let* part := lift (get_prop config field) in
  if truthy part then
    let* _ := makeRequest PUT endpoint (stringified part) contentType in
    ret tt
  else ret tt.

(** [config.connection === 'everyrow-api' ? 'EveryRow API' : config.connection] *)
Definition connection_label (connection : Value) : Value :=
  if is_string connection "everyrow-api" then JStr "EveryRow API"
  else connection.

(** The loop over [connMap] looking for a name equal to [config.connection];
    [null] when there is none. *)
Fixpoint find_name (connMap : JsMap) (connection : Value) : Value :=
  match connMap with
  | [] => JNull
  | (_, name) :: rest =>
      if strict_eq name connection then name else find_name rest connection
  end.

Definition deployModule (localName : string) (config : Value)
  (connMap : JsMap) : Script DeployResult :=
  try_catch
    ((* Check if module already exists *)
     let* existingModules := getExistingModules in
     let moduleName := localName in
     (* Resolve connection reference to actual Make.com connection name *)
     let* connection := lift (get_prop config "connection") in
     let connectionName :=
       if truthy connection then
         let found := js_or (map_get connMap (connection_label connection)) JNull in
         if negb (truthy found) then find_name connMap connection else found
       else JNull in
     let* _ :=
       if truthy connection then
         let* _ := lift (logged connection) in
         lift (logged (js_or connectionName (JStr "null")))
       else ret tt in
     let* _ :=
       if negb (map_has existingModules (JStr moduleName)) then
         (* Determine module type from config *)
         let* type := lift (get_prop config "type") in
         let* label := lift (get_prop config "label") in
         let* description := lift (get_prop config "description") in
         let* _ :=
           makeRequest POST EModules
             (Json (JObj [ ("name", JStr moduleName);
                           ("label", js_or label (JStr moduleName));
                           ("description", js_or description (JStr ""));
                           ("typeId", getModuleTypeId (moduleType type));
                           ("connection", connectionName) ]))
             "application/json" in
         ret tt
       else ret tt in
     let* _ := deployPart config "communication"
                 (EModulePart moduleName "api") "application/jsonc" in
     let* _ := deployPart config "parameters"
                 (EModulePart moduleName "expect") "application/jsonc" in
     let* _ := deployPart config "interface"
                 (EModulePart moduleName "interface") "application/jsonc" in
     let* _ := deployPart config "samples"
                 (EModulePart moduleName "samples") "application/jsonc" in
     ret {| success := true; component := "module:" +:+ moduleName;
            error := None |})
    (fun e =>
       ret {| success := false; component := "module:" +:+ localName;
              error := Some e |}).

Definition getExistingRpcs : Script JsMap :=
  getExisting ERpcs "appRpcs" "name" "name".

Definition deployRpc (localName : string) (config : Value) (connMap : JsMap)
  : Script DeployResult :=
  try_catch
    ((* Check if RPC already exists *)
     let* existingRpcs := getExistingRpcs in
     let rpcName := localName in
     let* connection := lift (get_prop config "connection") in
     let connectionName :=
       if truthy connection
       then js_or (map_get connMap (connection_label connection)) JNull
       else JNull in
     let* _ :=
       if truthy connection then
         let* _ := lift (logged connection) in
         lift (logged (js_or connectionName (JStr "null")))
       else ret tt in
     let* _ :=
       if negb (map_has existingRpcs (JStr rpcName)) then
         let* label := lift (get_prop config "label") in
         let* _ :=
           makeRequest POST ERpcs
             (Json (JObj [ ("name", JStr rpcName);
                           ("label", js_or label (JStr rpcName));
                           ("connection", connectionName) ]))
             "application/json" in
         ret tt
       else ret tt in
     let* _ := deployPart config "communication"
                 (ERpcPart rpcName "api") "application/jsonc" in
     let* _ := deployPart config "parameters"
                 (ERpcPart rpcName "parameters") "application/jsonc" in
     ret {| success := true; component := "rpc:" +:+ rpcName; error := None |})
    (fun e =>
       ret {| success := false; component := "rpc:" +:+ localName;
              error := Some e |}).

(** [results.push(r)] *)
Definition push_result (r : DeployResult) : Script unit :=
  modify (fun w => {| service := service w; results := results w ++ [r];
                      connectionNameMap := connectionNameMap w |}).

(** [Object.fromEntries(map)]: each key is converted to a property key, in
    the order of the entries; all that is modelled of the object is the
    exception of a key that cannot be converted. *)
Fixpoint fromEntries (map : JsMap) : Outcome unit :=
  match map with
  | [] => Returned tt
  | (k, _) :: rest => and_then (ToString k) (fun _ => fromEntries rest)
  end.

(** The loop of [main] over the connection files. *)
Fixpoint deployConnections (files : list (string * Outcome string))
  : Script unit :=
  match files with
  | [] => ret tt
  | (file, content) :: rest =>
      let localName := local_name file in
      let* config := lift (readJsonFile content) in
      let* result := deployConnection localName config in
      let* _ := push_result result in
      deployConnections rest
  end.

(** The loop of [main] over the module files. *)
Fixpoint deployModules (files : list (string * Outcome string))
  : Script unit :=
  match files with
  | [] => ret tt
  | (file, content) :: rest =>
      let name := local_name file in
      let* config := lift (readJsonFile content) in
      let* connMap := read connectionNameMap in
      let* result := deployModule name config connMap in
      let* _ := push_result result in
      deployModules rest
  end.

(** The loop of [main] over the RPC files. *)
Fixpoint deployRpcs (files : list (string * Outcome string)) : Script unit :=
  match files with
  | [] => ret tt
  | (file, content) :: rest =>
      let name := local_name file in
      let* config := lift (readJsonFile content) in
      let* connMap := read connectionNameMap in
      let* result := deployRpc name config connMap in
      let* _ := push_result result in
      deployRpcs rest
  end.

(** [if (fs.existsSync(dir)) { for (const file of
    fs.readdirSync(dir).filter(...)) ... }] *)
Definition in_directory (dir : Directory)
  (loop : list (string * Outcome string) -> Script unit) : Script unit :=
  match dir with
  | Listed entries => loop (imljson_files entries)
  | Unlistable e => throw e
  | Absent => ret tt
  end.

Definition main : Script MainEnd :=
  let* _ := modify (fun w => {| service := service w; results := [];
                                connectionNameMap := connectionNameMap w |}) in
  (* Deploy base *)
  let* base := deployBase in
  let* _ := push_result base in
  (* Deploy common *)
  let* common := deployCommon in
  let* _ := push_result common in
  (* Deploy connections first and build the name mapping *)
  let* _ := in_directory (connections app) deployConnections in
  (* Refresh connection name map after deploying connections *)
  let* refreshed := getExistingConnections in
  let* _ := modify (fun w => {| service := service w; results := results w;
                                connectionNameMap := refreshed |}) in
  let* _ := lift (fromEntries refreshed) in
  (* Deploy modules *)
  let* _ := in_directory (modules app) deployModules in
  (* Deploy RPCs *)
  let* _ := in_directory (rpcs app) deployRpcs in
  (* Summary *)
  let* results := read results in
  let failed := List.filter (fun r => negb (success r)) results in
  if (0 <? Z.of_nat (List.length failed)) then ret Exit1 else ret Complete.

End Script.

Arguments service {Api} w.
Arguments results {Api} w.
Arguments connectionNameMap {Api} w.

End Deploy.

(* ===================================================================== *)
(** * The other copy of the deploy script (create first, then update) *)
(* ===================================================================== *)

Module DeployPrev.
Import MakeApi.

(** Make.com module type IDs *)
Definition types : gmap string Value :=
  list_to_map [ ("action", JNum 4); ("search", JNum 9); ("trigger", JNum 1);
                ("instant_trigger", JNum 5); ("responder", JNum 11);
                ("universal", JNum 12) ].

Definition getModuleTypeId (type : string) : Value :=
  js_or (record_get types type) (JNum 4).

(** [let moduleType = 'action'; if (type === 'search') moduleType = 'search';
    if (type === 'trigger') moduleType = 'trigger';], given [config.type]:
    the only argument [getModuleTypeId] is called with. *)
Definition moduleType (type : Value) : string :=
  if is_string type "trigger" then "trigger"
  else if is_string type "search" then "search"
  else "action".

Section Script.

Variable JSON_parse : string -> Outcome Value.
Variable Api : Type.
Variable serve : Api -> Request -> Reply * Api.
Variable app : AppDir.

(** The script's mutable state: the API behind the network, and [main]'s
    [results] array. *)
Record World : Type := {
  service : Api;
  results : list DeployResult
}.

Definition Script (A : Type) : Type := M World Event A.

Definition makeRequest (method : Method) (endpoint : Endpoint)
  (data : RequestData) (contentType : string) : Script Value :=
  fun w =>
    let req := {| method := method; endpoint := endpoint;
                  body := request_body data; contentType := contentType |} in
    let (rep, api') := serve (service w) req in
    let w' := {| service := api'; results := results w |} in
    match rep with
    | FetchFail e => (Thrown e, w', [(req, rep)])
    | Response status text =>
        if negb (ok status) then
          (Thrown ("HTTP " +:+ pretty status +:+ ": " +:+ text), w', [(req, rep)])
        else
          (Returned (match JSON_parse text with
                     | Returned v => v
                     | Thrown _ => JStr text
                     end), w', [(req, rep)])
    end.

Definition readJsonFile (file : Outcome string) : Outcome Value :=
  and_then file JSON_parse.

Definition deployBase : Script DeployResult :=
  try_catch
    (let* base := lift (readJsonFile (base_imljson app)) in
     let* _ := makeRequest PUT EBase (stringified base) "text/plain" in
     ret {| success := true; component := "base"; error := None |})
    (fun e => ret {| success := false; component := "base"; error := Some e |}).

Definition deployCommon : Script DeployResult :=
  try_catch
    (let* common := lift (readJsonFile (common_imljson app)) in
     let* _ := makeRequest PUT ECommon (stringified common) "text/plain" in
     ret {| success := true; component := "common"; error := None |})
    (fun e => ret {| success := false; component := "common"; error := Some e |}).

(** [if (config[field]) await makeRequest('PUT', endpoint,
    JSON.stringify(config[field]), 'text/plain')] *)
Definition deployPart (config : Value) (field : string) (endpoint : Endpoint)
  : Script unit :=
  let* part := lift (get_prop config field) in
  if truthy part then
    let* _ := makeRequest PUT endpoint (stringified part) "text/plain" in
    ret tt
  else ret tt.

Definition deployConnection (name : string) (config : Value)
  : Script DeployResult :=
  try_catch
    ((* First, try to create the connection *)
     let* _ :=
       try_catch
         (let* label := lift (get_prop config "label") in
          let* type := lift (get_prop config "type") in
          let* _ :=
            makeRequest POST EConnections
              (Json (JObj [ ("name", JStr name);
                            ("label", js_or label (JStr name));
                            ("type", js_or type (JStr "basic")) ]))
              "application/json" in
          ret tt)
         (fun _ => ret tt) in
     let* _ := deployPart config "communication" (EConnectionPart name "api") in
     let* _ := deployPart config "parameters"
                 (EConnectionPart name "parameters") in
     ret {| success := true; component := "connection:" +:+ name;
            error := None |})
    (fun e =>
       ret {| success := false; component := "connection:" +:+ name;
              error := Some e |}).

Definition deployModule (name : string) (config : Value)
  : Script DeployResult :=
  try_catch
    ((* Determine module type from config *)
     let* type := lift (get_prop config "type") in
     (* First, try to create the module *)
     let* _ :=
       try_catch
         (let* label := lift (get_prop config "label") in
          let* description := lift (get_prop config "description") in
          let* connection := lift (get_prop config "connection") in
          let* _ :=
            makeRequest POST EModules
              (Json (JObj [ ("name", JStr name);
                            ("label", js_or label (JStr name));
                            ("description", js_or description (JStr ""));
                            ("type_id", getModuleTypeId (moduleType type));
                            ("connection", js_or connection JNull);
                            ("moduleInitMode", JStr "blank") ]))
              "application/json" in
          ret tt)
         (fun _ => ret tt) in
     let* _ := deployPart config "communication" (EModulePart name "api") in
     let* _ := deployPart config "parameters" (EModulePart name "expect") in
     let* _ := deployPart config "interface" (EModulePart name "interface") in
     let* _ := deployPart config "samples" (EModulePart name "samples") in
     ret {| success := true; component := "module:" +:+ name; error := None |})
    (fun e =>
       ret {| success := false; component := "module:" +:+ name;
              error := Some e |}).

Definition deployRpc (name : string) (config : Value) : Script DeployResult :=
  try_catch
    ((* First, try to create the RPC *)
     let* _ :=
       try_catch
         (let* label := lift (get_prop config "label") in
          let* connection := lift (get_prop config "connection") in
          let* _ :=
            makeRequest POST ERpcs
              (Json (JObj [ ("name", JStr name);
                            ("label", js_or label (JStr name));
                            ("connection", js_or connection JNull) ]))
              "application/json" in
          ret tt)
         (fun _ => ret tt) in
     let* _ := deployPart config "communication" (ERpcPart name "api") in
     let* _ := deployPart config "parameters" (ERpcPart name "parameters") in
     ret {| success := true; component := "rpc:" +:+ name; error := None |})
    (fun e =>
       ret {| success := false; component := "rpc:" +:+ name; error := Some e |}).

(** [results.push(r)] *)
Definition push_result (r : DeployResult) : Script unit :=
  modify (fun w => {| service := service w; results := results w ++ [r] |}).

(** The three loops of [main] over the files of a directory have one
    shape; [deploy] is [deployConnection], [deployModule] or [deployRpc]. *)
Fixpoint deployFiles (deploy : string -> Value -> Script DeployResult)
  (files : list (string * Outcome string)) : Script unit :=
  match files with
  | [] => ret tt
  | (file, content) :: rest =>
      let name := local_name file in
      let* config := lift (readJsonFile content) in
      let* result := deploy name config in
      let* _ := push_result result in
      deployFiles deploy rest
  end.

(** [if (fs.existsSync(dir)) { for (const file of
    fs.readdirSync(dir).filter(...)) ... }] *)
Definition in_directory (dir : Directory)
  (loop : list (string * Outcome string) -> Script unit) : Script unit :=
  match dir with
  | Listed entries => loop (imljson_files entries)
  | Unlistable e => throw e
  | Absent => ret tt
  end.

Definition main : Script MainEnd :=
  let* _ := modify (fun w => {| service := service w; results := [] |}) in
  (* Deploy base *)
  let* base := deployBase in
  let* _ := push_result base in
  (* Deploy common *)
  let* common := deployCommon in
  let* _ := push_result common in
  (* Deploy connections *)
  let* _ := in_directory (connections app) (deployFiles deployConnection) in
  (* Deploy modules *)
  let* _ := in_directory (modules app) (deployFiles deployModule) in
  (* Deploy RPCs *)
  let* _ := in_directory (rpcs app) (deployFiles deployRpc) in
  (* Summary *)
  let* results := read results in
  let failed := List.filter (fun r => negb (success r)) results in
  if (0 <? Z.of_nat (List.length failed)) then ret Exit1 else ret Complete.

End Script.

Arguments service {Api} w.
Arguments results {Api} w.

End DeployPrev.

(* ===================================================================== *)
(** * scripts/test-module.ts: the other tests, and [main] *)
(* ===================================================================== *)

Module TestSuite.
Import TestModule.

(** What [fs.readdirSync(modulesDir)] gives: the error, or the entries in
    order, each with what [fs.readFileSync] gives for it. *)
Definition ModulesDir : Type := Outcome (list (string * Outcome string)).

Definition requiredFields : list string := ["label"; "type"; "connection"].

(** [fields.filter(f => !module[f])] *)
Fixpoint missing (module : Value) (fields : list string)
  : Outcome (list string) :=
  match fields with
  | [] => Returned []
  | f :: rest =>
      and_then (get_prop module f) (fun v =>
      and_then (missing module rest) (fun others =>
      Returned (if negb (truthy v) then f :: others else others)))
  end.

Section Suite.

(** The runtime's [JSON.parse]. *)
Variable JSON_parse : string -> Outcome Value.
(** The remote API: any state, any replies. *)
Variable Api : Type.
Variable serve : Api -> Request -> Reply * Api.

(** The body of the loop of test 1, for one file of the modules
    directory. *)
Definition testModuleFile (file : string) (content : Outcome string)
  : Script Api unit :=
  let moduleName := MakeApi.remove_first ".imljson" file in
  try_catch
    (let* content := lift content in
     let* module := lift (JSON_parse content) in
     (* Check required fields *)
     let* missingFields := lift (missing module requiredFields) in
     if 0 <? Z.of_nat (List.length missingFields) then
       push_result Api
         {| name := "structure:" +:+ moduleName; passed := false;
            error := Some ("Missing required fields: "
                           +:+ join ", " missingFields);
            details := None |}
     else
       (* Check communication array exists *)
       let* communication := lift (get_prop module "communication") in
       if negb (isArray communication)
          || (Validation.array_length communication =? 0) then
         push_result Api
           {| name := "structure:" +:+ moduleName; passed := false;
              error := Some "Missing or empty communication array";
              details := None |}
       else
         push_result Api
           {| name := "structure:" +:+ moduleName; passed := true;
              error := None; details := None |})
    (fun e =>
       push_result Api
         {| name := "structure:" +:+ moduleName; passed := false;
            error := Some ("JSON parse error: " +:+ e); details := None |}).

Fixpoint testModuleFiles (files : list (string * Outcome string))
  : Script Api unit :=
  match files with
  | [] => ret tt
  | (file, content) :: rest =>
      let* _ := testModuleFile file content in
      testModuleFiles rest
  end.

(** Test 1: validate module JSON structure. *)
Definition testModuleStructure (modulesDir : ModulesDir) : Script Api unit :=
  let* entries := lift modulesDir in
  testModuleFiles (MakeApi.imljson_files entries).

Definition parsed_group_body (sessionId parsed : Value) : Value :=
  JObj [ ("session_id", sessionId);
         ("payload", JObj [ ("task_type", JStr "create_group");
                            ("query", JObj [("data_to_create", parsed)]) ]) ].

(** Test 5: test that parseJSON works with string input. *)
Definition testParseJsonFlow : Script Api unit :=
  (* Simulate what happens when user uses toString() to convert collection
     to string *)
  let jsonString := stringify_text TEST_DATA in
  try_catch
    ((* Create session *)
     let* sessionRes :=
       apiRequest Api serve POST "/sessions/create"
         (Some (JObj [("name", JStr "Test parseJSON Flow")])) in
     let* sessionId := lift (get_prop sessionRes.2 "session_id") in
     let* _ := lift (logged sessionId) in
     (* Create artifact with parsed JSON *)
     let* parsed := lift (JSON_parse jsonString) in
     let* artifactRes :=
       apiRequest Api serve POST "/tasks"
         (Some (parsed_group_body sessionId parsed)) in
     if bad_status artifactRes.1 then
       throw ("Failed: " +:+ stringify_text artifactRes.2)
     else
       let* task_id := lift (get_prop artifactRes.2 "task_id") in
       let* _ := lift (logged task_id) in
       push_result Api
         {| name := "api:parseJsonFlow"; passed := true; error := None;
            details := None |})
    (fun e =>
       push_result Api
         {| name := "api:parseJsonFlow"; passed := false; error := Some e;
            details := None |}).

(** [main]; [module_file] is what reading and parsing startRankTask.imljson
    gives. *)
Definition main (modulesDir : ModulesDir) (module_file : Outcome Value)
  : Script Api MakeApi.MainEnd :=
  let* _ := testModuleStructure modulesDir in
  let* _ := testStartRankTaskFlow Api serve module_file in
  let* _ := testParseJsonFlow in
  (* Summary *)
  let* results := read results in
  let failed := List.filter (fun r => negb (passed r)) results in
  if 0 <? Z.of_nat (List.length failed) then ret MakeApi.Exit1
  else ret MakeApi.Complete.

(** The script: without an API key it exits at once. *)
Definition script (EVERYROW_API_KEY : option string) (modulesDir : ModulesDir)
  (module_file : Outcome Value) : Script Api MakeApi.MainEnd :=
  if negb (truthy (match EVERYROW_API_KEY with
                   | Some key => JStr key
                   | None => JUndef
                   end))
  then ret MakeApi.Exit1
  else main modulesDir module_file.

End Suite.

End TestSuite.


(* ===================================================================== *)
(** * Properties: strings *)
(* ===================================================================== *)

Arguments String.append !s1 s2 : simpl nomatch.

Module StringFacts.

Lemma append_nil_r (s : string) : s +:+ "" = s.
Proof. induction s as [| c s IH]; simpl; [| rewrite IH]; reflexivity. Qed.

Lemma append_assoc (a b c : string) : (a +:+ b) +:+ c = a +:+ (b +:+ c).
Proof. induction a as [| x a IH]; simpl; [| rewrite IH]; reflexivity. Qed.

Lemma append_length (a b : string) :
  String.length (a +:+ b) = (String.length a + String.length b)%nat.
Proof. induction a as [| x a IH]; simpl; [| rewrite IH]; reflexivity. Qed.

Lemma strip_prefix_append (p s : string) : strip_prefix p (p +:+ s) = Some s.
Proof.
  induction p as [| c p IH]; simpl; [reflexivity |].
  rewrite Ascii.eqb_refl. exact IH.
Qed.

Lemma strip_prefix_Some (p s r : string) :
  strip_prefix p s = Some r -> s = p +:+ r.
Proof.
  revert s. induction p as [| c p IH]; intros s; simpl.
  - intros [= ->]. reflexivity.
  - destruct s as [| d s]; [discriminate |].
    destruct (Ascii.eqb_spec c d) as [<- | _]; [| discriminate].
    intros H. rewrite (IH _ H). reflexivity.
Qed.

End StringFacts.

(* ===================================================================== *)
(** * Properties: running computations *)
(* ===================================================================== *)

Module EffFacts.

Section Rules.
Context {W E : Type}.

Lemma bind_returned {A B} (m : M W E A) (k : A -> M W E B) (w w1 : W)
  (a : A) (t1 : list E) :
  m w = (Returned a, w1, t1) ->
  bind m k w = (outcome (k a w1), final (k a w1), t1 ++ trace (k a w1)).
Proof.
  intros Hm. unfold bind, outcome, final, trace. rewrite Hm.
  destruct (k a w1) as [[o w2] t2]. reflexivity.
Qed.

Lemma bind_thrown {A B} (m : M W E A) (k : A -> M W E B) (w w1 : W)
  (e : string) (t1 : list E) :
  m w = (Thrown e, w1, t1) -> bind m k w = (Thrown e, w1, t1).
Proof. intros Hm. unfold bind. rewrite Hm. reflexivity. Qed.

Lemma try_returned {A} (m : M W E A) (h : string -> M W E A) (w w1 : W)
  (a : A) (t1 : list E) :
  m w = (Returned a, w1, t1) -> try_catch m h w = (Returned a, w1, t1).
Proof. intros Hm. unfold try_catch. rewrite Hm. reflexivity. Qed.

Lemma try_thrown {A} (m : M W E A) (h : string -> M W E A) (w w1 : W)
  (e : string) (t1 : list E) :
  m w = (Thrown e, w1, t1) ->
  try_catch m h w = (outcome (h e w1), final (h e w1), t1 ++ trace (h e w1)).
Proof.
  intros Hm. unfold try_catch, outcome, final, trace. rewrite Hm.
  destruct (h e w1) as [[o w2] t2]. reflexivity.
Qed.

(** The three parts of a run, again a run. *)
Lemma run_eta {A} (r : Outcome A * W * list E) :
  r = (outcome r, final r, trace r).
Proof. destruct r as [[o w] t]. reflexivity. Qed.

(** ** Every event of a computation satisfies [P] *)

Definition emits (P : E -> Prop) {A} (m : M W E A) : Prop :=
  forall w, Forall P (trace (m w)).

Lemma emits_ret P {A} (a : A) : emits P (ret a).
Proof. intros w. constructor. Qed.

Lemma emits_throw P {A} (e : string) : emits P (@throw W E A e).
Proof. intros w. constructor. Qed.

Lemma emits_lift P {A} (o : Outcome A) : emits P (lift o).
Proof. intros w. constructor. Qed.

Lemma emits_modify P (f : W -> W) : emits P (modify f).
Proof. intros w. constructor. Qed.

Lemma emits_read P {A} (f : W -> A) : emits P (read f).
Proof. intros w. constructor. Qed.

Lemma emits_bind P {A B} (m : M W E A) (k : A -> M W E B) :
  emits P m -> (forall a, emits P (k a)) -> emits P (bind m k).
Proof.
  intros Hm Hk w. specialize (Hm w).
  destruct (m w) as [[[a | e] w1] t1] eqn:Hrun.
  - rewrite (bind_returned _ _ _ _ _ _ Hrun). apply Forall_app.
    split; [exact Hm | apply Hk].
  - rewrite (bind_thrown _ _ _ _ _ _ Hrun). exact Hm.
Qed.

Lemma emits_try P {A} (m : M W E A) (h : string -> M W E A) :
  emits P m -> (forall e, emits P (h e)) -> emits P (try_catch m h).
Proof.
  intros Hm Hh w. specialize (Hm w).
  destruct (m w) as [[[a | e] w1] t1] eqn:Hrun.
  - rewrite (try_returned _ _ _ _ _ _ Hrun). exact Hm.
  - rewrite (try_thrown _ _ _ _ _ _ Hrun). apply Forall_app.
    split; [exact Hm | apply Hh].
Qed.

(** ** The events of a computation come in the order of their ranks, all
       between [lo] and [hi] *)

Variable rank : E -> nat.

Definition ordered (lo hi : nat) {A} (m : M W E A) : Prop :=
  forall w,
    StronglySorted le (rank <$> trace (m w))
    /\ Forall (fun e => (lo <= rank e <= hi)%nat) (trace (m w)).

Lemma ordered_emits (c : nat) {A} (m : M W E A) :
  emits (fun e => rank e = c) m -> ordered c c m.
Proof.
  intros Hm w. specialize (Hm w). split.
  - induction Hm as [| e t He Ht IH]; simpl; constructor; [exact IH |].
    apply Forall_fmap. eapply Forall_impl; [exact Ht |].
    intros e' He'. unfold compose. simpl in *. rewrite He, He'. reflexivity.
  - eapply Forall_impl; [exact Hm |]. intros e He. simpl in He. lia.
Qed.

Lemma ordered_silent (lo hi : nat) {A} (m : M W E A) :
  (forall w, trace (m w) = []) -> ordered lo hi m.
Proof. intros Hm w. rewrite Hm. split; constructor. Qed.

Lemma ordered_weaken (lo hi lo' hi' : nat) {A} (m : M W E A) :
  ordered lo hi m -> (lo' <= lo)%nat -> (hi <= hi')%nat -> ordered lo' hi' m.
Proof.
  intros Hm Hlo Hhi w. destruct (Hm w) as [Hs Hb]. split; [exact Hs |].
  eapply Forall_impl; [exact Hb |]. intros e He. simpl in He. lia.
Qed.

Lemma sorted_app (lo mid hi : nat) (t1 t2 : list E) :
  StronglySorted le (rank <$> t1) ->
  Forall (fun e => (lo <= rank e <= mid)%nat) t1 ->
  StronglySorted le (rank <$> t2) ->
  Forall (fun e => (mid <= rank e <= hi)%nat) t2 ->
  StronglySorted le (rank <$> (t1 ++ t2)).
Proof.
  intros Hs1 Hb1 Hs2 Hb2. rewrite fmap_app.
  apply StronglySorted_app_2; [| exact Hs1 | exact Hs2].
  intros x1 x2 Hx1 Hx2.
  apply list_elem_of_fmap in Hx1 as (e1 & -> & He1).
  apply list_elem_of_fmap in Hx2 as (e2 & -> & He2).
  rewrite Forall_forall in Hb1, Hb2.
  specialize (Hb1 _ He1). specialize (Hb2 _ He2). simpl in *. lia.
Qed.

Lemma ordered_bind (lo mid hi : nat) {A B} (m : M W E A) (k : A -> M W E B) :
  (lo <= mid <= hi)%nat ->
  ordered lo mid m -> (forall a, ordered mid hi (k a)) ->
  ordered lo hi (bind m k).
Proof.
  intros Hmid Hm Hk w. destruct (Hm w) as [Hs1 Hb1].
  destruct (m w) as [[[a | e] w1] t1] eqn:Hrun;
    unfold trace in Hs1, Hb1; cbn [fst snd] in Hs1, Hb1.
  - rewrite (bind_returned _ _ _ _ _ _ Hrun). destruct (Hk a w1) as [Hs2 Hb2].
    unfold trace at 1 3. cbn [fst snd]. split.
    + eapply sorted_app; eassumption.
    + apply Forall_app. split.
      * eapply Forall_impl; [exact Hb1 |]. intros x Hx. simpl in Hx. lia.
      * eapply Forall_impl; [exact Hb2 |]. intros x Hx. simpl in Hx. lia.
  - rewrite (bind_thrown _ _ _ _ _ _ Hrun). unfold trace. cbn [fst snd].
    split; [exact Hs1 |].
    eapply Forall_impl; [exact Hb1 |]. intros x Hx. simpl in Hx. lia.
Qed.

(** ** A computation leaves a part of the world as it was *)

Definition keeps {B} (f : W -> B) {A} (m : M W E A) : Prop :=
  forall w, f (final (m w)) = f w.

Lemma keeps_ret {B} (f : W -> B) {A} (a : A) : keeps f (ret a).
Proof. intros w. reflexivity. Qed.

Lemma keeps_throw {B} (f : W -> B) {A} (e : string) : keeps f (@throw W E A e).
Proof. intros w. reflexivity. Qed.

Lemma keeps_lift {B} (f : W -> B) {A} (o : Outcome A) : keeps f (lift o).
Proof. intros w. reflexivity. Qed.

Lemma keeps_read {B} (f : W -> B) {A} (g : W -> A) : keeps f (read g).
Proof. intros w. reflexivity. Qed.

Lemma keeps_bind {B} (f : W -> B) {A C} (m : M W E A) (k : A -> M W E C) :
  keeps f m -> (forall a, keeps f (k a)) -> keeps f (bind m k).
Proof.
  intros Hm Hk w. specialize (Hm w).
  destruct (m w) as [[[a | e] w1] t1] eqn:Hrun.
  - rewrite (bind_returned _ _ _ _ _ _ Hrun).
    unfold final at 1. cbn [fst snd]. rewrite Hk. exact Hm.
  - rewrite (bind_thrown _ _ _ _ _ _ Hrun). exact Hm.
Qed.

Lemma keeps_try {B} (f : W -> B) {A} (m : M W E A) (h : string -> M W E A) :
  keeps f m -> (forall e, keeps f (h e)) -> keeps f (try_catch m h).
Proof.
  intros Hm Hh w. specialize (Hm w).
  destruct (m w) as [[[a | e] w1] t1] eqn:Hrun.
  - rewrite (try_returned _ _ _ _ _ _ Hrun). exact Hm.
  - rewrite (try_thrown _ _ _ _ _ _ Hrun).
    unfold final at 1. cbn [fst snd]. rewrite Hh. exact Hm.
Qed.

(** ** A computation appends to a log of the world: a prefix of [expected],
       and all of it when it returns *)

Definition appends {L} (log : W -> list L) (expected : list L) {A}
  (m : M W E A) : Prop :=
  forall w,
    exists added,
      log (final (m w)) = log w ++ added
      /\ added `prefix_of` expected
      /\ forall a, outcome (m w) = Returned a -> added = expected.

Lemma appends_keeps {L} (log : W -> list L) {A} (m : M W E A) :
  keeps log m -> appends log [] m.
Proof.
  intros Hm w. exists []. rewrite Hm, app_nil_r.
  split; [reflexivity |]. split; [reflexivity | auto].
Qed.

Lemma appends_thrown {L} (log : W -> list L) (expected : list L) {A}
  (e : string) :
  appends log expected (@lift W E A (Thrown e)).
Proof.
  intros w. exists []. simpl. rewrite app_nil_r.
  split; [reflexivity |]. split; [apply prefix_nil | discriminate].
Qed.

Lemma appends_bind {L} (log : W -> list L) (L1 L2 : list L) {A B}
  (P : A -> Prop) (m : M W E A) (k : A -> M W E B) :
  (forall w a, outcome (m w) = Returned a -> P a) ->
  appends log L1 m -> (forall a, P a -> appends log L2 (k a)) ->
  appends log (L1 ++ L2) (bind m k).
Proof.
  intros HP Hm Hk w. destruct (Hm w) as (added1 & Hlog1 & Hpre1 & Hall1).
  specialize (HP w).
  destruct (m w) as [[[a | e] w1] t1] eqn:Hrun;
    unfold outcome, final in *; cbn [fst snd] in *.
  - rewrite (bind_returned _ _ _ _ _ _ Hrun).
    destruct (Hk a (HP a eq_refl) w1) as (added2 & Hlog2 & Hpre2 & Hall2).
    unfold outcome, final in *. cbn [fst snd] in *.
    rewrite (Hall1 a eq_refl) in Hlog1.
    exists (L1 ++ added2). split; [| split].
    + rewrite Hlog2, Hlog1, app_assoc. reflexivity.
    + apply prefix_app, Hpre2.
    + intros b Hb. rewrite (Hall2 b Hb). reflexivity.
  - rewrite (bind_thrown _ _ _ _ _ _ Hrun). cbn [fst snd].
    exists added1. split; [exact Hlog1 |].
    split; [apply prefix_app_r, Hpre1 | discriminate].
Qed.

(** ** A property of how a computation ends that every exception has *)

Definition ends {A} (Q : Outcome A -> W -> Prop) (m : M W E A) : Prop :=
  forall w, Q (outcome (m w)) (final (m w)).

Lemma ends_bind {A B} (Q : Outcome B -> W -> Prop) (m : M W E A)
  (k : A -> M W E B) :
  (forall e w, Q (Thrown e) w) -> (forall a, ends Q (k a)) -> ends Q (bind m k).
Proof.
  intros Hex Hk w.
  destruct (m w) as [[[a | e] w1] t1] eqn:Hrun.
  - rewrite (bind_returned _ _ _ _ _ _ Hrun). apply Hk.
  - rewrite (bind_thrown _ _ _ _ _ _ Hrun). apply Hex.
Qed.

(** ** A computation guarded by a handler that returns, returns *)

Lemma try_catch_returns {A} (m : M W E A) (f : string -> A) (w : W) :
  (exists a, outcome (m w) = Returned a
             /\ outcome (try_catch m (fun e => ret (f e)) w) = Returned a)
  \/ (exists e, outcome (m w) = Thrown e
                /\ outcome (try_catch m (fun e => ret (f e)) w)
                   = Returned (f e)).
Proof.
  destruct (m w) as [[[a | e] w1] t1] eqn:Hrun.
  - left. exists a. rewrite (try_returned _ _ _ _ _ _ Hrun). auto.
  - right. exists e. rewrite (try_thrown _ _ _ _ _ _ Hrun). auto.
Qed.

(** ** The events of a computation, piece by piece *)

Lemma trace_guarded {A} (m : M W E A) (h : string -> M W E A) (w : W) :
  (forall e w', trace (h e w') = []) ->
  trace (try_catch m h w) = trace (m w).
Proof.
  intros Hh. unfold try_catch. 
  destruct (m w) as [[[a | e] w1] t1]; [reflexivity |].
  specialize (Hh e w1). destruct (h e w1) as [[o w2] t2].
  unfold trace in *. cbn [fst snd] in *. subst t2. apply app_nil_r.
Qed.

Lemma trace_bind {A B} (m : M W E A) (k : A -> M W E B) (w : W) :
  trace (bind m k w)
  = trace (m w) ++ match outcome (m w) with
                   | Returned a => trace (k a (final (m w)))
                   | Thrown _ => []
                   end.
Proof.
  unfold bind, trace, outcome, final.
  destruct (m w) as [[[a | e] w1] t1]; cbn [fst snd].
  - destruct (k a w1) as [[o w2] t2]. reflexivity.
  - symmetry. apply app_nil_r.
Qed.

(** ** A computation that throws *)

Definition throws {A} (m : M W E A) : Prop :=
  forall w, exists e, outcome (m w) = Thrown e.

Lemma throws_first {A B} (m : M W E A) (k : A -> M W E B) :
  throws m -> throws (bind m k).
Proof.
  intros Hm w. destruct (Hm w) as [e He].
  destruct (m w) as [[o w1] t1] eqn:Hrun. unfold outcome in He.
  cbn [fst snd] in He. subst o.
  rewrite (bind_thrown _ _ _ _ _ _ Hrun). exists e. reflexivity.
Qed.

Lemma throws_later {A B} (m : M W E A) (k : A -> M W E B) :
  (forall a, throws (k a)) -> throws (bind m k).
Proof.
  intros Hk w. destruct (m w) as [[[a | e] w1] t1] eqn:Hrun.
  - rewrite (bind_returned _ _ _ _ _ _ Hrun). apply Hk.
  - rewrite (bind_thrown _ _ _ _ _ _ Hrun). exists e. reflexivity.
Qed.

Lemma throws_after_lift {A B} (o : Outcome A) (k : A -> M W E B) :
  (forall a, o = Returned a -> throws (k a)) -> throws (bind (lift o) k).
Proof.
  intros Hk w. destruct o as [a | e].
  - rewrite (bind_returned _ _ w w a [] eq_refl). apply (Hk a eq_refl).
  - exists e. reflexivity.
Qed.

Lemma throws_lift {A} (e : string) : throws (@lift W E A (Thrown e)).
Proof. intros w. exists e. reflexivity. Qed.

(** A [try] whose block throws and whose handler throws. *)
Lemma throws_try {A} (m : M W E A) (h : string -> M W E A) :
  throws m -> (forall e, throws (h e)) -> throws (try_catch m h).
Proof.
  intros Hm Hh w. destruct (Hm w) as [e He].
  destruct (m w) as [[o w1] t1] eqn:Hrun. unfold outcome in He.
  cbn [fst snd] in He. subst o.
  rewrite (try_thrown _ _ _ _ _ _ Hrun). unfold outcome at 1. cbn [fst snd].
  apply Hh.
Qed.

(** ** A computation that returns, with a value that has [P] *)

Definition succeeds {A} (P : A -> Prop) (m : M W E A) : Prop :=
  forall w, exists a, outcome (m w) = Returned a /\ P a.

Lemma succeeds_ret {A} (P : A -> Prop) (a : A) : P a -> succeeds P (ret a).
Proof. intros Ha w. exists a. auto. Qed.

Lemma succeeds_lift {A} (P : A -> Prop) (a : A) :
  P a -> succeeds P (lift (Returned a)).
Proof. intros Ha w. exists a. auto. Qed.

Lemma succeeds_modify (f : W -> W) : succeeds (fun _ => True) (modify f).
Proof. intros w. exists tt. auto. Qed.

Lemma succeeds_read {A} (f : W -> A) : succeeds (fun _ => True) (read f).
Proof. intros w. eexists. split; [reflexivity | exact I]. Qed.

Lemma succeeds_any {A} (P : A -> Prop) (m : M W E A) :
  succeeds P m -> succeeds (fun _ => True) m.
Proof. intros Hm w. destruct (Hm w) as (a & Ha & _). eauto. Qed.

Lemma succeeds_bind {A B} (Q : A -> Prop) (P : B -> Prop)
  (m : M W E A) (k : A -> M W E B) :
  succeeds Q m -> (forall a, Q a -> succeeds P (k a)) ->
  succeeds P (bind m k).
Proof.
  intros Hm Hk w. destruct (Hm w) as (a & Ha & HQ).
  destruct (m w) as [[o w1] t1] eqn:Hrun. unfold outcome in Ha.
  cbn [fst snd] in Ha. subst o.
  rewrite (bind_returned _ _ _ _ _ _ Hrun). apply (Hk a HQ).
Qed.

(** A [try] whose handler goes on. *)
Lemma succeeds_swallowed (m : M W E unit) :
  succeeds (fun _ => True) (try_catch m (fun _ => ret tt)).
Proof.
  intros w. destruct (m w) as [[[[] | e] w1] t1] eqn:Hrun.
  - rewrite (try_returned _ _ _ _ _ _ Hrun). exists tt. auto.
  - rewrite (try_thrown _ _ _ _ _ _ Hrun). exists tt. auto.
Qed.

Lemma succeeds_guarded {A} (P : A -> Prop) (m : M W E A)
  (h : string -> M W E A) :
  succeeds P m -> succeeds P (try_catch m h).
Proof.
  intros Hm w. destruct (Hm w) as (a & Ha & HP).
  destruct (m w) as [[o w1] t1] eqn:Hrun. unfold outcome in Ha.
  cbn [fst snd] in Ha. subst o.
  rewrite (try_returned _ _ _ _ _ _ Hrun). exists a. auto.
Qed.

(** A [try] whose handler returns: the result of the block, or what the
    handler makes of the block's exception. *)
Lemma succeeds_handled {A} (P : A -> Prop) (m : M W E A)
  (h : string -> M W E A) :
  (forall w a, outcome (m w) = Returned a -> P a) ->
  (forall e, succeeds P (h e)) ->
  succeeds P (try_catch m h).
Proof.
  intros Hm Hh w. specialize (Hm w).
  destruct (m w) as [[[a | e] w1] t1] eqn:Hrun.
  - rewrite (try_returned _ _ _ _ _ _ Hrun). exists a.
    split; [reflexivity | apply Hm; reflexivity].
  - rewrite (try_thrown _ _ _ _ _ _ Hrun). unfold outcome at 1.
    cbn [fst snd]. apply Hh.
Qed.

(** ** A computation that emits nothing *)

Definition silent {A} (m : M W E A) : Prop := forall w, trace (m w) = [].

Lemma silent_lift {A} (o : Outcome A) : silent (@lift W E A o).
Proof. intros w. reflexivity. Qed.

Lemma silent_bind {A B} (m : M W E A) (k : A -> M W E B) :
  silent m -> (forall a, silent (k a)) -> silent (bind m k).
Proof.
  intros Hm Hk w. rewrite trace_bind, Hm.
  destruct (outcome (m w)); [apply Hk | reflexivity].
Qed.

End Rules.

(** Steps through a computation that emits nothing. *)
Ltac silent_tac :=
  repeat first
    [ progress cbv zeta
    | solve [intros ?; reflexivity]
    | apply silent_lift
    | apply silent_bind; [| intros ?]
    | match goal with
      | |- silent (if ?b then _ else _) => destruct b
      | |- forall w, trace ((if ?b then _ else _) w) = [] => destruct b
      end ].

End EffFacts.

(* ===================================================================== *)
(** * Properties: module type ids *)
(* ===================================================================== *)

Module TypeIdFacts.

Definition known_types : list string :=
  [ "action"; "search"; "trigger"; "instant_trigger"; "responder"; "universal" ].

(** The two copies of the function are the same function. *)
Lemma getModuleTypeId_same (type : string) :
  Deploy.getModuleTypeId type = DeployPrev.getModuleTypeId type.
Proof. reflexivity. Qed.

(** The six ids of the table. *)
Lemma getModuleTypeId_table :
  List.map Deploy.getModuleTypeId known_types
  = [JNum 4; JNum 9; JNum 1; JNum 5; JNum 11; JNum 12].
Proof. vm_compute. reflexivity. Qed.

Lemma types_lookup_other (type : string) :
  type ∉ known_types -> Deploy.types !! type = None.
Proof.
  intros Hnot. unfold Deploy.types.
  apply not_elem_of_list_to_map_1. exact Hnot.
Qed.

(** A name that is neither in the table nor a member of [Object.prototype]
    gets the default. *)
Lemma getModuleTypeId_default (type : string) :
  type ∉ known_types -> inherited type = JUndef ->
  Deploy.getModuleTypeId type = JNum 4.
Proof.
  intros Hnot Hinh. unfold Deploy.getModuleTypeId, record_get.
  rewrite (types_lookup_other _ Hnot), Hinh. reflexivity.
Qed.

(** A member of [Object.prototype] is truthy. *)
Lemma inherited_truthy (k : string) :
  inherited k <> JUndef -> truthy (inherited k) = true.
Proof.
  unfold inherited. destruct (String.eqb k "constructor"); [reflexivity |].
  destruct (String.eqb k "__proto__"); [reflexivity |].
  destruct (existsb _ _); [reflexivity | contradiction].
Qed.

(** C10, as the code has it.  The two copies of [getModuleTypeId] are the
    same function, on every string.  It returns 4 for [action], 9 for
    [search], 1 for [trigger], 5 for [instant_trigger], 11 for
    [responder] and 12 for [universal]; for any other string it returns 4
    when the string is not the name of a member that every object
    inherits, and that member when it is.  Where the scripts call it,
    with [trigger], [search] or [action] as the configuration's type
    decides, it returns 1, 9 or 4. *)
Theorem getModuleTypeId_same_in_both (type : string) (config_type : Value) :
  Deploy.getModuleTypeId type = DeployPrev.getModuleTypeId type
  /\ List.map Deploy.getModuleTypeId known_types
     = [JNum 4; JNum 9; JNum 1; JNum 5; JNum 11; JNum 12]
  /\ (type ∉ known_types -> inherited type = JUndef ->
      Deploy.getModuleTypeId type = JNum 4)
  /\ (type ∉ known_types -> inherited type <> JUndef ->
      Deploy.getModuleTypeId type = inherited type)
  /\ Deploy.getModuleTypeId (Deploy.moduleType config_type)
     = (if is_string config_type "trigger" then JNum 1
        else if is_string config_type "search" then JNum 9
        else JNum 4)
  /\ DeployPrev.getModuleTypeId (DeployPrev.moduleType config_type)
     = Deploy.getModuleTypeId (Deploy.moduleType config_type).
Proof.
  split; [apply getModuleTypeId_same |].
  split; [apply getModuleTypeId_table |].
  split; [apply getModuleTypeId_default |].
  split.
  - intros Hnot Hinh. unfold Deploy.getModuleTypeId, record_get, js_or.
    rewrite (types_lookup_other _ Hnot), (inherited_truthy _ Hinh).
    reflexivity.
  - split; [| reflexivity]. unfold Deploy.moduleType.
    destruct (is_string config_type "trigger"); [reflexivity |].
    destruct (is_string config_type "search"); reflexivity.
Qed.

(** A name that the table does not have, and no object inherits. *)
Lemma getModuleTypeId_same_in_both_witness :
  Deploy.getModuleTypeId "webhook" = JNum 4.
Proof.
  apply (proj1 (proj2 (proj2
           (getModuleTypeId_same_in_both "webhook" JUndef)))).
  - apply (bool_decide_unpack _). vm_compute. reflexivity.
  - reflexivity.
Defined.

(** C10, as the claim has it, fails: for the string [toString], which is
    not in the table, the lookup [types[type]] finds the function every
    object inherits, which is truthy, so the default 4 is not taken; both
    copies of the function return that function. *)
Lemma getModuleTypeId_inherited_member :
  Deploy.getModuleTypeId "toString" = JFun "toString"
  /\ DeployPrev.getModuleTypeId "toString" = JFun "toString"
  /\ Deploy.getModuleTypeId "toString" <> JNum 4.
Proof. vm_compute. repeat split; discriminate. Qed.

End TypeIdFacts.

(* ===================================================================== *)
(** * Properties: parameter validation *)
(* ===================================================================== *)

Module ValidationFacts.
Import Validation TestModule.

(** An array, or an object that is not [null]. *)
Definition is_collection (v : Value) : bool :=
  isArray v || (String.eqb (typeof v) "object" && negb (is_null v)).

(** The guard [param.required && (value === undefined || value === null)]. *)
Definition missing_required (param : ModuleParameter) (v : Value) : bool :=
  truthy (p_required param) && (is_undefined v || is_null v).

Definition is_thrown {A} (o : Outcome A) : bool :=
  match o with Thrown _ => true | Returned _ => false end.

Lemma validate_text (param : ModuleParameter) (v : Value) :
  p_type param = "text" ->
  valid (validateMakecomParameter param v)
  = negb (missing_required param v || is_collection v).
Proof.
  intros Htext. unfold validateMakecomParameter, missing_required, is_collection.
  rewrite Htext.
  destruct (truthy (p_required param)); destruct v; reflexivity.
Qed.

Lemma validate_invalid_has_error (param : ModuleParameter) (v : Value) :
  valid (validateMakecomParameter param v) = false ->
  errors (validateMakecomParameter param v) <> [].
Proof.
  unfold validateMakecomParameter.
  repeat match goal with
         | |- context [if ?b then _ else _] => destruct b
         | |- context [match ?x with _ => _ end] => destruct x
         end; simpl; congruence.
Qed.

(** Whether an iteration of the loop throws does not depend on the
    results gathered so far. *)
Lemma simulate_parameter_thrown (param : ModuleParameter)
  (iv r1 r2 : gmap string Value) :
  is_thrown (simulate_parameter param iv r1)
  = is_thrown (simulate_parameter param iv r2).
Proof.
  unfold simulate_parameter.
  repeat match goal with
         | |- context [if ?b then _ else _] => destruct b
         end; try reflexivity.
  destruct (ToString _); reflexivity.
Qed.

(** A value that is not an object has a string form. *)
Lemma ToString_primitive (v : Value) :
  typeof v <> "object" -> exists text, ToString v = Returned text.
Proof.
  destruct v as [| | [|] | n | s | items | props | f]; cbn;
    try contradiction; eauto.
Qed.

(** The only exception of the conversion is its TypeError. *)
Lemma ToString_thrown :
  forall (v : Value) (e : string), ToString v = Thrown e -> e = not_primitive.
Proof.
  fix IH 1. intros v e.
  destruct v as [| | [|] | n | s | items | props | f]; cbn [ToString];
    try discriminate.
  - match goal with
    | |- and_then (?els items) _ = _ -> _ => set (elements := els)
    end.
    assert (Hels : forall e', elements items = Thrown e' -> e' = not_primitive).
    { induction items as [| x rest IHrest]; [discriminate |].
      intros e'. cbn [elements].
      assert (Hx : forall e'',
                 match x with
                 | JUndef | JNull => Returned ""
                 | _ => ToString x
                 end = Thrown e'' -> e'' = not_primitive).
      { intros e'' Hx. apply (IH x). destruct x; first [discriminate | exact Hx]. }
      destruct (match x with JUndef | JNull => Returned "" | _ => ToString x end)
        as [t |] eqn:Hhead; cbn [and_then].
      - fold elements. destruct (elements rest) as [ts |] eqn:Hrest;
          cbn [and_then]; [discriminate |].
        intros [= <-]. apply IHrest. reflexivity.
      - intros [= <-]. apply Hx. reflexivity. }
    destruct (elements items) as [ts |] eqn:Hitems; cbn [and_then];
      [discriminate |].
    intros [= <-]. apply Hels. reflexivity.
  - destruct (assoc "toString" props); [| discriminate].
    intros [= <-]. reflexivity.
Qed.

Lemma simulate_loop_throws (ps : list ModuleParameter) (param : ModuleParameter)
  (iv r : gmap string Value) :
  param ∈ ps ->
  is_thrown (simulate_parameter param iv ∅) = true ->
  is_thrown (simulate_loop ps iv r) = true.
Proof.
  intros Hin Hthrow. revert r.
  induction ps as [| other ps IH]; intros r.
  - inversion Hin.
  - simpl. apply elem_of_cons in Hin as [<- | Hin].
    + rewrite (simulate_parameter_thrown param iv ∅ r) in Hthrow.
      destruct (simulate_parameter param iv r); [discriminate | reflexivity].
    + destruct (simulate_parameter other iv r); simpl;
        [apply IH, Hin | reflexivity].
Qed.

Lemma simulate_text_collection (param : ModuleParameter) (iv : gmap string Value) :
  p_type param = "text" ->
  is_collection (effective_value param iv) = true ->
  is_thrown (simulate_parameter param iv ∅) = true.
Proof.
  intros Htext Hcol. unfold simulate_parameter. rewrite Htext. simpl.
  unfold is_collection in Hcol.
  destruct (effective_value param iv); simpl in *; congruence.
Qed.

Lemma simulate_text_scalar (param : ModuleParameter) (iv : gmap string Value) :
  p_type param = "text" ->
  typeof (effective_value param iv) <> "object" ->
  exists text,
    ToString (effective_value param iv) = Returned text
    /\ simulateMakecomParameters [param] iv
       = Returned (record_set ∅ (p_name param) (JStr text)).
Proof.
  intros Htext Hty. destruct (ToString_primitive _ Hty) as [text Htext'].
  exists text. split; [exact Htext' |].
  unfold simulateMakecomParameters. simpl.
  unfold simulate_parameter. rewrite Htext. simpl.
  destruct (String.eqb_spec (typeof (effective_value param iv)) "object");
    [contradiction |].
  rewrite Htext'. reflexivity.
Qed.

(** C8, as the code has it.  For a parameter declared with type [text]:
    [validateMakecomParameter] answers [valid = false], with an error,
    exactly when the value is an array or a non-null object, or the
    parameter is required and the value is [undefined] or [null];
    [simulateMakecomParameters] judges the effective value (the input, or the
    declared default when the input is [undefined]), throws when that is an
    array or a non-null object, and stores its string form when its [typeof]
    is not [object]; a string value, whatever its text, is accepted by
    both. *)
Theorem text_parameter_rejection (param : ModuleParameter) :
  p_type param = "text" ->
  (forall v,
     valid (validateMakecomParameter param v)
     = negb (missing_required param v || is_collection v)
     /\ (valid (validateMakecomParameter param v) = false ->
         errors (validateMakecomParameter param v) <> []))
  /\ (forall ps iv,
        param ∈ ps ->
        is_collection (effective_value param iv) = true ->
        exists e, simulateMakecomParameters ps iv = Thrown e)
  /\ (forall iv,
        typeof (effective_value param iv) <> "object" ->
        exists text,
          ToString (effective_value param iv) = Returned text
          /\ simulateMakecomParameters [param] iv
             = Returned (record_set ∅ (p_name param) (JStr text)))
  /\ (forall s,
        valid (validateMakecomParameter param (JStr s)) = true
        /\ forall iv, iv !! p_name param = Some (JStr s) ->
             simulateMakecomParameters [param] iv
             = Returned (record_set ∅ (p_name param) (JStr s))).
Proof.
  intros Htext. repeat split.
  - apply validate_text, Htext.
  - apply validate_invalid_has_error.
  - intros ps iv Hin Hcol.
    pose proof (simulate_loop_throws ps param iv ∅ Hin
                  (simulate_text_collection param iv Htext Hcol)) as Hthrown.
    unfold simulateMakecomParameters.
    destruct (simulate_loop ps iv ∅) as [r | e]; [discriminate | eauto].
  - intros iv Hty. apply simulate_text_scalar; assumption.
  - rewrite validate_text by assumption.
    unfold missing_required, is_collection. simpl.
    rewrite andb_false_r. reflexivity.
  - intros iv Hlook.
    assert (effective_value param iv = JStr s) as Heff.
    { unfold effective_value, record_get. rewrite Hlook. reflexivity. }
    destruct (simulate_text_scalar param iv Htext) as (text & Htext' & ->);
      [rewrite Heff; discriminate |].
    rewrite Heff in Htext'. injection Htext' as <-. reflexivity.
Qed.

(** A text parameter that is not required, as module definitions declare
    their [inputData]. *)
Definition inputData_text : ModuleParameter :=
  {| p_name := "inputData"; p_type := "text"; p_required := JUndef;
     p_default := JUndef; p_spec := JUndef |}.

(** The same parameter, required. *)
Definition inputData_required : ModuleParameter :=
  {| p_name := "inputData"; p_type := "text"; p_required := JBool true;
     p_default := JUndef; p_spec := JUndef |}.

(** The JSON text of an array is accepted for a text parameter, and an array
    input makes the simulation throw. *)
Lemma text_parameter_rejection_witness :
  valid (validateMakecomParameter inputData_text (JStr "[1,2]")) = true
  /\ exists e,
       simulateMakecomParameters [inputData_text]
         {[ "inputData" := JArr [JNum 1; JNum 2] ]} = Thrown e.
Proof.
  pose proof (text_parameter_rejection inputData_text eq_refl) as H.
  split.
  - exact (proj1 (proj2 (proj2 (proj2 H)) "[1,2]")).
  - apply (proj1 (proj2 H)).
    + apply list_elem_of_singleton. reflexivity.
    + vm_compute. reflexivity.
Defined.

(** C8 as stated does not hold: a required text parameter is rejected when
    its value is missing, though [undefined] is neither an array nor an
    object. *)
Lemma required_text_parameter_rejected_when_missing :
  valid (validateMakecomParameter inputData_required JUndef) = false
  /\ is_collection JUndef = false.
Proof. split; reflexivity. Qed.

End ValidationFacts.

(* ===================================================================== *)
(** * Properties: the start-rank-task API flow *)
(* ===================================================================== *)

Module FlowFacts.
Import TestModule.

(** ** Reading a trace *)

Definition call_of (e : Event) : option (Request * Reply) :=
  match e with
  | Call req rep => Some (req, rep)
  | Sleep _ => None
  end.

(** The API calls of a trace, in order, each with its reply. *)
Definition calls (t : list Event) : list (Request * Reply) := omap call_of t.

Definition requests (t : list Event) : list Request := (calls t).*1.

Definition replies (t : list Event) : list Reply := (calls t).*2.

(** The four requests the flow can issue. *)
Definition session_request : Request :=
  {| method := POST; endpoint := "/sessions/create";
     payload := Some (JObj [("name", JStr "Test Rank Session")]) |}.

Definition artifact_request (sessionId : Value) : Request :=
  {| method := POST; endpoint := "/tasks";
     payload := Some (create_group_body sessionId) |}.

(** The status request for the task whose id is converted to [id]. *)
Definition status_request (id : string) : Request :=
  {| method := GET; endpoint := status_endpoint id; payload := None |}.

Definition rank_request (sessionId artifactId : Value) : Request :=
  {| method := POST; endpoint := "/tasks";
     payload := Some (deep_rank_body sessionId artifactId) |}.

(** What a POST step makes of its reply: the exception of [apiRequest], the
    step's own error on a status other than 200 and 201, else the [field]
    of the data, which the step writes to the log: the exception of that
    conversion when the value has no string form. *)
Definition post_result (what field : string) (rep : Reply) : Outcome Value :=
  match rep with
  | FetchFail e => Thrown e
  | Response _ (Thrown e) => Thrown e
  | Response status (Returned data) =>
      if bad_status status
      then Thrown ("Failed to create " +:+ what +:+ ": " +:+ stringify_text data)
      else
        and_then (get_prop data field) (fun v =>
        and_then (logged v) (fun _ => Returned v))
  end.

(** What one iteration of the polling loop makes of a status reply. *)
Inductive Verdict : Type :=
| Ready (artifact_id : Value)
| Failed (data : Value)
| Pending
| Broken (message : string).

Definition judge (rep : Reply) : Verdict :=
  match rep with
  | FetchFail e => Broken e
  | Response _ (Thrown e) => Broken e
  | Response _ (Returned data) =>
      match get_prop data "artifact_id" with
      | Thrown e => Broken e
      | Returned artifact_id =>
          if truthy artifact_id then Ready artifact_id
          else match get_prop data "status" with
               | Thrown e => Broken e
               | Returned status =>
                   if is_string status "failed" then Failed data else Pending
               end
      end
  end.

(** The runs of the polling loop with [n] iterations left: their events and
    their result. *)
Inductive polled (tid : string) : nat -> list Event -> Outcome Value -> Prop :=
| polled_exhausted :
    polled tid 0 [] (Returned JNull)
| polled_ready n rep artifact_id :
    judge rep = Ready artifact_id ->
    polled tid (S n) [Call (status_request tid) rep] (Returned artifact_id)
| polled_failed n rep data :
    judge rep = Failed data ->
    polled tid (S n) [Call (status_request tid) rep]
      (Thrown ("Artifact creation failed: " +:+ stringify_text data))
| polled_broken n rep e :
    judge rep = Broken e ->
    polled tid (S n) [Call (status_request tid) rep] (Thrown e)
| polled_pending n rep t o :
    judge rep = Pending ->
    polled tid n t o ->
    polled tid (S n) (Call (status_request tid) rep :: Sleep 1000 :: t) o.

(** What the flow makes of the polling loop's result: the artifact id is
    written to the log, which throws when it has no string form. *)
Definition wait_outcome (o : Outcome Value) : Outcome Value :=
  match o with
  | Returned artifactId =>
      if truthy artifactId
      then and_then (logged artifactId) (fun _ => Returned artifactId)
      else Thrown "Timeout waiting for artifact"
  | Thrown e => Thrown e
  end.

(** The result a verdict other than [Pending] ends the loop with. *)
Definition verdict_outcome (v : Verdict) : Outcome Value :=
  match v with
  | Ready artifact_id => Returned artifact_id
  | Failed data => Thrown ("Artifact creation failed: " +:+ stringify_text data)
  | Broken e => Thrown e
  | Pending => Returned JNull
  end.

(** [GET /tasks/<id>/status] *)
Definition is_status_endpoint (ep : string) : bool :=
  match strip_prefix "/tasks/" ep with
  | Some rest => MakeApi.ends_with "/status" rest
  | None => false
  end.

Definition is_status_poll (req : Request) : bool :=
  match method req with
  | GET => is_status_endpoint (endpoint req)
  | _ => false
  end.

(** Linear polling: a delay is 1000 ms and follows a status request, and
    between two status requests there is a delay. *)
Fixpoint linear_polling (t : list Event) : bool :=
  match t with
  | [] => true
  | Sleep _ :: _ => false
  | Call req _ :: rest =>
      match rest with
      | [] => true
      | Sleep ms :: rest' =>
          is_status_poll req && (ms =? 1000) && linear_polling rest'
      | Call req' _ :: _ =>
          negb (is_status_poll req && is_status_poll req') && linear_polling rest
      end
  end.

(** What may follow the polling loop: nothing, or a call that is not a
    status request. *)
Definition starts_clean (t : list Event) : Prop :=
  match t with
  | [] => True
  | Call req _ :: _ => is_status_poll req = false
  | Sleep _ :: _ => False
  end.

Lemma ends_with_append (suffix s : string) :
  MakeApi.ends_with suffix (s +:+ suffix) = true.
Proof.
  induction s as [| c s IH].
  - change (MakeApi.ends_with suffix suffix = true).
    destruct suffix; simpl; [reflexivity |].
    rewrite Ascii.eqb_refl, String.eqb_refl. reflexivity.
  - change (String.eqb (String c (s +:+ suffix)) suffix
            || MakeApi.ends_with suffix (s +:+ suffix) = true).
    rewrite IH. apply orb_true_r.
Qed.

Lemma status_request_is_poll (tid : string) :
  is_status_poll (status_request tid) = true.
Proof.
  unfold is_status_poll, is_status_endpoint, status_request, status_endpoint.
  simpl. apply ends_with_append.
Qed.

Lemma calls_app (t1 t2 : list Event) : calls (t1 ++ t2) = calls t1 ++ calls t2.
Proof. apply omap_app. Qed.

Lemma requests_app (t1 t2 : list Event) :
  requests (t1 ++ t2) = requests t1 ++ requests t2.
Proof. unfold requests. rewrite calls_app. apply fmap_app. Qed.

Lemma replies_app (t1 t2 : list Event) :
  replies (t1 ++ t2) = replies t1 ++ replies t2.
Proof. unfold replies. rewrite calls_app. apply fmap_app. Qed.

(** [v.k1.k2...], [undefined] where the path breaks. *)
Fixpoint follow (v : Value) (path : list string) : Value :=
  match path with
  | [] => v
  | k :: rest =>
      match get_prop v k with
      | Returned x => follow x rest
      | Thrown _ => JUndef
      end
  end.

(** The property of a request's body found along [path]. *)
Definition body_path (req : Request) (path : list string) : Value :=
  match payload req with
  | Some b => follow b path
  | None => JUndef
  end.

(** The steps of the workflow a request can belong to.  A GET that is not a
    status request would read something else from the API: results. *)
Inductive Step : Type :=
| CreateSession
| CreateArtifact
| PollStatus
| CreateRankTask
| FetchResults
| OtherRequest.

Definition step_of (req : Request) : Step :=
  match method req with
  | POST =>
      if String.eqb (endpoint req) "/sessions/create" then CreateSession
      else if String.eqb (endpoint req) "/tasks" then
        if is_string (body_path req ["payload"; "task_type"]) "create_group"
        then CreateArtifact
        else if is_string (body_path req ["payload"; "task_type"]) "deep_rank"
        then CreateRankTask
        else OtherRequest
      else OtherRequest
  | GET => if is_status_poll req then PollStatus else FetchResults
  | PUT => OtherRequest
  end.

(** The requests of a run that gets through all steps, with [n] status
    requests. *)
Definition full_sequence (n : nat) : list Step :=
  [CreateSession; CreateArtifact] ++ replicate n PollStatus ++ [CreateRankTask].

(** The sequence the workflow is said to follow: it ends by fetching
    results. *)
Definition claimed_sequence (n : nat) : list Step :=
  [CreateSession; CreateArtifact] ++ replicate n PollStatus ++ [FetchResults].

(** A request that failed: [apiRequest] threw (the exception is the
    result), or the reply's status is neither 200 nor 201. *)
Definition rejection (rep : Reply) : option string :=
  match rep with
  | FetchFail e => Some e
  | Response _ (Thrown e) => Some e
  | Response _ (Returned _) => None
  end.

Definition refused (rep : Reply) : bool :=
  match rep with
  | Response status (Returned _) => bad_status status
  | _ => false
  end.

(** The failures the flow acts on: any rejection, and a refusal of one of
    its POST requests. *)
Definition acted_on (e : Event) : bool :=
  match e with
  | Call req rep =>
      bool_decide (is_Some (rejection rep))
      || (negb (is_status_poll req) && refused rep)
  | Sleep _ => false
  end.

Lemma step_session : step_of session_request = CreateSession.
Proof. reflexivity. Qed.

Lemma step_artifact (sid : Value) :
  step_of (artifact_request sid) = CreateArtifact.
Proof. reflexivity. Qed.

Lemma step_rank (sid aid : Value) : step_of (rank_request sid aid) = CreateRankTask.
Proof. reflexivity. Qed.

Lemma step_status (tid : string) : step_of (status_request tid) = PollStatus.
Proof.
  unfold step_of. change (method (status_request tid)) with GET.
  rewrite status_request_is_poll. reflexivity.
Qed.

Lemma judge_ready_truthy (rep : Reply) (aid : Value) :
  judge rep = Ready aid -> truthy aid = true.
Proof.
  destruct rep as [e | status [data | e]]; simpl; try discriminate.
  destruct (get_prop data "artifact_id") as [a | e]; [| discriminate].
  destruct (truthy a) eqn:Ha.
  - intros [= <-]. exact Ha.
  - destruct (get_prop data "status") as [st | e]; [| discriminate].
    destruct (is_string st "failed"); discriminate.
Qed.

Lemma judge_ready_data (rep : Reply) (aid : Value) :
  judge rep = Ready aid ->
  exists status data, rep = Response status (Returned data)
                      /\ get_prop data "artifact_id" = Returned aid.
Proof.
  destruct rep as [e | status [data | e]]; simpl; try discriminate.
  destruct (get_prop data "artifact_id") as [a | e] eqn:Ha; [| discriminate].
  destruct (truthy a).
  - intros [= <-]. eauto.
  - destruct (get_prop data "status") as [st | e]; [| discriminate].
    destruct (is_string st "failed"); discriminate.
Qed.

Lemma judge_rejection (rep : Reply) (e : string) :
  rejection rep = Some e -> judge rep = Broken e.
Proof.
  destruct rep as [e' | status [data | e']]; simpl; congruence.
Qed.

Lemma post_result_rejection (what field : string) (rep : Reply) (e : string) :
  rejection rep = Some e -> post_result what field rep = Thrown e.
Proof.
  destruct rep as [e' | status [data | e']]; simpl; congruence.
Qed.

Lemma post_result_returned (what field : string) (rep : Reply) (v : Value) :
  post_result what field rep = Returned v ->
  exists status data,
    rep = Response status (Returned data)
    /\ bad_status status = false /\ get_prop data field = Returned v.
Proof.
  destruct rep as [e | status [data | e]]; simpl; try discriminate.
  destruct (bad_status status) eqn:Hbad; [discriminate |].
  destruct (get_prop data field) as [x | e] eqn:Hget; [| discriminate].
  cbn [and_then]. destruct (logged x); [| discriminate].
  intros [= <-]. exists status, data. repeat split; assumption.
Qed.

(** What a POST step returns was written to the log. *)
Lemma post_result_logged (what field : string) (rep : Reply) (v : Value) :
  post_result what field rep = Returned v ->
  exists text, ToString v = Returned text.
Proof.
  destruct rep as [e | status [data | e]]; simpl; try discriminate.
  destruct (bad_status status); [discriminate |].
  destruct (get_prop data field) as [x | e]; [| discriminate].
  cbn [and_then]. unfold logged.
  destruct (ToString x) as [text | e] eqn:Hx; [| discriminate].
  intros [= <-]. eauto.
Qed.

(** In a list whose elements but the last are not [bad], a bad element is
    the last one. *)
Lemma bad_is_last {A} (bad : A -> bool) (init : list A) (x : A) :
  Forall (fun a => bad a = false) init ->
  forall pre y post, init ++ [x] = pre ++ y :: post -> bad y = true ->
                     post = [] /\ pre = init /\ y = x.
Proof.
  induction 1 as [| a init Ha Hall IH]; intros pre y post Heq Hbad.
  - destruct pre as [| b pre]; simpl in Heq.
    + injection Heq as -> <-. auto.
    + injection Heq as _ Heq. destruct pre; discriminate.
  - destruct pre as [| b pre]; simpl in Heq.
    + injection Heq as -> _. congruence.
    + injection Heq as <- Heq.
      destruct (IH _ _ _ Heq Hbad) as (-> & -> & ->). auto.
Qed.

Lemma none_bad {A} (bad : A -> bool) (l : list A) :
  Forall (fun a => bad a = false) l ->
  forall pre y post, l = pre ++ y :: post -> bad y = true -> False.
Proof.
  intros Hall pre y post -> Hbad.
  apply Forall_app in Hall as [_ Hall]. inversion Hall; congruence.
Qed.

Section Polled.

Variable tid : string.

(** The loop issues at most as many requests as it has iterations, all of
    them the status request. *)
Lemma polled_requests (n : nat) (t : list Event) (o : Outcome Value) :
  polled tid n t o ->
  exists k, (k <= n)%nat /\ requests t = replicate k (status_request tid).
Proof.
  induction 1 as [| n rep aid H | n rep data H | n rep e H | n rep t o H Hp IH].
  - exists 0%nat. split; [lia | reflexivity].
  - exists 1%nat. split; [lia | reflexivity].
  - exists 1%nat. split; [lia | reflexivity].
  - exists 1%nat. split; [lia | reflexivity].
  - destruct IH as (k & Hk & Hreq). exists (S k). split; [lia |].
    change (status_request tid :: requests t
            = status_request tid :: replicate k (status_request tid)).
    rewrite Hreq. reflexivity.
Qed.

(** Every reply before the last left the loop running; the last one decides,
    unless the iterations ran out. *)
Lemma polled_replies (n : nat) (t : list Event) (o : Outcome Value) :
  polled tid n t o ->
  (Forall (fun rep => judge rep = Pending) (replies t)
   /\ length (replies t) = n /\ o = Returned JNull
   /\ t = flat_map (fun rep => [Call (status_request tid) rep; Sleep 1000])
                   (replies t))
  \/ (exists earlier last,
        replies t = earlier ++ [last]
        /\ Forall (fun rep => judge rep = Pending) earlier
        /\ judge last <> Pending
        /\ o = verdict_outcome (judge last)
        /\ t = flat_map (fun rep => [Call (status_request tid) rep; Sleep 1000])
                        earlier
               ++ [Call (status_request tid) last]).
Proof.
  induction 1 as [| n rep aid H | n rep data H | n rep e H | n rep t o H Hp IH].
  - left. repeat split. constructor.
  - right. exists [], rep. rewrite H. repeat split; [constructor | discriminate].
  - right. exists [], rep. rewrite H. repeat split; [constructor | discriminate].
  - right. exists [], rep. rewrite H. repeat split; [constructor | discriminate].
  - destruct IH as [(Hall & Hlen & Ho & Ht)
                   | (earlier & last & Hr & Hall & Hlast & Ho & Ht)].
    + left. repeat split.
      * constructor; assumption.
      * change (S (length (replies t)) = S n). rewrite Hlen. reflexivity.
      * exact Ho.
      * change (Call (status_request tid) rep :: Sleep 1000 :: t
                = Call (status_request tid) rep :: Sleep 1000
                    :: flat_map (fun rep => [Call (status_request tid) rep;
                                             Sleep 1000]) (replies t)).
        rewrite <- Ht. reflexivity.
    + right. exists (rep :: earlier), last. repeat split.
      * change (rep :: replies t = rep :: earlier ++ [last]). rewrite Hr.
        reflexivity.
      * constructor; assumption.
      * exact Hlast.
      * exact Ho.
      * rewrite Ht at 1. reflexivity.
Qed.

(** The calls that left the loop running did not fail. *)
Lemma pending_not_acted_on (reps : list Reply) :
  Forall (fun rep => judge rep = Pending) reps ->
  Forall (fun e => acted_on e = false)
         (flat_map (fun rep => [Call (status_request tid) rep; Sleep 1000]) reps).
Proof.
  induction 1 as [| rep reps Hrep Hall IH]; simpl; [constructor |].
  constructor; [| constructor; [reflexivity | exact IH]].
  simpl. rewrite status_request_is_poll. simpl. rewrite orb_false_r.
  destruct (rejection rep) as [e |] eqn:Hrej.
  - rewrite (judge_rejection _ _ Hrej) in Hrep. discriminate.
  - apply bool_decide_eq_false. intros [e He]. discriminate.
Qed.

(** The artifact id the loop returns is the truthy [artifact_id] of the last
    status reply. *)
Lemma polled_returned (n : nat) (t : list Event) (aid : Value) :
  polled tid n t (Returned aid) -> truthy aid = true ->
  exists t' rep, t = t' ++ [Call (status_request tid) rep]
                 /\ judge rep = Ready aid.
Proof.
  intros Hp Htruthy. remember (Returned aid) as o eqn:Ho.
  induction Hp as [| n rep a H | n rep data H | n rep e H | n rep t o H Hp IH].
  - injection Ho as <-. discriminate.
  - injection Ho as <-. exists [], rep. split; [reflexivity | assumption].
  - discriminate.
  - discriminate.
  - destruct (IH Ho) as (t' & rep' & -> & Hj).
    exists (Call (status_request tid) rep :: Sleep 1000 :: t'), rep'.
    split; [reflexivity | assumption].
Qed.

(** No call of the loop failed, or the loop threw and the call that made it
    throw is its last event. *)
Lemma polled_clean_or_last (n : nat) (t : list Event) (o : Outcome Value) :
  polled tid n t o ->
  ((exists v, o = Returned v) /\ Forall (fun e => acted_on e = false) t)
  \/ (exists init last e,
        t = init ++ [Call (status_request tid) last]
        /\ Forall (fun e => acted_on e = false) init
        /\ o = Thrown e
        /\ forall e', rejection last = Some e' -> e' = e).
Proof.
  intros Hp.
  destruct (polled_replies _ _ _ Hp)
    as [(Hall & _ & -> & Ht) | (earlier & last & _ & Hall & Hlast & -> & Ht)].
  - left. split; [eauto |]. rewrite Ht. apply pending_not_acted_on, Hall.
  - pose proof (pending_not_acted_on _ Hall) as Hclean.
    destruct (judge last) as [aid | data | | e] eqn:Hj; simpl.
    + left. split; [eauto |]. rewrite Ht. apply Forall_app. split; [exact Hclean |].
      constructor; [| constructor].
      destruct (judge_ready_data _ _ Hj) as (status & data & -> & _).
      simpl. rewrite status_request_is_poll. reflexivity.
    + right. eexists _, last, _. repeat split; [exact Ht | exact Hclean |].
      intros e' Hrej. rewrite (judge_rejection _ _ Hrej) in Hj. discriminate.
    + contradiction.
    + right. eexists _, last, _. repeat split; [exact Ht | exact Hclean |].
      intros e' Hrej. rewrite (judge_rejection _ _ Hrej) in Hj. congruence.
Qed.

(** Polling is linear, whatever follows it. *)
Lemma polled_linear (n : nat) (t : list Event) (o : Outcome Value)
  (rest : list Event) :
  polled tid n t o -> starts_clean rest -> linear_polling rest = true ->
  linear_polling (t ++ rest) = true.
Proof.
  intros Hp Hclean Hrest.
  assert (linear_polling (Call (status_request tid) (FetchFail "") :: rest)
          = true) as Hone.
  { destruct rest as [| [req rep | ms] rest];
      [reflexivity | | contradiction].
    simpl in Hclean.
    change (negb (is_status_poll (status_request tid) && is_status_poll req)
            && linear_polling (Call req rep :: rest) = true).
    rewrite Hclean, andb_false_r. exact Hrest. }
  induction Hp as [| n rep a H | n rep data H | n rep e H | n rep t o H Hp IH];
    try exact Hrest; try exact Hone.
  change (is_status_poll (status_request tid) && (1000 =? 1000)
          && linear_polling (t ++ rest) = true).
  rewrite status_request_is_poll, IH. reflexivity.
Qed.

(** Every call of the loop is the status request. *)
Lemma polled_calls (n : nat) (t : list Event) (o : Outcome Value) :
  polled tid n t o ->
  forall req rep, Call req rep ∈ t -> req = status_request tid.
Proof.
  induction 1 as [| n rep aid H | n rep data H | n rep e H | n rep t o H Hp IH];
    intros req rep' Hin.
  - inversion Hin.
  - apply list_elem_of_singleton in Hin. congruence.
  - apply list_elem_of_singleton in Hin. congruence.
  - apply list_elem_of_singleton in Hin. congruence.
  - apply elem_of_cons in Hin as [Hin | Hin]; [congruence |].
    apply elem_of_cons in Hin as [Hin | Hin]; [discriminate |].
    eapply IH, Hin.
Qed.

(** Every delay of the loop is 1000 ms. *)
Lemma polled_sleeps (n : nat) (t : list Event) (o : Outcome Value) :
  polled tid n t o ->
  Forall (fun e => match e with Sleep ms => ms = 1000 | Call _ _ => True end) t.
Proof.
  induction 1; repeat constructor; assumption.
Qed.

(** No call of [suffix] is a status request. *)
Definition no_poll (suffix : list Event) : Prop :=
  Forall (fun x => match x with
                   | Call req _ => is_status_poll req = false
                   | Sleep _ => True
                   end) suffix.

Lemma no_poll_found (suffix pre post : list Event) (req : Request)
  (rep : Reply) :
  no_poll suffix -> suffix = pre ++ Call req rep :: post ->
  is_status_poll req = true -> False.
Proof.
  intros Hsuffix -> Hreq. apply Forall_app in Hsuffix as [_ Hsuffix].
  inversion Hsuffix as [| ? ? Hx _]. congruence.
Qed.

(** A status reply that decides nothing is followed by the delay and then,
    unless the loop is exhausted, by the status request again. *)
Lemma polled_pending_repolled (n : nat) (t : list Event) (o : Outcome Value)
  (suffix : list Event) :
  polled tid n t o -> no_poll suffix ->
  forall pre req rep post,
    t ++ suffix = pre ++ Call req rep :: post ->
    is_status_poll req = true -> judge rep = Pending ->
    exists post',
      post = Sleep 1000 :: post'
      /\ ((exists rep' post'', post' = Call req rep' :: post'')
          \/ (post' = suffix /\ o = Returned JNull)).
Proof.
  intros Hp Hsuffix.
  induction Hp as [| n r aid H | n r data H | n r e H | n r t o H Hp IH];
    intros pre req rep post Ht Hreq Hrep.
  - destruct (no_poll_found _ _ _ _ _ Hsuffix Ht Hreq).
  - destruct pre as [| x pre].
    + injection Ht as _ <- _. congruence.
    + injection Ht as _ Ht.
      destruct (no_poll_found _ _ _ _ _ Hsuffix Ht Hreq).
  - destruct pre as [| x pre].
    + injection Ht as _ <- _. congruence.
    + injection Ht as _ Ht.
      destruct (no_poll_found _ _ _ _ _ Hsuffix Ht Hreq).
  - destruct pre as [| x pre].
    + injection Ht as _ <- _. congruence.
    + injection Ht as _ Ht.
      destruct (no_poll_found _ _ _ _ _ Hsuffix Ht Hreq).
  - destruct pre as [| x [| y pre]].
    + injection Ht as <- <- <-. exists (t ++ suffix).
      split; [reflexivity |].
      destruct Hp; [right; split; reflexivity | left ..]; eauto.
    + injection Ht as _ Hsleep _. discriminate Hsleep.
    + injection Ht as _ _ Ht. exact (IH pre req rep post Ht Hreq Hrep).
Qed.

End Polled.

Section Runs.

Variable Api : Type.
Variable serve : Api -> Request -> Reply * Api.

Definition with_service (w : World Api) (api : Api) : World Api :=
  {| service := api; results := results w |}.

Definition with_result (w : World Api) (r : TestResult) : World Api :=
  {| service := service w; results := results w ++ [r] |}.

Definition failure (e : string) : TestResult :=
  {| name := "api:startRankTask"; passed := false; error := Some e;
     details := None |}.

Lemma apiRequest_run (m : Method) (ep : string) (b : option Value) (w : World Api) :
  apiRequest Api serve m ep b w
  = let req := {| method := m; endpoint := ep; payload := b |} in
    let rep := (serve (service w) req).1 in
    (match rep with
     | FetchFail e => Thrown e
     | Response _ (Thrown e) => Thrown e
     | Response status (Returned data) => Returned (status, data)
     end,
     with_service w (serve (service w) req).2,
     [Call req rep]).
Proof.
  unfold apiRequest, with_service; simpl.
  destruct (serve (service w) _) as [rep api']; simpl.
  destruct rep as [e | status [data | e]]; reflexivity.
Qed.

(** A POST step is one call, judged by [post_result]. *)
Lemma post_step_run (what field : string) (req : Request) (w : World Api) :
  method req = POST ->
  (let* res := apiRequest Api serve POST (endpoint req) (payload req) in
   if bad_status res.1 then
     throw ("Failed to create " +:+ what +:+ ": " +:+ stringify_text res.2)
   else
     let* v := lift (get_prop res.2 field) in
     let* _ := lift (logged v) in
     ret v) w
  = (post_result what field (serve (service w) req).1,
     with_service w (serve (service w) req).2,
     [Call req (serve (service w) req).1]).
Proof.
  intros Hm. unfold bind at 1. rewrite apiRequest_run. simpl.
  replace {| method := POST; endpoint := endpoint req; payload := payload req |}
    with req by (destruct req; simpl in *; congruence).
  destruct (serve (service w) req) as [rep api']; simpl.
  destruct rep as [e | status [data | e]]; simpl; try reflexivity.
  destruct (bad_status status); simpl; [reflexivity |].
  unfold bind, lift, ret.
  destruct (get_prop data field) as [v | e]; simpl; [| reflexivity].
  destruct (logged v); reflexivity.
Qed.

Lemma createSession_run (w : World Api) :
  createSession Api serve w
  = (post_result "session" "session_id" (serve (service w) session_request).1,
     with_service w (serve (service w) session_request).2,
     [Call session_request (serve (service w) session_request).1]).
Proof. apply (post_step_run "session" "session_id" session_request w eq_refl). Qed.

Lemma createArtifact_run (sid : Value) (w : World Api) :
  createArtifact Api serve sid w
  = (post_result "artifact" "task_id" (serve (service w) (artifact_request sid)).1,
     with_service w (serve (service w) (artifact_request sid)).2,
     [Call (artifact_request sid) (serve (service w) (artifact_request sid)).1]).
Proof.
  apply (post_step_run "artifact" "task_id" (artifact_request sid) w eq_refl).
Qed.

Lemma createRankTask_run (sid aid : Value) (w : World Api) :
  createRankTask Api serve sid aid w
  = (post_result "rank task" "task_id"
       (serve (service w) (rank_request sid aid)).1,
     with_service w (serve (service w) (rank_request sid aid)).2,
     [Call (rank_request sid aid) (serve (service w) (rank_request sid aid)).1]).
Proof.
  apply (post_step_run "rank task" "task_id" (rank_request sid aid) w eq_refl).
Qed.

(** A task id that has no string form: the first iteration throws before
    it requests anything. *)
Lemma pollArtifact_unprintable (n : nat) (tid : Value) (e : string)
  (w : World Api) :
  ToString tid = Thrown e ->
  pollArtifact Api serve (S n) tid w = (Thrown e, w, []).
Proof. intros Hid. simpl. unfold bind, lift. rewrite Hid. reflexivity. Qed.

(** One iteration of the polling loop, for a task id with the string form
    [id]. *)
Lemma pollArtifact_step (n : nat) (tid : Value) (id : string) (w : World Api) :
  ToString tid = Returned id ->
  pollArtifact Api serve (S n) tid w
  = let rep := (serve (service w) (status_request id)).1 in
    let w1 := with_service w (serve (service w) (status_request id)).2 in
    match judge rep with
    | Ready artifact_id => (Returned artifact_id, w1, [Call (status_request id) rep])
    | Failed data =>
        (Thrown ("Artifact creation failed: " +:+ stringify_text data), w1,
         [Call (status_request id) rep])
    | Broken e => (Thrown e, w1, [Call (status_request id) rep])
    | Pending =>
        (outcome (pollArtifact Api serve n tid w1),
         final (pollArtifact Api serve n tid w1),
         Call (status_request id) rep :: Sleep 1000
           :: trace (pollArtifact Api serve n tid w1))
    end.
Proof.
  intros Hid. simpl. unfold bind at 1, lift at 1. rewrite Hid.
  unfold bind at 1. rewrite apiRequest_run. simpl.
  fold (status_request id).
  destruct (serve (service w) (status_request id)) as [rep api']; simpl.
  destruct rep as [e | status [data | e]]; simpl; try reflexivity.
  unfold bind, lift, ret, throw, sleep.
  destruct (get_prop data "artifact_id") as [aid | e]; simpl; [| reflexivity].
  destruct (truthy aid); simpl; [reflexivity |].
  destruct (get_prop data "status") as [st | e]; simpl; [| reflexivity].
  destruct (is_string st "failed"); simpl; [reflexivity |].
  destruct (pollArtifact Api serve n tid (with_service w api')) as [[o w'] t].
  reflexivity.
Qed.

(** Every run of the loop is one of the runs [polled] describes, and it
    leaves the results alone. *)
Lemma pollArtifact_polled (n : nat) (tid : Value) (id : string)
  (w : World Api) :
  ToString tid = Returned id ->
  polled id n (trace (pollArtifact Api serve n tid w))
              (outcome (pollArtifact Api serve n tid w))
  /\ results (final (pollArtifact Api serve n tid w)) = results w.
Proof.
  intros Hid. revert w. induction n as [| n IH]; intros w.
  - split; [apply polled_exhausted | reflexivity].
  - rewrite (pollArtifact_step n tid id w Hid). cbv zeta.
    destruct (judge (serve (service w) (status_request id)).1) eqn:Hjudge;
      simpl; (split; [| try reflexivity]).
    + apply polled_ready, Hjudge.
    + apply polled_failed, Hjudge.
    + apply polled_pending; [exact Hjudge | apply IH].
    + change (results (final (pollArtifact Api serve n tid
                (with_service w (serve (service w) (status_request id)).2)))
              = results w).
      rewrite (proj2 (IH _)). reflexivity.
    + apply polled_broken, Hjudge.
Qed.

Lemma waitForArtifact_run (tid : Value) (w : World Api) :
  waitForArtifact Api serve tid w
  = (wait_outcome (outcome (pollArtifact Api serve 30 tid w)),
     final (pollArtifact Api serve 30 tid w),
     trace (pollArtifact Api serve 30 tid w)).
Proof.
  unfold waitForArtifact, bind at 1.
  destruct (pollArtifact Api serve 30 tid w) as [[[aid | e] w'] t]; simpl;
    [| reflexivity].
  destruct (truthy aid); simpl; [| rewrite app_nil_r; reflexivity].
  unfold bind, lift, ret. destruct (logged aid); simpl; rewrite app_nil_r;
    reflexivity.
Qed.

Definition success (sessionId artifactId rankTaskId : Value) : TestResult :=
  {| name := "api:startRankTask"; passed := true; error := None;
     details := Some (JObj [ ("sessionId", sessionId);
                             ("artifactId", artifactId);
                             ("rankTaskId", rankTaskId) ]) |}.

(** The runs of the flow, by where they end: what was read from the module
    file, the function's own outcome, the [results] array afterwards, and
    the events. *)
Inductive flow_shape (old : list TestResult)
  : Outcome Value -> Outcome unit -> list TestResult -> list Event -> Prop :=
| shape_no_file e :
    flow_shape old (Thrown e) (Thrown e) old []
| shape_check module e :
    checkParameterTypes module = Thrown e ->
    flow_shape old (Returned module) (Returned tt) (old ++ [failure e]) []
| shape_session module rep1 e :
    post_result "session" "session_id" rep1 = Thrown e ->
    flow_shape old (Returned module) (Returned tt) (old ++ [failure e])
      [Call session_request rep1]
| shape_artifact module rep1 sid rep2 e :
    post_result "session" "session_id" rep1 = Returned sid ->
    post_result "artifact" "task_id" rep2 = Thrown e ->
    flow_shape old (Returned module) (Returned tt) (old ++ [failure e])
      [Call session_request rep1; Call (artifact_request sid) rep2]
| shape_wait module rep1 sid rep2 tid id tp o e :
    post_result "session" "session_id" rep1 = Returned sid ->
    post_result "artifact" "task_id" rep2 = Returned tid ->
    ToString tid = Returned id ->
    polled id 30 tp o ->
    wait_outcome o = Thrown e ->
    flow_shape old (Returned module) (Returned tt) (old ++ [failure e])
      (Call session_request rep1 :: Call (artifact_request sid) rep2 :: tp)
| shape_rank module rep1 sid rep2 tid id tp aid rep3 e :
    post_result "session" "session_id" rep1 = Returned sid ->
    post_result "artifact" "task_id" rep2 = Returned tid ->
    ToString tid = Returned id ->
    polled id 30 tp (Returned aid) ->
    truthy aid = true ->
    post_result "rank task" "task_id" rep3 = Thrown e ->
    flow_shape old (Returned module) (Returned tt) (old ++ [failure e])
      (Call session_request rep1 :: Call (artifact_request sid) rep2
         :: tp ++ [Call (rank_request sid aid) rep3])
| shape_pass module rep1 sid rep2 tid id tp aid rep3 rid :
    post_result "session" "session_id" rep1 = Returned sid ->
    post_result "artifact" "task_id" rep2 = Returned tid ->
    ToString tid = Returned id ->
    polled id 30 tp (Returned aid) ->
    truthy aid = true ->
    post_result "rank task" "task_id" rep3 = Returned rid ->
    flow_shape old (Returned module) (Returned tt)
      (old ++ [success sid aid rid])
      (Call session_request rep1 :: Call (artifact_request sid) rep2
         :: tp ++ [Call (rank_request sid aid) rep3]).

(** Every run of the flow has one of these shapes. *)
Lemma flow_run_shape (module_file : Outcome Value) (w w' : World Api)
  (o : Outcome unit) (t : list Event) :
  testStartRankTaskFlow Api serve module_file w = (o, w', t) ->
  flow_shape (results w) module_file o (results w') t.
Proof.
  unfold testStartRankTaskFlow. intros Hrun.
  destruct module_file as [module | e].
  2:{ injection Hrun as <- <- <-. apply shape_no_file. }
  unfold bind at 1, lift at 1, try_catch in Hrun.
  unfold bind at 1, lift at 1 in Hrun.
  destruct (checkParameterTypes module) as [[] | e] eqn:Hcheck.
  2:{ injection Hrun as <- <- <-. apply shape_check, Hcheck. }
  unfold bind at 1 in Hrun. rewrite createSession_run in Hrun.
  destruct (serve (service w) session_request) as [rep1 api1].
  cbn [fst snd] in Hrun.
  destruct (post_result "session" "session_id" rep1) as [sid | e] eqn:H1.
  2:{ injection Hrun as <- <- <-. apply shape_session, H1. }
  unfold bind at 1 in Hrun. rewrite createArtifact_run in Hrun.
  destruct (serve _ (artifact_request sid)) as [rep2 api2].
  cbn [fst snd] in Hrun.
  destruct (post_result "artifact" "task_id" rep2) as [tid | e] eqn:H2.
  2:{ injection Hrun as <- <- <-. apply (shape_artifact _ _ _ _ _ _ H1 H2). }
  destruct (post_result_logged _ _ _ _ H2) as [id Hid].
  unfold bind at 1 in Hrun. rewrite waitForArtifact_run in Hrun.
  pose proof (pollArtifact_polled 30 tid id
                (with_service (with_service w api1) api2) Hid)
    as [Hpolled Hresults].
  destruct (pollArtifact Api serve 30 tid _) as [[po w3] tp].
  unfold outcome, final, trace in Hpolled, Hresults, Hrun.
  cbn [fst snd] in Hpolled, Hresults, Hrun.
  destruct (wait_outcome po) as [aid | e] eqn:Hwait.
  2:{ injection Hrun as <- <- <-. cbn. rewrite Hresults, app_nil_r.
      apply (shape_wait _ _ _ _ _ _ _ _ _ _ H1 H2 Hid Hpolled Hwait). }
  assert (po = Returned aid /\ truthy aid = true) as [-> Htruthy].
  { destruct po as [a | e]; simpl in Hwait; [| discriminate].
    destruct (truthy a) eqn:Ha; [| discriminate].
    destruct (logged a); [| discriminate].
    injection Hwait as <-. split; [reflexivity | exact Ha]. }
  unfold bind at 1 in Hrun. rewrite createRankTask_run in Hrun.
  destruct (serve _ (rank_request sid aid)) as [rep3 api3].
  cbn [fst snd] in Hrun.
  destruct (post_result "rank task" "task_id" rep3) as [rid | e] eqn:H3.
  - injection Hrun as <- <- <-. cbn. rewrite Hresults, ?app_nil_r.
    apply (shape_pass _ _ _ _ _ _ _ _ _ _ _ H1 H2 Hid Hpolled Htruthy H3).
  - injection Hrun as <- <- <-. cbn. rewrite Hresults, ?app_nil_r.
    apply (shape_rank _ _ _ _ _ _ _ _ _ _ _ H1 H2 Hid Hpolled Htruthy H3).
Qed.

Lemma flow_has_shape (module_file : Outcome Value) (w : World Api) :
  flow_shape (results w) module_file
    (outcome (testStartRankTaskFlow Api serve module_file w))
    (results (final (testStartRankTaskFlow Api serve module_file w)))
    (trace (testStartRankTaskFlow Api serve module_file w)).
Proof.
  destruct (testStartRankTaskFlow Api serve module_file w) as [[o w'] t] eqn:Hrun.
  apply flow_run_shape, Hrun.
Qed.

Lemma post_ok_not_acted_on (what field : string) (req : Request) (rep : Reply)
  (v : Value) :
  post_result what field rep = Returned v -> acted_on (Call req rep) = false.
Proof.
  intros H. destruct (post_result_returned _ _ _ _ H) as (st & data & -> & Hst & _).
  simpl. rewrite Hst, andb_false_r. reflexivity.
Qed.

Definition sleeps_1000 (t : list Event) : Prop :=
  Forall (fun e => match e with Sleep ms => ms = 1000 | Call _ _ => True end) t.

Lemma shape_sleeps old mf o rs t : flow_shape old mf o rs t -> sleeps_1000 t.
Proof.
  unfold sleeps_1000.
  destruct 1; repeat first [ apply Forall_cons; split; [exact I |]
                           | apply Forall_app; split
                           | apply Forall_nil; exact I
                           | eapply polled_sleeps; eassumption ].
Qed.

Definition no_leading_sleep (t : list Event) : Prop :=
  match t with
  | Sleep _ :: _ => False
  | _ => True
  end.

Lemma linear_after_post (req : Request) (rep : Reply) (t : list Event) :
  is_status_poll req = false -> no_leading_sleep t ->
  linear_polling t = true -> linear_polling (Call req rep :: t) = true.
Proof.
  intros Hreq Hlead Ht.
  destruct t as [| [req' rep' | ms] t]; [reflexivity | | contradiction].
  change (negb (is_status_poll req && is_status_poll req')
          && linear_polling (Call req' rep' :: t) = true).
  rewrite Hreq, Ht. reflexivity.
Qed.

Lemma polled_no_leading_sleep tid n tp o (rest : list Event) :
  polled tid n tp o -> no_leading_sleep rest -> no_leading_sleep (tp ++ rest).
Proof. destruct 1; intros Hrest; simpl; auto. Qed.

(** The events of a run that got as far as polling are linear. *)
Lemma linear_flow rep1 sid rep2 tid tp o (rest : list Event) :
  polled tid 30 tp o -> starts_clean rest -> linear_polling rest = true ->
  linear_polling (Call session_request rep1 :: Call (artifact_request sid) rep2
                    :: tp ++ rest) = true.
Proof.
  intros Hp Hclean Hrest.
  assert (no_leading_sleep rest) as Hlead.
  { destruct rest as [| [req rep | ms] rest]; simpl in *; auto. }
  apply linear_after_post; [reflexivity | exact I |].
  apply linear_after_post; [reflexivity | |].
  - eapply polled_no_leading_sleep; eassumption.
  - eapply polled_linear; eassumption.
Qed.

Lemma shape_linear old mf o rs t :
  flow_shape old mf o rs t -> linear_polling t = true.
Proof.
  destruct 1; try reflexivity.
  - rewrite <- (app_nil_r tp).
    eapply linear_flow; [eassumption | exact I | reflexivity].
  - eapply linear_flow; [eassumption | reflexivity | reflexivity].
  - eapply linear_flow; [eassumption | reflexivity | reflexivity].
Qed.

(** A status reply that decides nothing, whatever its HTTP status, is
    followed by the delay and then by the same request again; after the
    thirtieth such reply the delay is the last event, and the run records
    the timeout. *)
Lemma shape_repoll old mf o rs t :
  flow_shape old mf o rs t ->
  forall pre req rep post,
    t = pre ++ Call req rep :: post ->
    is_status_poll req = true -> judge rep = Pending ->
    exists post',
      post = Sleep 1000 :: post'
      /\ ((exists rep' post'', post' = Call req rep' :: post'')
          \/ (post' = []
              /\ rs = old ++ [failure "Timeout waiting for artifact"])).
Proof.
  intros Hshape pre req rep post Ht Hreq Hrep.
  assert (Hhead : forall rep1 sid rep2 rest,
             Call session_request rep1 :: Call (artifact_request sid) rep2
               :: rest = pre ++ Call req rep :: post ->
             exists pre', rest = pre' ++ Call req rep :: post).
  { intros rep1 sid rep2 rest Heq.
    destruct pre as [| x [| y pre']].
    - injection Heq as <- _ _. discriminate Hreq.
    - injection Heq as _ <- _ _. discriminate Hreq.
    - injection Heq as _ _ Heq. eauto. }
  destruct Hshape
    as [ e | module e Hc | module rep1 e H1 | module rep1 sid rep2 e H1 H2
       | module rep1 sid rep2 tid id tp po e H1 H2 Hid Hp Hw
       | module rep1 sid rep2 tid id tp aid rep3 e H1 H2 Hid Hp Ha H3
       | module rep1 sid rep2 tid id tp aid rep3 rid H1 H2 Hid Hp Ha H3 ].
  - destruct pre; discriminate.
  - destruct pre; discriminate.
  - destruct pre as [| x pre]; [| destruct pre; discriminate].
    injection Ht as <- _ _. discriminate Hreq.
  - destruct pre as [| x [| y pre]]; [| | destruct pre; discriminate].
    + injection Ht as <- _ _. discriminate Hreq.
    + injection Ht as _ <- _ _. discriminate Hreq.
  - destruct (Hhead _ _ _ _ Ht) as [pre' Htp].
    rewrite <- (app_nil_r tp) in Htp.
    destruct (polled_pending_repolled _ _ _ _ [] Hp (Forall_nil_2 _)
                _ _ _ _ Htp Hreq Hrep)
      as (post' & -> & [Hnext | [-> ->]]).
    + exists post'. auto.
    + exists []. split; [reflexivity |]. right. split; [reflexivity |].
      simpl in Hw. injection Hw as <-. reflexivity.
  - destruct (Hhead _ _ _ _ Ht) as [pre' Htp].
    assert (Hsuffix : no_poll [Call (rank_request sid aid) rep3])
      by (repeat constructor).
    destruct (polled_pending_repolled _ _ _ _ _ Hp Hsuffix
                _ _ _ _ Htp Hreq Hrep)
      as (post' & -> & [Hnext | [_ [= ->]]]); [| discriminate Ha].
    exists post'. auto.
  - destruct (Hhead _ _ _ _ Ht) as [pre' Htp].
    assert (Hsuffix : no_poll [Call (rank_request sid aid) rep3])
      by (repeat constructor).
    destruct (polled_pending_repolled _ _ _ _ _ Hp Hsuffix
                _ _ _ _ Htp Hreq Hrep)
      as (post' & -> & [Hnext | [_ [= ->]]]); [| discriminate Ha].
    exists post'. auto.
Qed.

(** A call the flow acts on as failed is the last event of the run, and the
    run records a failure, with the exception of the call if it was
    rejected. *)
Lemma shape_failure_final old mf o rs t :
  flow_shape old mf o rs t ->
  forall pre x post,
    t = pre ++ x :: post -> acted_on x = true ->
    post = []
    /\ exists e, rs = old ++ [failure e]
                 /\ forall req rep e', x = Call req rep ->
                                       rejection rep = Some e' -> e' = e.
Proof.
  intros Hshape pre x post Ht Hbad.
  destruct Hshape
    as [ e | module e Hc | module rep1 e H1 | module rep1 sid rep2 e H1 H2
       | module rep1 sid rep2 tid id tp po e H1 H2 Hid Hp Hw
       | module rep1 sid rep2 tid id tp aid rep3 e H1 H2 Hid Hp Ha H3
       | module rep1 sid rep2 tid id tp aid rep3 rid H1 H2 Hid Hp Ha H3 ].
  - destruct pre; discriminate.
  - destruct pre; discriminate.
  - destruct (bad_is_last acted_on [] _ (Forall_nil_2 _) _ _ _ Ht Hbad)
      as (-> & _ & ->).
    split; [reflexivity |]. exists e. split; [reflexivity |].
    intros req rep e' [= <- <-] Hrej.
    rewrite (post_result_rejection _ _ _ _ Hrej) in H1. congruence.
  - assert (Forall (fun a => acted_on a = false) [Call session_request rep1])
      as Hinit.
    { repeat constructor. eapply post_ok_not_acted_on, H1. }
    destruct (bad_is_last acted_on _ _ Hinit _ _ _ Ht Hbad) as (-> & _ & ->).
    split; [reflexivity |]. exists e. split; [reflexivity |].
    intros req rep e' [= <- <-] Hrej.
    rewrite (post_result_rejection _ _ _ _ Hrej) in H2. congruence.
  - destruct (polled_clean_or_last _ _ _ _ Hp)
      as [[_ Hclean] | (init & last & e0 & -> & Hclean & -> & Hrej)].
    + exfalso. eapply (none_bad acted_on); [| exact Ht | exact Hbad].
      constructor; [eapply post_ok_not_acted_on, H1 |].
      constructor; [eapply post_ok_not_acted_on, H2 | exact Hclean].
    + simpl in Hw. injection Hw as ->.
      assert (Forall (fun a => acted_on a = false)
                (Call session_request rep1 :: Call (artifact_request sid) rep2
                   :: init)) as Hinit.
      { constructor; [eapply post_ok_not_acted_on, H1 |].
        constructor; [eapply post_ok_not_acted_on, H2 | exact Hclean]. }
      destruct (bad_is_last acted_on _ _ Hinit _ _ _ Ht Hbad) as (-> & _ & ->).
      split; [reflexivity |]. exists e. split; [reflexivity |].
      intros req rep e' [= <- <-]. apply Hrej.
  - assert (Forall (fun a => acted_on a = false)
              (Call session_request rep1 :: Call (artifact_request sid) rep2
                 :: tp)) as Hinit.
    { constructor; [eapply post_ok_not_acted_on, H1 |].
      constructor; [eapply post_ok_not_acted_on, H2 |].
      destruct (polled_clean_or_last _ _ _ _ Hp)
        as [[_ Hclean] | (? & ? & ? & _ & _ & [=] & _)]. exact Hclean. }
    destruct (bad_is_last acted_on _ _ Hinit _ _ _ Ht Hbad) as (-> & _ & ->).
    split; [reflexivity |]. exists e. split; [reflexivity |].
    intros req rep e' [= <- <-] Hrej.
    rewrite (post_result_rejection _ _ _ _ Hrej) in H3. congruence.
  - exfalso. eapply (none_bad acted_on); [| exact Ht | exact Hbad].
    constructor; [eapply post_ok_not_acted_on, H1 |].
    constructor; [eapply post_ok_not_acted_on, H2 |].
    apply Forall_app. split.
    + destruct (polled_clean_or_last _ _ _ _ Hp)
        as [[_ Hclean] | (? & ? & ? & _ & _ & [=] & _)]. exact Hclean.
    + repeat constructor. eapply post_ok_not_acted_on, H3.
Qed.

Lemma full_sequence_no_fetch (n : nat) : FetchResults ∉ full_sequence n.
Proof.
  unfold full_sequence. intros Hin.
  apply elem_of_app in Hin as [Hin | Hin].
  - repeat (apply elem_of_cons in Hin as [Hin | Hin]; [discriminate |]).
    inversion Hin.
  - apply elem_of_app in Hin as [Hin | Hin].
    + apply elem_of_replicate in Hin as [Hin _]. discriminate.
    + apply list_elem_of_singleton in Hin. discriminate.
Qed.

(** The steps of a run, by its shape: a prefix of the full sequence, and the
    whole of it, with a status request, when the run passes or submits the
    rank task. *)
Lemma shape_steps old mf o rs t :
  flow_shape old mf o rs t ->
  exists n, (n <= 30)%nat
    /\ step_of <$> requests t `prefix_of` full_sequence n
    /\ (forall r, rs = old ++ [r] -> passed r = true ->
          step_of <$> requests t = full_sequence n /\ (1 <= n)%nat)
    /\ (CreateRankTask ∈ step_of <$> requests t ->
          step_of <$> requests t = full_sequence n /\ (1 <= n)%nat).
Proof.
  assert (forall e r, old ++ [failure e] = old ++ [r] -> passed r = true -> False)
    as Hfail.
  { intros e r Heq Hpass. apply app_inv_head in Heq. injection Heq as <-.
    discriminate. }
  assert (forall sid aid id k tp rep1 rep2 rep3,
             polled id 30 tp (Returned aid) -> truthy aid = true ->
             requests tp = replicate k (status_request id) ->
             step_of <$> requests
               (Call session_request rep1 :: Call (artifact_request sid) rep2
                  :: tp ++ [Call (rank_request sid aid) rep3])
             = full_sequence k /\ (1 <= k)%nat) as Hfull.
  { intros sid aid id k tp rep1 rep2 rep3 Hp Ha Hreq.
    change (requests (Call session_request rep1
                        :: Call (artifact_request sid) rep2
                        :: tp ++ [Call (rank_request sid aid) rep3]))
      with (session_request :: artifact_request sid
              :: requests (tp ++ [Call (rank_request sid aid) rep3])).
    rewrite requests_app, Hreq. split.
    - unfold full_sequence.
      rewrite !fmap_cons, fmap_app, fmap_replicate, step_status. reflexivity.
    - destruct (polled_returned _ _ _ _ Hp Ha) as (t' & rep & -> & _).
      rewrite requests_app in Hreq. apply (f_equal length) in Hreq.
      rewrite length_app, length_replicate in Hreq. simpl in Hreq. lia. }
  destruct 1
    as [ e | module e Hc | module rep1 e H1 | module rep1 sid rep2 e H1 H2
       | module rep1 sid rep2 tid id tp po e H1 H2 Hid Hp Hw
       | module rep1 sid rep2 tid id tp aid rep3 e H1 H2 Hid Hp Ha H3
       | module rep1 sid rep2 tid id tp aid rep3 rid H1 H2 Hid Hp Ha H3 ].
  - exists 0%nat. split; [lia |]. split; [apply prefix_nil |]. split.
    + intros r Heq. exfalso. apply (f_equal length) in Heq.
      rewrite length_app in Heq. simpl in Heq. lia.
    + intros Hin. inversion Hin.
  - exists 0%nat. split; [lia |]. split; [apply prefix_nil |]. split.
    + intros r Heq Hr. destruct (Hfail _ _ Heq Hr).
    + intros Hin. inversion Hin.
  - exists 0%nat. split; [lia |].
    split; [exists [CreateArtifact; CreateRankTask]; reflexivity |]. split.
    + intros r Heq Hr. destruct (Hfail _ _ Heq Hr).
    + intros Hin. exfalso.
      apply list_elem_of_singleton in Hin. discriminate Hin.
  - exists 0%nat. split; [lia |].
    split; [exists [CreateRankTask]; reflexivity |]. split.
    + intros r Heq Hr. destruct (Hfail _ _ Heq Hr).
    + intros Hin. exfalso.
      apply elem_of_cons in Hin as [Hin | Hin]; [discriminate Hin |].
      apply list_elem_of_singleton in Hin. discriminate Hin.
  - destruct (polled_requests _ _ _ _ Hp) as (k & Hk & Hreq).
    exists k. split; [exact Hk |].
    change (requests (Call session_request rep1
                        :: Call (artifact_request sid) rep2 :: tp))
      with (session_request :: artifact_request sid :: requests tp).
    rewrite Hreq. split; [| split].
    + exists [CreateRankTask]. unfold full_sequence.
      rewrite !fmap_cons, fmap_replicate, step_status. reflexivity.
    + intros r Heq Hr. destruct (Hfail _ _ Heq Hr).
    + intros Hin. exfalso.
      rewrite !fmap_cons, fmap_replicate, step_status in Hin.
      apply elem_of_cons in Hin as [Hin | Hin]; [discriminate Hin |].
      apply elem_of_cons in Hin as [Hin | Hin]; [discriminate Hin |].
      apply elem_of_replicate in Hin as [Hin _]. discriminate Hin.
  - destruct (polled_requests _ _ _ _ Hp) as (k & Hk & Hreq).
    exists k. split; [exact Hk |].
    destruct (Hfull sid aid id k tp rep1 rep2 rep3 Hp Ha Hreq)
      as [Hsteps Hk1].
    split; [rewrite Hsteps; reflexivity |]. split.
    + intros r Heq Hr. destruct (Hfail _ _ Heq Hr).
    + intros _. split; assumption.
  - destruct (polled_requests _ _ _ _ Hp) as (k & Hk & Hreq).
    exists k. split; [exact Hk |].
    destruct (Hfull sid aid id k tp rep1 rep2 rep3 Hp Ha Hreq)
      as [Hsteps Hk1].
    split; [rewrite Hsteps; reflexivity |]. split.
    + intros r _ _. split; assumption.
    + intros _. split; assumption.
Qed.

(** The call that submits the rank task, by the run's shape. *)
Lemma shape_rank_call old mf o rs t :
  flow_shape old mf o rs t ->
  forall req rep, Call req rep ∈ t -> step_of req = CreateRankTask ->
    exists sid aid tid earlier poll_reply,
      t = earlier ++ [Call (status_request tid) poll_reply; Call req rep]
      /\ judge poll_reply = Ready aid
      /\ req = rank_request sid aid.
Proof.
  assert (forall tid n tp po req rep,
            polled tid n tp po -> Call req rep ∈ tp ->
            step_of req = CreateRankTask -> False) as Hpoll.
  { intros tid n tp po req rep Hp Hin Hstep.
    rewrite (polled_calls _ _ _ _ Hp _ _ Hin), step_status in Hstep.
    discriminate. }
  assert (forall sid aid tid n tp rep1 rep2 rep3 req rep,
            polled tid n tp (Returned aid) -> truthy aid = true ->
            Call req rep ∈ Call session_request rep1
              :: Call (artifact_request sid) rep2
              :: tp ++ [Call (rank_request sid aid) rep3] ->
            step_of req = CreateRankTask ->
            exists earlier poll_reply,
              Call session_request rep1 :: Call (artifact_request sid) rep2
                :: tp ++ [Call (rank_request sid aid) rep3]
              = earlier ++ [Call (status_request tid) poll_reply; Call req rep]
              /\ judge poll_reply = Ready aid
              /\ req = rank_request sid aid) as Hlast.
  { intros sid aid tid n tp rep1 rep2 rep3 req rep Hp Ha Hin Hstep.
    apply elem_of_cons in Hin as [[= -> ->] | Hin]; [discriminate |].
    apply elem_of_cons in Hin as [[= -> ->] | Hin]; [discriminate |].
    apply elem_of_app in Hin as [Hin | Hin];
      [destruct (Hpoll _ _ _ _ _ _ Hp Hin Hstep) |].
    apply list_elem_of_singleton in Hin. injection Hin as -> ->.
    destruct (polled_returned _ _ _ _ Hp Ha) as (t' & prep & -> & Hj).
    exists (Call session_request rep1 :: Call (artifact_request sid) rep2 :: t'),
      prep.
    split; [| split; [exact Hj | reflexivity]].
    simpl. rewrite <- app_assoc. reflexivity. }
  destruct 1
    as [ e | module e Hc | module rep1 e H1 | module rep1 sid rep2 e H1 H2
       | module rep1 sid rep2 tid id tp po e H1 H2 Hid Hp Hw
       | module rep1 sid rep2 tid id tp aid rep3 e H1 H2 Hid Hp Ha H3
       | module rep1 sid rep2 tid id tp aid rep3 rid H1 H2 Hid Hp Ha H3 ];
    intros req rep Hin Hstep.
  - inversion Hin.
  - inversion Hin.
  - apply list_elem_of_singleton in Hin. injection Hin as -> ->. discriminate.
  - apply elem_of_cons in Hin as [[= -> ->] | Hin]; [discriminate |].
    apply list_elem_of_singleton in Hin. injection Hin as -> ->. discriminate.
  - apply elem_of_cons in Hin as [[= -> ->] | Hin]; [discriminate |].
    apply elem_of_cons in Hin as [[= -> ->] | Hin]; [discriminate |].
    destruct (Hpoll _ _ _ _ _ _ Hp Hin Hstep).
  - destruct (Hlast _ _ _ _ _ _ _ _ _ _ Hp Ha Hin Hstep) as (earlier & pr & H).
    exists sid, aid, id, earlier, pr. exact H.
  - destruct (Hlast _ _ _ _ _ _ _ _ _ _ Hp Ha Hin Hstep) as (earlier & pr & H).
    exists sid, aid, id, earlier, pr. exact H.
Qed.

(** The calls that submit a task, by the run's shape: the run starts with
    the session call, which returned the session id they carry. *)
Lemma shape_task_calls old mf o rs t :
  flow_shape old mf o rs t ->
  forall req rep,
    Call req rep ∈ t -> method req = POST -> endpoint req = "/tasks" ->
    exists rep1 rest sid,
      t = Call session_request rep1 :: rest
      /\ post_result "session" "session_id" rep1 = Returned sid
      /\ (req = artifact_request sid
          \/ exists aid, req = rank_request sid aid).
Proof.
  assert (forall tid n tp po req rep,
            polled tid n tp po -> Call req rep ∈ tp -> method req = POST ->
            False) as Hpoll.
  { intros tid n tp po req rep Hp Hin Hm.
    rewrite (polled_calls _ _ _ _ Hp _ _ Hin) in Hm. discriminate. }
  destruct 1
    as [ e | module e Hc | module rep1 e H1 | module rep1 sid rep2 e H1 H2
       | module rep1 sid rep2 tid id tp po e H1 H2 Hid Hp Hw
       | module rep1 sid rep2 tid id tp aid rep3 e H1 H2 Hid Hp Ha H3
       | module rep1 sid rep2 tid id tp aid rep3 rid H1 H2 Hid Hp Ha H3 ];
    intros req rep Hin Hm Hep.
  - inversion Hin.
  - inversion Hin.
  - apply list_elem_of_singleton in Hin. injection Hin as -> ->. discriminate.
  - apply elem_of_cons in Hin as [[= -> ->] | Hin]; [discriminate |].
    apply list_elem_of_singleton in Hin. injection Hin as -> ->.
    eexists _, _, _. split; [reflexivity |]. split; [exact H1 | left; reflexivity].
  - apply elem_of_cons in Hin as [[= -> ->] | Hin]; [discriminate |].
    apply elem_of_cons in Hin as [[= -> ->] | Hin].
    + eexists _, _, _. split; [reflexivity |].
      split; [exact H1 | left; reflexivity].
    + destruct (Hpoll _ _ _ _ _ _ Hp Hin Hm).
  - apply elem_of_cons in Hin as [[= -> ->] | Hin]; [discriminate |].
    apply elem_of_cons in Hin as [[= -> ->] | Hin].
    + eexists _, _, _. split; [reflexivity |].
      split; [exact H1 | left; reflexivity].
    + apply elem_of_app in Hin as [Hin | Hin];
        [destruct (Hpoll _ _ _ _ _ _ Hp Hin Hm) |].
      apply list_elem_of_singleton in Hin. injection Hin as -> ->.
      eexists _, _, _. split; [reflexivity |].
      split; [exact H1 | right; eexists; reflexivity].
  - apply elem_of_cons in Hin as [[= -> ->] | Hin]; [discriminate |].
    apply elem_of_cons in Hin as [[= -> ->] | Hin].
    + eexists _, _, _. split; [reflexivity |].
      split; [exact H1 | left; reflexivity].
    + apply elem_of_app in Hin as [Hin | Hin];
        [destruct (Hpoll _ _ _ _ _ _ Hp Hin Hm) |].
      apply list_elem_of_singleton in Hin. injection Hin as -> ->.
      eexists _, _, _. split; [reflexivity |].
      split; [exact H1 | right; eexists; reflexivity].
Qed.

Lemma replies_length (t : list Event) :
  length (replies t) = length (requests t).
Proof. unfold replies, requests. rewrite !length_fmap. reflexivity. Qed.

(** C2, as the code has it.  The poll-status step issues at most 30 status
    requests, all for the same task, whose id is written into the endpoint:
    a task id that has no string form makes the step throw before it
    requests anything.  Every reply but the last left the loop running, so
    the step stops at the first reply that decides: with the artifact id
    when the reply carries a truthy [artifact_id] (whatever its status
    says), or with the exception of writing that id to the log when it has
    no string form; with the error "Artifact creation failed: ..." when the
    reply carries none and its status is [failed]; with the exception of the
    request or of reading its data when there is one.  When the last reply
    decides nothing, it is the 30th, and the step fails with "Timeout waiting
    for artifact". *)
Theorem poll_status_bounded_and_decided (tid : Value) (w : World Api) :
  let run := waitForArtifact Api serve tid w in
  match ToString tid with
  | Thrown e => run = (Thrown e, w, [])
  | Returned id =>
      let reps := replies (trace run) in
      (length reps <= 30)%nat
      /\ requests (trace run) = replicate (length reps) (status_request id)
      /\ exists earlier last,
           reps = earlier ++ [last]
           /\ Forall (fun rep => judge rep = Pending) earlier
           /\ match judge last with
              | Ready artifact_id =>
                  match ToString artifact_id with
                  | Returned _ => outcome run = Returned artifact_id
                  | Thrown e => outcome run = Thrown e
                  end
              | Failed data =>
                  outcome run
                  = Thrown ("Artifact creation failed: "
                            +:+ stringify_text data)
              | Broken e => outcome run = Thrown e
              | Pending =>
                  length reps = 30%nat
                  /\ outcome run = Thrown "Timeout waiting for artifact"
              end
  end.
Proof.
  cbv zeta. rewrite waitForArtifact_run.
  destruct (ToString tid) as [id | e] eqn:Hid.
  2:{ rewrite (pollArtifact_unprintable 29 tid e w Hid). reflexivity. }
  pose proof (pollArtifact_polled 30 tid id w Hid) as [Hp _].
  destruct (pollArtifact Api serve 30 tid w) as [[o w'] t].
  unfold outcome, final, trace in *. cbn [fst snd] in *.
  destruct (polled_requests _ _ _ _ Hp) as (k & Hk & Hreq).
  assert (length (replies t) = k) as Hlen.
  { rewrite replies_length, Hreq. apply length_replicate. }
  rewrite Hlen. split; [exact Hk |]. split; [exact Hreq |].
  destruct (polled_replies _ _ _ _ Hp)
    as [(Hall & Hfull & -> & _) | (earlier & last & Hr & Hall & Hlast & -> & _)].
  - rewrite Hlen in Hfull. subst k.
    destruct (replies t) as [| rep reps] using rev_ind; [discriminate |].
    apply Forall_app in Hall as [Hearlier Hlast].
    exists reps, rep. split; [reflexivity |]. split; [exact Hearlier |].
    inversion Hlast as [| ? ? Hrep _]; subst. rewrite Hrep.
    split; [exact Hfull | reflexivity].
  - exists earlier, last. split; [exact Hr |]. split; [exact Hall |].
    destruct (judge last) as [aid | data | | e] eqn:Hj; simpl.
    + rewrite (judge_ready_truthy _ _ Hj). unfold logged.
      destruct (ToString aid); reflexivity.
    + reflexivity.
    + contradiction.
    + reflexivity.
Qed.

(** C1, as the code has it.  The requests of a run are, in this order and
    with no other request among them: create-session, create-artifact, at
    most 30 status requests, and the submission of the rank task (the flow's
    fifth step; its first, the parameter check, issues no request).  A run
    that fails stops where it fails, so its requests are a prefix of that
    sequence; a run that passes, and any run that submits the rank task,
    issued all of it, with at least one status request.  No run fetches
    results. *)
Theorem flow_steps_in_order (module_file : Outcome Value) (w : World Api) :
  let run := testStartRankTaskFlow Api serve module_file w in
  let steps := step_of <$> requests (trace run) in
  exists n, (n <= 30)%nat
    /\ steps `prefix_of` full_sequence n
    /\ (forall r, results (final run) = results w ++ [r] -> passed r = true ->
          steps = full_sequence n /\ (1 <= n)%nat)
    /\ (CreateRankTask ∈ steps -> steps = full_sequence n /\ (1 <= n)%nat)
    /\ FetchResults ∉ steps.
Proof.
  cbv zeta.
  destruct (shape_steps _ _ _ _ _ (flow_has_shape module_file w))
    as (n & Hn & Hprefix & Hpass & Hrank).
  exists n. split; [exact Hn |]. split; [exact Hprefix |].
  split; [exact Hpass |]. split; [exact Hrank |].
  intros Hin. destruct Hprefix as [rest Hrest].
  apply (full_sequence_no_fetch n). rewrite Hrest.
  apply elem_of_app. left. exact Hin.
Qed.

(** C3, as the code has it.  Every delay of a run is 1000 ms and follows a
    status request, and two status requests are never issued without a delay
    between them.  No request is issued after a request that threw, or after
    a create-session, create-artifact or rank-task request that was answered
    with a status other than 200 and 201: such a call is the last event of
    the run, and the run records a failed test, whose error is the exception
    of the request when it threw.  A status request whose reply decides
    nothing, whatever its HTTP status, is followed by the delay and then
    issued again; after the thirtieth the delay is the last event and the
    run records the timeout. *)
Theorem polling_linear_failures_final (module_file : Outcome Value)
  (w : World Api) :
  let run := testStartRankTaskFlow Api serve module_file w in
  Forall (fun e => match e with Sleep ms => ms = 1000 | Call _ _ => True end)
         (trace run)
  /\ linear_polling (trace run) = true
  /\ (forall pre x post,
        trace run = pre ++ x :: post -> acted_on x = true ->
        post = []
        /\ exists e, results (final run) = results w ++ [failure e]
                     /\ forall req rep e', x = Call req rep ->
                                           rejection rep = Some e' -> e' = e)
  /\ (forall pre req rep post,
        trace run = pre ++ Call req rep :: post ->
        is_status_poll req = true -> judge rep = Pending ->
        exists post',
          post = Sleep 1000 :: post'
          /\ ((exists rep' post'', post' = Call req rep' :: post'')
              \/ (post' = []
                  /\ results (final run)
                     = results w ++ [failure "Timeout waiting for artifact"]))).
Proof.
  cbv zeta. pose proof (flow_has_shape module_file w) as Hshape.
  split; [exact (shape_sleeps _ _ _ _ _ Hshape) |].
  split; [exact (shape_linear _ _ _ _ _ Hshape) |].
  split; [exact (shape_failure_final _ _ _ _ _ Hshape) |].
  exact (shape_repoll _ _ _ _ _ Hshape).
Qed.

(** C4.  The request that submits the rank task is the last event of a run
    and comes right after the status request whose reply carried the artifact
    id; that id is truthy, hence not null, and the request's body has it as
    the only element of [input_artifacts], with [context_artifacts] empty. *)
Theorem rank_task_carries_polled_artifact (module_file : Outcome Value)
  (w : World Api) :
  let run := testStartRankTaskFlow Api serve module_file w in
  forall req rep,
    Call req rep ∈ trace run -> step_of req = CreateRankTask ->
    exists tid earlier status data artifact_id,
      trace run
      = earlier ++ [Call (status_request tid) (Response status (Returned data));
                    Call req rep]
      /\ get_prop data "artifact_id" = Returned artifact_id
      /\ truthy artifact_id = true
      /\ artifact_id <> JNull
      /\ body_path req ["payload"; "input_artifacts"] = JArr [artifact_id]
      /\ body_path req ["payload"; "context_artifacts"] = JArr [].
Proof.
  cbv zeta. intros req rep Hin Hstep.
  destruct (shape_rank_call _ _ _ _ _ (flow_has_shape module_file w)
              req rep Hin Hstep)
    as (sid & aid & tid & earlier & poll_reply & Ht & Hj & ->).
  destruct (judge_ready_data _ _ Hj) as (status & data & -> & Hget).
  pose proof (judge_ready_truthy _ _ Hj) as Htruthy.
  exists tid, earlier, status, data, aid.
  repeat split; try assumption; try reflexivity.
  intros ->. discriminate.
Qed.

Lemma stringify_two_members (k1 k2 : string) (v1 v2 : Value) (t1 t2 : string) :
  JSON_stringify v1 = Some t1 -> JSON_stringify v2 = Some t2 ->
  JSON_stringify (JObj [(k1, v1); (k2, v2)])
  = Some ("{" +:+ (json_quote k1 +:+ ":" +:+ t1) +:+ ","
              +:+ (json_quote k2 +:+ ":" +:+ t2) +:+ "}").
Proof.
  intros H1 H2. cbn [JSON_stringify]. rewrite H1, H2.
  cbn [join]. rewrite !StringFacts.append_assoc. reflexivity.
Qed.

Lemma stringify_undefined_member (k1 k2 : string) (v1 v2 : Value) :
  JSON_stringify v1 = None ->
  JSON_stringify (JObj [(k1, v1); (k2, v2)]) = JSON_stringify (JObj [(k2, v2)]).
Proof. intros H1. cbn [JSON_stringify]. rewrite H1. reflexivity. Qed.

(** C5, as the code has it.  Every POST /tasks request of a run comes after
    the create-session call that opens the run, and the [session_id] property
    of its body is the [session_id] property of the data that call returned,
    never another value.  The flow does not check that there is one: when
    the property is [undefined], what is sent is the JSON text of a body
    without a session id. *)
Theorem task_requests_carry_session_id (module_file : Outcome Value)
  (w : World Api) :
  let run := testStartRankTaskFlow Api serve module_file w in
  forall req rep,
    Call req rep ∈ trace run -> method req = POST -> endpoint req = "/tasks" ->
    exists status data rest sid p,
      trace run = Call session_request (Response status (Returned data)) :: rest
      /\ get_prop data "session_id" = Returned sid
      /\ payload req = Some (JObj [("session_id", sid); ("payload", p)])
      /\ (forall t, JSON_stringify sid = Some t ->
            exists tail,
              fetch_body req
              = Some ("{" +:+ json_quote "session_id" +:+ ":" +:+ t +:+ ","
                          +:+ tail))
      /\ (JSON_stringify sid = None ->
          fetch_body req = JSON_stringify (JObj [("payload", p)])).
Proof.
  cbv zeta. intros req rep Hin Hm Hep.
  destruct (shape_task_calls _ _ _ _ _ (flow_has_shape module_file w)
              req rep Hin Hm Hep)
    as (rep1 & rest & sid & Ht & H1 & Hreq).
  destruct (post_result_returned _ _ _ _ H1) as (status & data & -> & _ & Hget).
  assert (exists p, payload req = Some (JObj [("session_id", sid); ("payload", JObj p)]))
    as [p Hp].
  { destruct Hreq as [-> | [aid ->]]; eexists; reflexivity. }
  exists status, data, rest, sid, (JObj p).
  split; [exact Ht |]. split; [exact Hget |]. split; [exact Hp |].
  unfold fetch_body. rewrite Hp. cbn [truthy].
  assert (exists tp, JSON_stringify (JObj p) = Some tp) as [tp Htp].
  { cbn [JSON_stringify]. eauto. }
  split.
  - intros t Hsid.
    rewrite (stringify_two_members _ _ _ _ _ _ Hsid Htp).
    exists (json_quote "payload" +:+ ":" +:+ tp +:+ "}").
    rewrite !StringFacts.append_assoc. reflexivity.
  - intros Hsid. apply stringify_undefined_member, Hsid.
Qed.

End Runs.

(** ** Runs against particular APIs *)

(** A module definition as the app has them. *)
Definition startRankTask_module : Value :=
  JObj [ ("label", JStr "Start Rank Task"); ("type", JStr "action");
         ("connection", JStr "everyrow-api");
         ("parameters",
          JArr [ JObj [("name", JStr "sessionName"); ("type", JStr "text")];
                 JObj [("name", JStr "inputData"); ("type", JStr "text")] ]) ].

Definition fresh {Api : Type} (api : Api) : World Api :=
  {| service := api; results := [] |}.

(** The part of an API that creates sessions and accepts tasks. *)
Definition accepting (sessionData : Value) (req : Request) : Reply :=
  if String.eqb (endpoint req) "/sessions/create"
  then Response 200 (Returned sessionData)
  else Response 201 (Returned (JObj [("task_id", JStr "task_1")])).

(** An API whose artifact is ready at the third status request; its state
    counts the status requests served. *)
Definition ready_at_third (served : nat) (req : Request) : Reply * nat :=
  match method req with
  | GET =>
      (Response 200
         (Returned
            (if (served <? 2)%nat
             then JObj [("status", JStr "running"); ("artifact_id", JNull)]
             else JObj [("status", JStr "completed");
                        ("artifact_id", JStr "art_1")])),
       S served)
  | _ => (accepting (JObj [("session_id", JStr "sess_1")]) req, served)
  end.

Definition passing_run : Outcome unit * World nat * list Event :=
  testStartRankTaskFlow nat ready_at_third (Returned startRankTask_module)
    (fresh 0%nat).

(** An API that answers every status request with an artifact id and the
    status [failed]. *)
Definition failed_with_artifact (_ : unit) (req : Request) : Reply * unit :=
  match method req with
  | GET =>
      (Response 200
         (Returned (JObj [("status", JStr "failed");
                          ("artifact_id", JStr "art_1")])), tt)
  | _ => (accepting (JObj [("session_id", JStr "sess_1")]) req, tt)
  end.

(** An API whose status endpoint is out of order: every status request gets
    an HTTP 500 with an error body. *)
Definition status_unavailable (_ : unit) (req : Request) : Reply * unit :=
  match method req with
  | GET => (Response 500 (Returned (JObj [("error", JStr "unavailable")])), tt)
  | _ => (accepting (JObj [("session_id", JStr "sess_1")]) req, tt)
  end.

(** An API whose create-session reply carries no session id. *)
Definition no_session_id (_ : unit) (req : Request) : Reply * unit :=
  match method req with
  | GET =>
      (Response 200
         (Returned (JObj [("status", JStr "completed");
                          ("artifact_id", JStr "art_1")])), tt)
  | _ => (accepting (JObj []) req, tt)
  end.

(** C1 as stated does not hold: a run that passes issues create-session,
    create-artifact, three status requests and the rank-task submission,
    which is no sequence that ends by fetching results. *)
Lemma passing_run_fetches_no_results :
  step_of <$> requests (trace passing_run)
  = [CreateSession; CreateArtifact; PollStatus; PollStatus; PollStatus;
     CreateRankTask]
  /\ (passed <$> results (final passing_run)) = [true]
  /\ ~ exists n, step_of <$> requests (trace passing_run) = claimed_sequence n.
Proof.
  assert (step_of <$> requests (trace passing_run)
          = [CreateSession; CreateArtifact; PollStatus; PollStatus; PollStatus;
             CreateRankTask]) as Hsteps by (vm_compute; reflexivity).
  split; [exact Hsteps |]. split; [vm_compute; reflexivity |].
  rewrite Hsteps. intros [n Hn]. unfold claimed_sequence in Hn.
  assert (CreateRankTask ∈ [CreateSession; CreateArtifact] ++
            replicate n PollStatus ++ [FetchResults]) as Hin.
  { rewrite <- Hn. do 5 apply list_elem_of_further. apply list_elem_of_here. }
  apply elem_of_app in Hin as [Hin | Hin].
  - repeat (apply elem_of_cons in Hin as [Hin | Hin]; [discriminate |]).
    inversion Hin.
  - apply elem_of_app in Hin as [Hin | Hin].
    + apply elem_of_replicate in Hin as [Hin _]. discriminate.
    + apply list_elem_of_singleton in Hin. discriminate.
Qed.

(** The passing run issued the whole sequence, with three status requests. *)
Lemma flow_steps_in_order_witness :
  exists n, (1 <= n)%nat
            /\ step_of <$> requests (trace passing_run) = full_sequence n.
Proof.
  destruct (flow_steps_in_order nat ready_at_third
              (Returned startRankTask_module) (fresh 0%nat))
    as (n & _ & _ & Hpass & _).
  exists n.
  destruct (Hpass (success (JStr "sess_1") (JStr "art_1") (JStr "task_1")))
    as [Hsteps Hn]; [vm_compute; reflexivity | reflexivity |].
  split; [exact Hn | exact Hsteps].
Defined.

(** C2 as stated does not hold: the first status reply reports the status
    [failed], and the step does not fail: it returns the artifact id the
    same reply carries. *)
Lemma failed_status_with_artifact_id_is_ready :
  let run := waitForArtifact unit failed_with_artifact (JStr "task_1")
               (fresh tt) in
  exists data,
    replies (trace run) = [Response 200 (Returned data)]
    /\ get_prop data "status" = Returned (JStr "failed")
    /\ outcome run = Returned (JStr "art_1").
Proof. eexists. vm_compute. repeat split. Qed.

(** C3 as stated does not hold: the status request is answered with an HTTP
    500, and is issued again, 30 times in all; the error the run records is
    the timeout. *)
Lemma refused_status_request_is_reissued :
  let run := testStartRankTaskFlow unit status_unavailable
               (Returned startRankTask_module) (fresh tt) in
  let refusal := Response 500 (Returned (JObj [("error", JStr "unavailable")])) in
  refused refusal = true
  /\ drop 2 (calls (trace run))
     = replicate 30 (status_request "task_1", refusal)
  /\ results (final run) = [failure "Timeout waiting for artifact"].
Proof. vm_compute. repeat split. Qed.

(** The rank-task request of the passing run. *)
Lemma rank_task_carries_polled_artifact_witness :
  exists tid earlier status data artifact_id,
    trace passing_run
    = earlier ++ [Call (status_request tid) (Response status (Returned data));
                  Call (rank_request (JStr "sess_1") (JStr "art_1"))
                       (Response 201 (Returned (JObj [("task_id", JStr "task_1")])))]
    /\ get_prop data "artifact_id" = Returned artifact_id
    /\ truthy artifact_id = true
    /\ artifact_id <> JNull
    /\ body_path (rank_request (JStr "sess_1") (JStr "art_1"))
         ["payload"; "input_artifacts"] = JArr [artifact_id]
    /\ body_path (rank_request (JStr "sess_1") (JStr "art_1"))
         ["payload"; "context_artifacts"] = JArr [].
Proof.
  apply (rank_task_carries_polled_artifact nat ready_at_third
           (Returned startRankTask_module) (fresh 0%nat)).
  - vm_compute.
    repeat first [apply list_elem_of_here | apply list_elem_of_further].
  - reflexivity.
Defined.

(** C5 as stated does not hold: the create-session reply carries no session
    id, and the tasks are submitted all the same, with the JSON text of a
    body that has no session id. *)
Lemma task_submitted_without_session_id :
  let run := testStartRankTaskFlow unit no_session_id
               (Returned startRankTask_module) (fresh tt) in
  exists req rep rest p,
    calls (trace run)
    = (session_request, Response 200 (Returned (JObj []))) :: (req, rep) :: rest
    /\ method req = POST /\ endpoint req = "/tasks"
    /\ payload req = Some (JObj [("session_id", JUndef); ("payload", p)])
    /\ fetch_body req = JSON_stringify (JObj [("payload", p)]).
Proof. eexists _, _, _, _. vm_compute. repeat split. Qed.

(** The create-artifact request of the passing run. *)
Lemma task_requests_carry_session_id_witness :
  exists status data rest sid p,
    trace passing_run
    = Call session_request (Response status (Returned data)) :: rest
    /\ get_prop data "session_id" = Returned sid
    /\ payload (artifact_request (JStr "sess_1"))
       = Some (JObj [("session_id", sid); ("payload", p)])
    /\ (forall t, JSON_stringify sid = Some t ->
          exists tail,
            fetch_body (artifact_request (JStr "sess_1"))
            = Some ("{" +:+ json_quote "session_id" +:+ ":" +:+ t +:+ ","
                        +:+ tail))
    /\ (JSON_stringify sid = None ->
        fetch_body (artifact_request (JStr "sess_1"))
        = JSON_stringify (JObj [("payload", p)])).
Proof.
  apply (task_requests_carry_session_id nat ready_at_third
           (Returned startRankTask_module) (fresh 0%nat)
           (artifact_request (JStr "sess_1"))
           (Response 201 (Returned (JObj [("task_id", JStr "task_1")])))).
  - vm_compute. apply list_elem_of_further, list_elem_of_here.
  - reflexivity.
  - reflexivity.
Defined.

(** An API that cannot be reached: [fetch] rejects. *)
Definition unreachable (_ : unit) (req : Request) : Reply * unit :=
  (FetchFail "fetch failed", tt).

(** The create-session request throws: it is the only event of the run,
    and the run records its exception. *)
Lemma polling_linear_failures_final_witness :
  exists e,
    results (final (testStartRankTaskFlow unit unreachable
                      (Returned startRankTask_module) (fresh tt)))
    = [failure e]
    /\ e = "fetch failed".
Proof.
  destruct (polling_linear_failures_final unit unreachable
              (Returned startRankTask_module) (fresh tt))
    as (_ & _ & Hfinal & _).
  destruct (Hfinal [] (Call session_request (FetchFail "fetch failed")) []
              eq_refl eq_refl) as (_ & e & Hresults & He).
  exists e. split; [exact Hresults |].
  symmetry. apply (He session_request (FetchFail "fetch failed"));
    reflexivity.
Defined.

End FlowFacts.

(* ===================================================================== *)
(** * Properties: the deploy scripts *)
(* ===================================================================== *)

Module DeployFacts.
Import MakeApi EffFacts.

(** The categories of requests, in the order the scripts deploy them. *)
Inductive Category : Type := Base | Common | Connections | Modules | Rpcs.

Definition category (e : Endpoint) : Category :=
  match e with
  | EBase => Base
  | ECommon => Common
  | EConnections | EConnectionPart _ _ => Connections
  | EModules | EModulePart _ _ => Modules
  | ERpcs | ERpcPart _ _ => Rpcs
  end.

Definition position (c : Category) : nat :=
  match c with
  | Base => 0
  | Common => 1
  | Connections => 2
  | Modules => 3
  | Rpcs => 4
  end.

(** The place of an event's request in the order of categories. *)
Definition rank (ev : Event) : nat := position (category (endpoint ev.1)).

(** The files a loop of [main] goes through. *)
Definition files_of (dir : Directory) : list (string * Outcome string) :=
  match dir with
  | Listed entries => imljson_files entries
  | Unlistable _ | Absent => []
  end.

(** A result as the deploy functions build them: a success without an
    error, or a failure with its error message. *)
Definition well_formed (r : DeployResult) : Prop :=
  (success r = true /\ error r = None)
  \/ (success r = false /\ exists e, error r = Some e).

(** [v == null]: [null] or [undefined]. *)
Definition nullish (v : Value) : bool := is_undefined v || is_null v.

(** The label [deployConnection] of the current script deploys a
    configuration under: [config.label || localName]. *)
Definition label_of (localName : string) (config : Value) : Value :=
  js_or (match get_prop config "label" with
         | Returned configured => configured
         | Thrown _ => JUndef
         end) (JStr localName).

(** A value that has a string form. *)
Definition printable (v : Value) : Prop :=
  exists text, ToString v = Returned text.

Lemma get_prop_returns (config : Value) (k : string) :
  nullish config = false -> exists v, get_prop config k = Returned v.
Proof. destruct config; try discriminate; cbn; eauto. Qed.

Lemma get_prop_nullish (config : Value) (k : string) (v : Value) :
  get_prop config k = Returned v -> nullish config = false.
Proof. destruct config; try discriminate; reflexivity. Qed.

Lemma get_prop_thrown (config : Value) (k : string) :
  nullish config = true -> exists e, get_prop config k = Thrown e.
Proof. destruct config; try discriminate; cbn; eauto. Qed.

(** Steps through a computation, one rule per construct. *)
Ltac step_through rule_bind rule_try rule_leaf :=
  repeat first
    [ progress cbv zeta
    | apply rule_bind; [| intros ?]
    | apply rule_try; [| intros ?]
    | rule_leaf
    | match goal with
      | |- context [if ?b then _ else _] => destruct b
      end ].

Lemma appends_bind_lift {W E L A B} (log : W -> list L) (expected : list L)
  (o : Outcome A) (k : A -> M W E B) :
  (forall a, o = Returned a -> appends log expected (k a)) ->
  appends log expected (bind (lift o) k).
Proof.
  intros Hk w. destruct o as [a | e].
  - destruct (Hk a eq_refl w) as (added & Hlog & Hpre & Hall).
    exists added. rewrite (bind_returned _ _ w w a [] eq_refl).
    unfold outcome, final in *. cbn [fst snd] in *. auto.
  - exists []. rewrite (bind_thrown _ _ w w e [] eq_refl).
    unfold outcome, final. cbn [fst snd]. rewrite app_nil_r.
    split; [reflexivity |]. split; [apply prefix_nil | discriminate].
Qed.

(** What a deploy function's [try] ... [catch] makes of its body: the
    body's result, or a failure that carries the body's exception. *)
Lemma guarded_result {W E} (c : string) (m : M W E DeployResult)
  (fail : string -> DeployResult) (w : W) :
  ends (fun o _ => forall r, o = Returned r ->
                             success r = true /\ error r = None
                             /\ component r = c) m ->
  (forall e, success (fail e) = false /\ error (fail e) = Some e
             /\ component (fail e) = c) ->
  exists r,
    outcome (try_catch m (fun e => ret (fail e)) w) = Returned r
    /\ well_formed r /\ component r = c.
Proof.
  intros Hm Hfail.
  destruct (try_catch_returns m fail w) as [(r & Hr & ->) | (e & He & ->)].
  - destruct (Hm w r Hr) as (Hs & He & Hc). exists r.
    split; [reflexivity |]. split; [left; auto | exact Hc].
  - destruct (Hfail e) as (Hs & Herr & Hc). exists (fail e).
    split; [reflexivity |]. split; [right; eauto | exact Hc].
Qed.

(** The same, for a handler that is more than a [return]. *)
Lemma handled_result {W E} (c : string) (m : M W E DeployResult)
  (h : string -> M W E DeployResult) (w : W) :
  ends (fun o _ => forall r, o = Returned r ->
                             success r = true /\ error r = None
                             /\ component r = c) m ->
  (forall e, succeeds (fun r => success r = false /\ error r = Some e
                                /\ component r = c) (h e)) ->
  exists r,
    outcome (try_catch m h w) = Returned r
    /\ well_formed r /\ component r = c.
Proof.
  intros Hm Hh. specialize (Hm w).
  destruct (m w) as [[[r | e] w1] t1] eqn:Hrun.
  - rewrite (try_returned _ _ _ _ _ _ Hrun).
    destruct (Hm r eq_refl) as (Hs & He & Hc). exists r.
    split; [reflexivity |]. split; [left; auto | exact Hc].
  - rewrite (try_thrown _ _ _ _ _ _ Hrun). unfold outcome at 1.
    cbn [fst snd]. destruct (Hh e w1) as (r & Hr & Hs & Herr & Hc).
    exists r. split; [exact Hr |]. split; [right; eauto | exact Hc].
Qed.

Lemma ends_lift_returned {W E A B} (Q : Outcome B -> W -> Prop) (a : A)
  (k : A -> M W E B) :
  ends Q (k a) -> ends Q (bind (lift (Returned a)) k).
Proof.
  intros Hk w. specialize (Hk w). unfold bind, lift, outcome, final in *.
  destruct (k a w) as [[o w'] t]. exact Hk.
Qed.

(** The body of a deploy function ends, when it returns, with the success
    it builds last. *)
Ltac ends_tac :=
  repeat first
    [ progress cbv zeta
    | apply ends_bind; [discriminate | intros ?] ];
  intros ? ? [= <-]; repeat split.

Lemma bind_modify {W E A} (f : W -> W) (k : unit -> M W E A) (w : W) :
  bind (modify f) k w = k tt (f w).
Proof.
  unfold bind, modify. destruct (k tt (f w)) as [[o w'] t]. reflexivity.
Qed.

Lemma keeps_fmap {W E A B C} (f : W -> B) (g : B -> C) (m : M W E A) :
  keeps f m -> keeps (fun w => g (f w)) m.
Proof. intros Hm w. rewrite Hm. reflexivity. Qed.

(** A function that returns a result naming [c] and leaves the log alone,
    followed by the push of its result, adds [c] to the log. *)
Lemma appends_call_push {W E B} (log : W -> list string) (c : string)
  (rest : list string) (call : M W E DeployResult)
  (push : DeployResult -> M W E unit) (k : M W E B) :
  (forall w r, outcome (call w) = Returned r -> component r = c) ->
  keeps log call ->
  (forall r, appends log [component r] (push r)) ->
  appends log rest k ->
  appends log (c :: rest) (bind call (fun r => bind (push r) (fun _ => k))).
Proof.
  intros Hc Hcall Hpush Hk.
  apply (appends_bind log [] (c :: rest) (fun r => component r = c));
    [exact Hc | apply appends_keeps, Hcall |].
  intros r <-.
  apply (appends_bind log [component r] rest (fun _ => True));
    [auto | apply Hpush | intros _ _; exact Hk].
Qed.







Module ForDeploy.
Import Deploy.

Section Script.

Variable JSON_parse : string -> Outcome Value.
Variable Api : Type.
Variable serve : Api -> Request -> Reply * Api.
Variable app : AppDir.



Lemma makeRequest_emits (c : nat) (m : Method) (ep : Endpoint)
  (d : RequestData) (ct : string) :
  position (category ep) = c ->
  emits (fun ev => rank ev = c) (makeRequest JSON_parse Api serve m ep d ct).
Proof.
  intros Hc w. unfold Deploy.makeRequest, trace.
  destruct (serve _ _) as [rep api']. 
  destruct rep as [e | status text]; [| destruct (negb (ok status))];
    repeat constructor; exact Hc.
Qed.

Lemma makeRequest_keeps_results (m : Method) (ep : Endpoint)
  (d : RequestData) (ct : string) :
  keeps results (makeRequest JSON_parse Api serve m ep d ct).
Proof.
  intros w. unfold Deploy.makeRequest, final.
  destruct (serve _ _) as [rep api'].
  destruct rep as [e | status text]; [| destruct (negb (ok status))];
    reflexivity.
Qed.

Ltac emits_leaf :=
  first [ apply emits_ret | apply emits_throw | apply emits_lift
        | apply emits_modify | apply emits_read
        | apply makeRequest_emits; reflexivity ].

Ltac emits_tac := step_through @emits_bind @emits_try emits_leaf.

Ltac keeps_leaf :=
  first [ apply keeps_ret | apply keeps_throw | apply keeps_lift
        | apply keeps_read | apply makeRequest_keeps_results ].

Ltac keeps_tac := step_through @keeps_bind @keeps_try keeps_leaf.

(** *** Which requests each function issues *)

Lemma deployBase_emits :
  emits (fun ev => rank ev = 0%nat) (deployBase JSON_parse Api serve app).
Proof. unfold deployBase. emits_tac. Qed.

Lemma deployCommon_emits :
  emits (fun ev => rank ev = 1%nat) (deployCommon JSON_parse Api serve app).
Proof. unfold deployCommon. emits_tac. Qed.

Lemma getExistingConnections_emits :
  emits (fun ev => rank ev = 2%nat) (getExistingConnections JSON_parse Api serve).
Proof. unfold getExistingConnections, getExisting. emits_tac. Qed.

Lemma deployConnection_emits (localName : string) (config : Value) :
  emits (fun ev => rank ev = 2%nat)
        (deployConnection JSON_parse Api serve localName config).
Proof.
  unfold deployConnection. emits_tac; apply getExistingConnections_emits.
Qed.

Lemma deployPart_emits (c : nat) (config : Value) (field : string)
  (ep : Endpoint) (ct : string) :
  position (category ep) = c ->
  emits (fun ev => rank ev = c) (deployPart JSON_parse Api serve config field ep ct).
Proof.
  intros Hc. unfold deployPart. emits_tac. apply makeRequest_emits, Hc.
Qed.

Lemma deployModule_emits (localName : string) (config : Value) (connMap : JsMap) :
  emits (fun ev => rank ev = 3%nat)
        (deployModule JSON_parse Api serve localName config connMap).
Proof.
  unfold deployModule, getExistingModules, getExisting.
  emits_tac; apply deployPart_emits; reflexivity.
Qed.

Lemma deployRpc_emits (localName : string) (config : Value) (connMap : JsMap) :
  emits (fun ev => rank ev = 4%nat)
        (deployRpc JSON_parse Api serve localName config connMap).
Proof.
  unfold deployRpc, getExistingRpcs, getExisting.
  emits_tac; apply deployPart_emits; reflexivity.
Qed.

Lemma push_result_emits P (r : DeployResult) : emits P (push_result Api r).
Proof. apply emits_modify. Qed.

Lemma deployConnections_emits (files : list (string * Outcome string)) :
  emits (fun ev => rank ev = 2%nat) (deployConnections JSON_parse Api serve files).
Proof.
  induction files as [| [file content] files IH]; simpl.
  - apply emits_ret.
  - emits_tac; first [apply deployConnection_emits | apply push_result_emits
                     | exact IH].
Qed.

Lemma deployModules_emits (files : list (string * Outcome string)) :
  emits (fun ev => rank ev = 3%nat) (deployModules JSON_parse Api serve files).
Proof.
  induction files as [| [file content] files IH]; simpl.
  - apply emits_ret.
  - emits_tac; first [apply deployModule_emits | apply push_result_emits
                     | exact IH].
Qed.

Lemma deployRpcs_emits (files : list (string * Outcome string)) :
  emits (fun ev => rank ev = 4%nat) (deployRpcs JSON_parse Api serve files).
Proof.
  induction files as [| [file content] files IH]; simpl.
  - apply emits_ret.
  - emits_tac; first [apply deployRpc_emits | apply push_result_emits
                     | exact IH].
Qed.

Lemma in_directory_emits P (dir : Directory)
  (loop : list (string * Outcome string) -> Script Api unit) :
  (forall files, emits P (loop files)) -> emits P (in_directory Api dir loop).
Proof.
  intros Hloop. destruct dir as [| e | entries]; simpl;
    [apply emits_ret | apply emits_throw | apply Hloop].
Qed.

(** The requests of [main] come in the order of the categories. *)
Lemma main_ordered : ordered rank 0 4 (main JSON_parse Api serve app).
Proof.
  unfold main.
  apply (ordered_bind rank 0 0 4); [lia | apply ordered_silent; reflexivity |].
  intros _.
  apply (ordered_bind rank 0 0 4);
    [lia | apply ordered_emits, deployBase_emits |]. intros base.
  apply (ordered_bind rank 0 0 4); [lia | apply ordered_silent; reflexivity |].
  intros _.
  apply (ordered_bind rank 0 1 4);
    [lia | eapply ordered_weaken;
           [apply ordered_emits, deployCommon_emits | lia | lia] |].
  intros common.
  apply (ordered_bind rank 1 1 4); [lia | apply ordered_silent; reflexivity |].
  intros _.
  apply (ordered_bind rank 1 2 4);
    [lia | eapply ordered_weaken;
           [apply ordered_emits, in_directory_emits, deployConnections_emits
           | lia | lia] |].
  intros _.
  apply (ordered_bind rank 2 2 4);
    [lia | apply ordered_emits, getExistingConnections_emits |].
  intros refreshed.
  apply (ordered_bind rank 2 2 4); [lia | apply ordered_silent; reflexivity |].
  intros _.
  apply (ordered_bind rank 2 2 4); [lia | apply ordered_silent; reflexivity |].
  intros _.
  apply (ordered_bind rank 2 3 4);
    [lia | eapply ordered_weaken;
           [apply ordered_emits, in_directory_emits, deployModules_emits
           | lia | lia] |].
  intros _.
  apply (ordered_bind rank 3 4 4);
    [lia | eapply ordered_weaken;
           [apply ordered_emits, in_directory_emits, deployRpcs_emits
           | lia | lia] |].
  intros _.
  apply ordered_silent. intros w. unfold bind, read. simpl.
  match goal with |- context [if ?b then _ else _] => destruct b end;
    reflexivity.
Qed.

(** *** What each function returns *)

Lemma deployBase_result (w : World Api) :
  exists r,
    outcome (deployBase JSON_parse Api serve app w) = Returned r
    /\ well_formed r /\ component r = "base".
Proof.
  unfold deployBase.
  apply guarded_result.
  - ends_tac.
  - intros e. repeat split.
Qed.

Lemma deployCommon_result (w : World Api) :
  exists r,
    outcome (deployCommon JSON_parse Api serve app w) = Returned r
    /\ well_formed r /\ component r = "common".
Proof.
  unfold deployCommon.
  apply guarded_result.
  - ends_tac.
  - intros e. repeat split.
Qed.

(** The component a connection is reported as: its label, in its string
    form. *)
Definition connection_name (localName : string) (config : Value) : string :=
  match ToString (label_of localName config) with
  | Returned text => "connection:" +:+ text
  | Thrown _ => ""
  end.

Lemma deployConnection_result (localName : string) (config : Value)
  (w : World Api) :
  nullish config = false -> printable (label_of localName config) ->
  exists r,
    outcome (deployConnection JSON_parse Api serve localName config w)
    = Returned r
    /\ well_formed r /\ component r = connection_name localName config.
Proof.
  intros Hconfig [text Htext]. unfold deployConnection, connection_name.
  unfold label_of in *. 
  destruct (get_prop config "label") as [label | e] eqn:Hlabel.
  2:{ destruct config; simpl in *; discriminate. }
  rewrite (bind_returned _ _ w w label [] eq_refl).
  unfold outcome at 1. cbn [fst snd]. cbv zeta. rewrite Htext.
  apply handled_result.
  - apply ends_bind; [discriminate | intros existing].
    apply ends_bind; [discriminate | intros _].
    apply ends_lift_returned. intros w' r [= <-]. repeat split.
  - intros e w'. eexists. split; [reflexivity |]. repeat split.
Qed.

(** A configuration that is [null] or [undefined], or whose label has no
    string form, makes [deployConnection] throw. *)
Lemma deployConnection_rejects (localName : string) (config : Value) :
  nullish config = true
  \/ (exists e, ToString (label_of localName config) = Thrown e) ->
  throws (deployConnection JSON_parse Api serve localName config).
Proof.
  intros [Hconfig | [e He]]; unfold deployConnection.
  - destruct (get_prop_thrown config "label" Hconfig) as [e ->].
    apply throws_first, throws_lift.
  - unfold label_of in He.
    destruct (get_prop config "label") as [label | e'];
      [| apply throws_first, throws_lift].
    apply throws_after_lift. intros label' [= <-]. cbv zeta. rewrite He.
    apply throws_try.
    + do 2 (apply throws_later; intros ?). apply throws_first, throws_lift.
    + intros e'. apply throws_first, throws_lift.
Qed.

(** Whatever the configuration, a result that [deployConnection] returns
    names the connection. *)
Lemma deployConnection_component (localName : string) (config : Value)
  (w : World Api) (r : DeployResult) :
  outcome (deployConnection JSON_parse Api serve localName config w)
  = Returned r ->
  component r = connection_name localName config.
Proof.
  intros Hr. destruct (nullish config) eqn:Hconfig.
  - destruct (deployConnection_rejects localName config (or_introl Hconfig) w)
      as [e He]. congruence.
  - destruct (ToString (label_of localName config)) as [text | e] eqn:Htext.
    + destruct (deployConnection_result localName config w Hconfig)
        as (r' & Hr' & _ & Hc); [exists text; exact Htext |]. congruence.
    + destruct (deployConnection_rejects localName config
                  (or_intror (ex_intro _ e Htext)) w) as [e' He']. congruence.
Qed.

Lemma deployModule_result (localName : string) (config : Value)
  (connMap : JsMap) (w : World Api) :
  exists r,
    outcome (deployModule JSON_parse Api serve localName config connMap w)
    = Returned r
    /\ well_formed r /\ component r = "module:" +:+ localName.
Proof.
  unfold deployModule.
  apply guarded_result.
  - ends_tac.
  - intros e. repeat split.
Qed.

Lemma deployRpc_result (localName : string) (config : Value)
  (connMap : JsMap) (w : World Api) :
  exists r,
    outcome (deployRpc JSON_parse Api serve localName config connMap w)
    = Returned r
    /\ well_formed r /\ component r = "rpc:" +:+ localName.
Proof.
  unfold deployRpc.
  apply guarded_result.
  - ends_tac.
  - intros e. repeat split.
Qed.

(** *** What is pushed to [results], and in which order *)

Lemma getExistingConnections_keeps_results :
  keeps results (getExistingConnections JSON_parse Api serve).
Proof. unfold getExistingConnections, getExisting. keeps_tac. Qed.

Lemma deployBase_keeps_results :
  keeps results (deployBase JSON_parse Api serve app).
Proof. unfold deployBase. keeps_tac. Qed.

Lemma deployCommon_keeps_results :
  keeps results (deployCommon JSON_parse Api serve app).
Proof. unfold deployCommon. keeps_tac. Qed.

Lemma deployConnection_keeps_results (localName : string) (config : Value) :
  keeps results (deployConnection JSON_parse Api serve localName config).
Proof.
  unfold deployConnection. keeps_tac; apply getExistingConnections_keeps_results.
Qed.

Lemma deployPart_keeps_results (config : Value) (field : string)
  (ep : Endpoint) (ct : string) :
  keeps results (deployPart JSON_parse Api serve config field ep ct).
Proof. unfold deployPart. keeps_tac. Qed.

Lemma deployModule_keeps_results (localName : string) (config : Value)
  (connMap : JsMap) :
  keeps results (deployModule JSON_parse Api serve localName config connMap).
Proof.
  unfold deployModule, getExistingModules, getExisting.
  keeps_tac; apply deployPart_keeps_results.
Qed.

Lemma deployRpc_keeps_results (localName : string) (config : Value)
  (connMap : JsMap) :
  keeps results (deployRpc JSON_parse Api serve localName config connMap).
Proof.
  unfold deployRpc, getExistingRpcs, getExisting.
  keeps_tac; apply deployPart_keeps_results.
Qed.

(** The components of the results accumulated so far. *)
Definition log (w : World Api) : list string := component <$> results w.

Lemma push_result_appends (r : DeployResult) :
  appends log [component r] (push_result Api r).
Proof.
  intros w. exists [component r]. unfold log. simpl. rewrite fmap_app.
  split; [reflexivity |]. split; [reflexivity | auto].
Qed.

(** The name [main] gives the result of a file of [dir]. *)
Definition connection_component (entry : string * Outcome string) : string :=
  match readJsonFile JSON_parse entry.2 with
  | Returned config => connection_name (local_name entry.1) config
  | Thrown _ => ""
  end.

Definition module_component (entry : string * Outcome string) : string :=
  "module:" +:+ local_name entry.1.

Definition rpc_component (entry : string * Outcome string) : string :=
  "rpc:" +:+ local_name entry.1.

Lemma deployConnections_appends (files : list (string * Outcome string)) :
  appends log (connection_component <$> files)
          (deployConnections JSON_parse Api serve files).
Proof.
  induction files as [| [file content] files IH]; simpl.
  - apply appends_keeps, keeps_ret.
  - apply appends_bind_lift. intros config Hconfig.
    unfold connection_component at 1. simpl. rewrite Hconfig.
    apply appends_call_push.
    + intros w r. apply deployConnection_component.
    + apply (keeps_fmap results), deployConnection_keeps_results.
    + apply push_result_appends.
    + exact IH.
Qed.

Lemma deployModules_appends (files : list (string * Outcome string)) :
  appends log (module_component <$> files)
          (deployModules JSON_parse Api serve files).
Proof.
  induction files as [| [file content] files IH]; simpl.
  - apply appends_keeps, keeps_ret.
  - apply appends_bind_lift. intros config Hconfig.
    apply (appends_bind log [] _ (fun _ => True));
      [auto | apply appends_keeps, keeps_read |]. intros connMap _.
    apply appends_call_push.
    + intros w r Hr.
      destruct (deployModule_result (local_name file) config connMap w)
        as (r' & Hr' & _ & Hc). unfold module_component. cbn [fst]. congruence.
    + apply (keeps_fmap results), deployModule_keeps_results.
    + apply push_result_appends.
    + exact IH.
Qed.

Lemma deployRpcs_appends (files : list (string * Outcome string)) :
  appends log (rpc_component <$> files)
          (deployRpcs JSON_parse Api serve files).
Proof.
  induction files as [| [file content] files IH]; simpl.
  - apply appends_keeps, keeps_ret.
  - apply appends_bind_lift. intros config Hconfig.
    apply (appends_bind log [] _ (fun _ => True));
      [auto | apply appends_keeps, keeps_read |]. intros connMap _.
    apply appends_call_push.
    + intros w r Hr.
      destruct (deployRpc_result (local_name file) config connMap w)
        as (r' & Hr' & _ & Hc). unfold rpc_component. cbn [fst]. congruence.
    + apply (keeps_fmap results), deployRpc_keeps_results.
    + apply push_result_appends.
    + exact IH.
Qed.

Lemma in_directory_appends (dir : Directory)
  (name : string * Outcome string -> string)
  (loop : list (string * Outcome string) -> Script Api unit) :
  (forall files, appends log (name <$> files) (loop files)) ->
  appends log (name <$> files_of dir) (in_directory Api dir loop).
Proof.
  intros Hloop. destruct dir as [| e | entries]; simpl;
    [apply appends_keeps, keeps_ret | apply appends_thrown | apply Hloop].
Qed.

(** The components [main] reports, in order, when nothing stops it. *)
Definition components : list string :=
  ["base"; "common"]
  ++ (connection_component <$> files_of (connections app))
  ++ (module_component <$> files_of (modules app))
  ++ (rpc_component <$> files_of (rpcs app)).

(** [main] after it has emptied [results]. *)
Lemma main_appends (w : World Api) :
  let run := main JSON_parse Api serve app w in
  component <$> results (final run) `prefix_of` components
  /\ forall e, outcome run = Returned e ->
                component <$> results (final run) = components.
Proof.
  intros run. subst run. unfold main.
  rewrite bind_modify.
  match goal with |- context [final (?m ?w0)] =>
    assert (Happ : appends log components m); [| destruct (Happ w0)
      as (added & Hlog & Hpre & Hall)]
  end.
  2:{ unfold log in Hlog. cbn [results] in Hlog. rewrite Hlog.
      split; [exact Hpre |]. intros e He. exact (Hall e He). }
  unfold components.
  change (["base"; "common"] ++ ?l) with ("base" :: ("common" :: l)).
  apply appends_call_push;
    [ intros w1 r Hr; destruct (deployBase_result w1) as (r' & Hr' & _ & Hc);
      congruence
    | apply (keeps_fmap results), deployBase_keeps_results
    | apply push_result_appends |].
  apply appends_call_push;
    [ intros w1 r Hr; destruct (deployCommon_result w1) as (r' & Hr' & _ & Hc);
      congruence
    | apply (keeps_fmap results), deployCommon_keeps_results
    | apply push_result_appends |].
  apply (appends_bind log _ _ (fun _ => True));
    [auto | apply in_directory_appends, deployConnections_appends |].
  intros _ _.
  apply (appends_bind log [] _ (fun _ => True));
    [ auto
    | apply appends_keeps, (keeps_fmap results),
        getExistingConnections_keeps_results |].
  intros refreshed _.
  apply (appends_bind log [] _ (fun _ => True));
    [auto | apply appends_keeps; intros w1; reflexivity |].
  intros _ _.
  apply (appends_bind log [] _ (fun _ => True));
    [auto | apply appends_keeps, keeps_lift |].
  intros _ _.
  apply (appends_bind log _ _ (fun _ => True));
    [auto | apply in_directory_appends, deployModules_appends |].
  intros _ _.
  rewrite <- (app_nil_r (rpc_component <$> _)).
  apply (appends_bind log _ _ (fun _ => True));
    [auto | apply in_directory_appends, deployRpcs_appends |].
  intros _ _. apply appends_keeps. intros w1. unfold bind, read. simpl.
  match goal with |- context [if ?b then _ else _] => destruct b end;
    reflexivity.
Qed.

(** *** How [main] ends *)


End Script.
End ForDeploy.
Module ForPrev.
Import DeployPrev.

Section Script.

Variable JSON_parse : string -> Outcome Value.
Variable Api : Type.
Variable serve : Api -> Request -> Reply * Api.
Variable app : AppDir.

Lemma makeRequest_emits_prev (c : nat) (m : Method) (ep : Endpoint)
  (d : RequestData) (ct : string) :
  position (category ep) = c ->
  emits (fun ev => rank ev = c) (makeRequest JSON_parse Api serve m ep d ct).
Proof.
  intros Hc w. unfold DeployPrev.makeRequest, trace.
  destruct (serve _ _) as [rep api'].
  destruct rep as [e | status text]; [| destruct (negb (ok status))];
    repeat constructor; exact Hc.
Qed.

Lemma makeRequest_keeps_results_prev (m : Method) (ep : Endpoint)
  (d : RequestData) (ct : string) :
  keeps results (makeRequest JSON_parse Api serve m ep d ct).
Proof.
  intros w. unfold DeployPrev.makeRequest, final.
  destruct (serve _ _) as [rep api'].
  destruct rep as [e | status text]; [| destruct (negb (ok status))];
    reflexivity.
Qed.

Ltac emits_leaf :=
  first [ apply emits_ret | apply emits_throw | apply emits_lift
        | apply emits_modify | apply emits_read
        | apply makeRequest_emits_prev; reflexivity ].

Ltac emits_tac := step_through @emits_bind @emits_try emits_leaf.

Ltac keeps_leaf :=
  first [ apply keeps_ret | apply keeps_throw | apply keeps_lift
        | apply keeps_read | apply makeRequest_keeps_results_prev ].

Ltac keeps_tac := step_through @keeps_bind @keeps_try keeps_leaf.

(** *** Which requests each function issues *)

Lemma deployBase_emits_prev :
  emits (fun ev => rank ev = 0%nat) (deployBase JSON_parse Api serve app).
Proof. unfold deployBase. emits_tac. Qed.

Lemma deployCommon_emits_prev :
  emits (fun ev => rank ev = 1%nat) (deployCommon JSON_parse Api serve app).
Proof. unfold deployCommon. emits_tac. Qed.

Lemma deployPart_emits_prev (c : nat) (config : Value) (field : string)
  (ep : Endpoint) :
  position (category ep) = c ->
  emits (fun ev => rank ev = c) (deployPart JSON_parse Api serve config field ep).
Proof.
  intros Hc. unfold deployPart. emits_tac. apply makeRequest_emits_prev, Hc.
Qed.

Lemma deployConnection_emits_prev (name : string) (config : Value) :
  emits (fun ev => rank ev = 2%nat)
        (deployConnection JSON_parse Api serve name config).
Proof.
  unfold deployConnection. emits_tac; apply deployPart_emits_prev; reflexivity.
Qed.

Lemma deployModule_emits_prev (name : string) (config : Value) :
  emits (fun ev => rank ev = 3%nat)
        (deployModule JSON_parse Api serve name config).
Proof.
  unfold deployModule. emits_tac; apply deployPart_emits_prev; reflexivity.
Qed.

Lemma deployRpc_emits_prev (name : string) (config : Value) :
  emits (fun ev => rank ev = 4%nat)
        (deployRpc JSON_parse Api serve name config).
Proof.
  unfold deployRpc. emits_tac; apply deployPart_emits_prev; reflexivity.
Qed.

Lemma deployFiles_emits_prev P
  (deploy : string -> Value -> Script Api DeployResult)
  (files : list (string * Outcome string)) :
  (forall name config, emits P (deploy name config)) ->
  emits P (deployFiles JSON_parse Api deploy files).
Proof.
  intros Hdeploy. induction files as [| [file content] files IH]; simpl.
  - apply emits_ret.
  - emits_tac; first [apply Hdeploy | apply emits_modify | exact IH].
Qed.

Lemma in_directory_emits_prev P (dir : Directory)
  (loop : list (string * Outcome string) -> Script Api unit) :
  (forall files, emits P (loop files)) -> emits P (in_directory Api dir loop).
Proof.
  intros Hloop. destruct dir as [| e | entries]; simpl;
    [apply emits_ret | apply emits_throw | apply Hloop].
Qed.

(** The requests of [main] come in the order of the categories. *)
Lemma main_ordered_prev : ordered rank 0 4 (main JSON_parse Api serve app).
Proof.
  unfold main.
  apply (ordered_bind rank 0 0 4); [lia | apply ordered_silent; reflexivity |].
  intros _.
  apply (ordered_bind rank 0 0 4);
    [lia | apply ordered_emits, deployBase_emits_prev |]. intros base.
  apply (ordered_bind rank 0 0 4); [lia | apply ordered_silent; reflexivity |].
  intros _.
  apply (ordered_bind rank 0 1 4);
    [lia | eapply ordered_weaken;
           [apply ordered_emits, deployCommon_emits_prev | lia | lia] |].
  intros common.
  apply (ordered_bind rank 1 1 4); [lia | apply ordered_silent; reflexivity |].
  intros _.
  apply (ordered_bind rank 1 2 4);
    [lia | eapply ordered_weaken;
           [apply ordered_emits, in_directory_emits_prev; intros files;
            apply deployFiles_emits_prev, deployConnection_emits_prev
           | lia | lia] |].
  intros _.
  apply (ordered_bind rank 2 3 4);
    [lia | eapply ordered_weaken;
           [apply ordered_emits, in_directory_emits_prev; intros files;
            apply deployFiles_emits_prev, deployModule_emits_prev
           | lia | lia] |].
  intros _.
  apply (ordered_bind rank 3 4 4);
    [lia | eapply ordered_weaken;
           [apply ordered_emits, in_directory_emits_prev; intros files;
            apply deployFiles_emits_prev, deployRpc_emits_prev
           | lia | lia] |].
  intros _.
  apply ordered_silent. intros w. unfold bind, read. simpl.
  match goal with |- context [if ?b then _ else _] => destruct b end;
    reflexivity.
Qed.

(** *** What each function returns *)

Lemma deployBase_result_prev (w : World Api) :
  exists r,
    outcome (deployBase JSON_parse Api serve app w) = Returned r
    /\ well_formed r /\ component r = "base".
Proof.
  unfold deployBase. apply guarded_result; [ends_tac | intros e; repeat split].
Qed.

Lemma deployCommon_result_prev (w : World Api) :
  exists r,
    outcome (deployCommon JSON_parse Api serve app w) = Returned r
    /\ well_formed r /\ component r = "common".
Proof.
  unfold deployCommon. apply guarded_result; [ends_tac | intros e; repeat split].
Qed.

Lemma deployConnection_result_prev (name : string) (config : Value)
  (w : World Api) :
  exists r,
    outcome (deployConnection JSON_parse Api serve name config w) = Returned r
    /\ well_formed r /\ component r = "connection:" +:+ name.
Proof.
  unfold deployConnection.
  apply guarded_result; [ends_tac | intros e; repeat split].
Qed.

Lemma deployModule_result_prev (name : string) (config : Value) (w : World Api) :
  exists r,
    outcome (deployModule JSON_parse Api serve name config w) = Returned r
    /\ well_formed r /\ component r = "module:" +:+ name.
Proof.
  unfold deployModule.
  apply guarded_result; [ends_tac | intros e; repeat split].
Qed.

Lemma deployRpc_result_prev (name : string) (config : Value) (w : World Api) :
  exists r,
    outcome (deployRpc JSON_parse Api serve name config w) = Returned r
    /\ well_formed r /\ component r = "rpc:" +:+ name.
Proof.
  unfold deployRpc.
  apply guarded_result; [ends_tac | intros e; repeat split].
Qed.

(** *** What is pushed to [results], and in which order *)

Lemma deployBase_keeps_results_prev :
  keeps results (deployBase JSON_parse Api serve app).
Proof. unfold deployBase. keeps_tac. Qed.

Lemma deployCommon_keeps_results_prev :
  keeps results (deployCommon JSON_parse Api serve app).
Proof. unfold deployCommon. keeps_tac. Qed.

Lemma deployPart_keeps_results_prev (config : Value) (field : string)
  (ep : Endpoint) :
  keeps results (deployPart JSON_parse Api serve config field ep).
Proof. unfold deployPart. keeps_tac. Qed.

Lemma deployConnection_keeps_results_prev (name : string) (config : Value) :
  keeps results (deployConnection JSON_parse Api serve name config).
Proof.
  unfold deployConnection. keeps_tac; apply deployPart_keeps_results_prev.
Qed.

Lemma deployModule_keeps_results_prev (name : string) (config : Value) :
  keeps results (deployModule JSON_parse Api serve name config).
Proof. unfold deployModule. keeps_tac; apply deployPart_keeps_results_prev. Qed.

Lemma deployRpc_keeps_results_prev (name : string) (config : Value) :
  keeps results (deployRpc JSON_parse Api serve name config).
Proof. unfold deployRpc. keeps_tac; apply deployPart_keeps_results_prev. Qed.

(** The components of the results accumulated so far. *)
Definition log (w : World Api) : list string := component <$> results w.

Lemma push_result_appends_prev (r : DeployResult) :
  appends log [component r] (push_result Api r).
Proof.
  intros w. exists [component r]. unfold log. simpl. rewrite fmap_app.
  split; [reflexivity |]. split; [reflexivity | auto].
Qed.

(** The name [main] gives the result of a file: [kind], then the local
    name. *)
Definition file_component (kind : string) (entry : string * Outcome string)
  : string :=
  kind +:+ local_name entry.1.

Lemma deployFiles_appends_prev (kind : string)
  (deploy : string -> Value -> Script Api DeployResult)
  (files : list (string * Outcome string)) :
  (forall name config w r,
      outcome (deploy name config w) = Returned r ->
      component r = kind +:+ name) ->
  (forall name config, keeps results (deploy name config)) ->
  appends log (file_component kind <$> files)
          (deployFiles JSON_parse Api deploy files).
Proof.
  intros Hname Hkeeps. induction files as [| [file content] files IH]; simpl.
  - apply appends_keeps, keeps_ret.
  - apply appends_bind_lift. intros config Hconfig.
    apply appends_call_push.
    + intros w r. apply Hname.
    + apply (keeps_fmap results), Hkeeps.
    + apply push_result_appends_prev.
    + exact IH.
Qed.

Lemma in_directory_appends_prev (dir : Directory)
  (name : string * Outcome string -> string)
  (loop : list (string * Outcome string) -> Script Api unit) :
  (forall files, appends log (name <$> files) (loop files)) ->
  appends log (name <$> files_of dir) (in_directory Api dir loop).
Proof.
  intros Hloop. destruct dir as [| e | entries]; simpl;
    [apply appends_keeps, keeps_ret | apply appends_thrown | apply Hloop].
Qed.

(** The components [main] reports, in order, when nothing stops it. *)
Definition components : list string :=
  ["base"; "common"]
  ++ (file_component "connection:" <$> files_of (connections app))
  ++ (file_component "module:" <$> files_of (modules app))
  ++ (file_component "rpc:" <$> files_of (rpcs app)).

Lemma main_appends_prev (w : World Api) :
  let run := main JSON_parse Api serve app w in
  component <$> results (final run) `prefix_of` components
  /\ forall e, outcome run = Returned e ->
                component <$> results (final run) = components.
Proof.
  intros run. subst run. unfold main.
  rewrite bind_modify.
  match goal with |- context [final (?m ?w0)] =>
    assert (Happ : appends log components m); [| destruct (Happ w0)
      as (added & Hlog & Hpre & Hall)]
  end.
  2:{ unfold log in Hlog. cbn [results] in Hlog. rewrite Hlog.
      split; [exact Hpre |]. intros e He. exact (Hall e He). }
  unfold components.
  change (["base"; "common"] ++ ?l) with ("base" :: ("common" :: l)).
  apply appends_call_push;
    [ intros w1 r Hr; destruct (deployBase_result_prev w1) as (r' & Hr' & _ & Hc);
      congruence
    | apply (keeps_fmap results), deployBase_keeps_results_prev
    | apply push_result_appends_prev |].
  apply appends_call_push;
    [ intros w1 r Hr; destruct (deployCommon_result_prev w1) as (r' & Hr' & _ & Hc);
      congruence
    | apply (keeps_fmap results), deployCommon_keeps_results_prev
    | apply push_result_appends_prev |].
  apply (appends_bind log _ _ (fun _ => True)); [auto | |].
  { apply in_directory_appends_prev. intros files. apply deployFiles_appends_prev.
    - intros name config w1 r Hr.
      destruct (deployConnection_result_prev name config w1) as (r' & Hr' & _ & Hc).
      congruence.
    - apply deployConnection_keeps_results_prev. }
  intros _ _.
  apply (appends_bind log _ _ (fun _ => True)); [auto | |].
  { apply in_directory_appends_prev. intros files. apply deployFiles_appends_prev.
    - intros name config w1 r Hr.
      destruct (deployModule_result_prev name config w1) as (r' & Hr' & _ & Hc).
      congruence.
    - apply deployModule_keeps_results_prev. }
  intros _ _.
  rewrite <- (app_nil_r (file_component "rpc:" <$> _)).
  apply (appends_bind log _ _ (fun _ => True)); [auto | |].
  { apply in_directory_appends_prev. intros files. apply deployFiles_appends_prev.
    - intros name config w1 r Hr.
      destruct (deployRpc_result_prev name config w1) as (r' & Hr' & _ & Hc).
      congruence.
    - apply deployRpc_keeps_results_prev. }
  intros _ _. apply appends_keeps. intros w1. unfold bind, read. simpl.
  match goal with |- context [if ?b then _ else _] => destruct b end;
    reflexivity.
Qed.

(** *** How [main] ends *)


End Script.
End ForPrev.

(** ** What the deploy scripts do, whatever the API answers *)


(** What [results] holds when [main] ends: a result for each of the
    [expected] components, in order, when [main] returns; for the first of
    them when it rejects. *)
Definition reports (o : Outcome MainEnd) (rs : list DeployResult)
  (expected : list string) : Prop :=
  match o with
  | Returned _ => component <$> rs = expected
  | Thrown _ => component <$> rs `prefix_of` expected
  end.

Lemma reports_appends (o : Outcome MainEnd) (rs : list DeployResult)
  (expected : list string) :
  component <$> rs `prefix_of` expected ->
  (forall e, o = Returned e -> component <$> rs = expected) ->
  reports o rs expected.
Proof. intros Hpre Hall. destruct o as [e | e]; simpl; eauto. Qed.

(** In both versions of the deploy script, and whatever the API answers
    and the app directory holds: the requests of a run of [main] come in
    the order of their categories (base, common, connections, modules,
    RPCs), none of a category after one of a later category; and [results]
    ends up with one result for each component, in that order, when [main]
    returns, and for the first of them when it rejects. *)
Lemma requests_sorted_by_category
  (JSON_parse : string -> Outcome Value) (Api : Type)
  (serve : Api -> Request -> Reply * Api) (app : AppDir) :
  (forall w : Deploy.World Api,
      let run := Deploy.main JSON_parse Api serve app w in
      StronglySorted le (rank <$> trace run)
      /\ reports (outcome run) (Deploy.results (final run))
                 (ForDeploy.components JSON_parse app))
  /\ (forall w : DeployPrev.World Api,
        let run := DeployPrev.main JSON_parse Api serve app w in
        StronglySorted le (rank <$> trace run)
        /\ reports (outcome run) (DeployPrev.results (final run))
                   (ForPrev.components app)).
Proof.
  split; intros w run.
  - split.
    + apply (ForDeploy.main_ordered JSON_parse Api serve app w).
    + destruct (ForDeploy.main_appends JSON_parse Api serve app w)
        as [Hpre Hall].
      apply reports_appends; assumption.
  - split.
    + apply (ForPrev.main_ordered_prev JSON_parse Api serve app w).
    + destruct (ForPrev.main_appends_prev JSON_parse Api serve app w)
        as [Hpre Hall].
      apply reports_appends; assumption.
Qed.


(** *** A run of the current script *)

(** [JSON.parse], on the two texts of the run below: the text of an empty
    object, and the empty text, which it refuses. *)
Definition parse_braces (text : string) : Outcome Value :=
  if String.eqb text "{}" then Returned (JObj [])
  else Thrown "Unexpected end of JSON input".


(** An API that accepts what it is sent, with an empty answer, and refuses
    to list anything. *)
Definition listing_refused (api : unit) (req : Request) : Reply * unit :=
  match method req with
  | GET => (Response 500 "Internal Server Error", tt)
  | _ => (Response 200 "", tt)
  end.

Definition at_start : Deploy.World unit :=
  {| Deploy.service := tt; Deploy.results := [];
     Deploy.connectionNameMap := [] |}.


(** [deployConnection] of the current script reads [config.label] before
    its [try], so a configuration file that holds [null] makes it throw. *)
Lemma deployConnection_null_config_throws :
  outcome (Deploy.deployConnection parse_braces unit listing_refused
             "everyrow" JNull at_start)
  = Thrown "Cannot read properties of null (reading 'label')".
Proof. reflexivity. Qed.

(** It writes the label into the result in its [catch] block too, so a
    label that has no string form makes it throw, after the listing
    request. *)
Lemma deployConnection_unprintable_label_throws :
  let run := Deploy.deployConnection parse_braces unit listing_refused
               "everyrow" (JObj [("label", JObj [("toString", JNum 1)])])
               at_start in
  outcome run = Thrown not_primitive
  /\ (fun ev => (method ev.1, endpoint ev.1)) <$> trace run
     = [(GET, EConnections)].
Proof. split; reflexivity. Qed.


End DeployFacts.

(* ===================================================================== *)
(** * Properties: the IML template processor *)
(* ===================================================================== *)

Module TemplateFacts.
Import TestModule StringFacts.

Lemma and_then_returned {A} (o : Outcome A) :
  and_then o (fun a => Returned a) = o.
Proof. destruct o; reflexivity. Qed.

(** ** Runs of characters *)

(** All the characters of [s] are in the class [f]. *)
Fixpoint all_chars (f : ascii -> bool) (s : string) : bool :=
  match s with
  | EmptyString => true
  | String c s' => f c && all_chars f s'
  end.

(** A run of characters in [f] cannot go on into [s]. *)
Definition stops (f : ascii -> bool) (s : string) : bool :=
  match s with
  | EmptyString => true
  | String c _ => negb (f c)
  end.

Lemma span_append (f : ascii -> bool) (s : string) :
  s = (span f s).1 +:+ (span f s).2.
Proof.
  induction s as [| c s IH]; simpl; [reflexivity |].
  destruct (f c); simpl; [rewrite <- IH |]; reflexivity.
Qed.

Lemma span_run (f : ascii -> bool) (key rest : string) :
  all_chars f key = true -> stops f rest = true ->
  span f (key +:+ rest) = (key, rest).
Proof.
  intros Hall Hstop. induction key as [| c key IH]; simpl.
  - destruct rest as [| d rest]; simpl; [reflexivity |].
    simpl in Hstop. destruct (f d); [discriminate | reflexivity].
  - simpl in Hall. apply andb_true_iff in Hall as [Hc Hall].
    rewrite Hc, (IH Hall). reflexivity.
Qed.

(** ** One match, and the replacement of all of them *)

Lemma match_here_length (pat : Pattern) (s captured rest : string) :
  match_here pat s = Some (captured, rest) ->
  (String.length rest < String.length s)%nat.
Proof.
  unfold match_here.
  destruct (strip_prefix (opening pat) s) as [r |] eqn:Hopen; [| discriminate].
  pose proof (span_append (inner pat) r) as Hspan.
  destruct (span (inner pat) r) as [run r'] eqn:Hrun. simpl in Hspan.
  destruct (String.eqb_spec run "") as [| Hrun']; [discriminate |].
  destruct (strip_prefix (closing pat) r') as [rest' |] eqn:Hclose;
    [| discriminate].
  intros [= <- <-].
  apply strip_prefix_Some in Hopen, Hclose. subst s r r'.
  rewrite !append_length. destruct run; [congruence | simpl; lia].
Qed.

Lemma replace_steps_fuel (n m : nat) (pat : Pattern)
  (f : string -> Outcome string) (s : string) :
  (String.length s <= n)%nat -> (String.length s <= m)%nat ->
  replace_steps n pat f s = replace_steps m pat f s.
Proof.
  revert m s. induction n as [| n IH]; intros m s Hn Hm.
  - destruct s; [destruct m; reflexivity | simpl in Hn; lia].
  - destruct s as [| c s']; [destruct m; reflexivity |].
    destruct m as [| m]; [simpl in Hm; lia |].
    cbn [replace_steps].
    destruct (match_here pat (String c s')) as [[captured rest] |] eqn:Hmatch.
    + apply match_here_length in Hmatch. simpl in Hn, Hm, Hmatch.
      rewrite (IH m rest); [reflexivity | lia | lia].
    + simpl in Hn, Hm. rewrite (IH m s'); [reflexivity | lia | lia].
Qed.

Lemma replace_all_nil (pat : Pattern) (f : string -> Outcome string) :
  replace_all pat f "" = Returned "".
Proof. reflexivity. Qed.

Lemma replace_all_skip (pat : Pattern) (f : string -> Outcome string)
  (c : ascii) (s : string) :
  match_here pat (String c s) = None ->
  replace_all pat f (String c s)
  = and_then (replace_all pat f s) (fun out => Returned (String c out)).
Proof.
  intros Hmatch. unfold replace_all. cbn [String.length replace_steps].
  rewrite Hmatch. reflexivity.
Qed.

Lemma replace_all_match (pat : Pattern) (f : string -> Outcome string)
  (s captured rest : string) :
  match_here pat s = Some (captured, rest) ->
  replace_all pat f s
  = and_then (f captured) (fun r =>
    and_then (replace_all pat f rest) (fun out => Returned (r +:+ out))).
Proof.
  intros Hmatch. pose proof (match_here_length _ _ _ _ Hmatch) as Hlen.
  unfold replace_all. destruct s as [| c s]; [simpl in Hlen; lia |].
  cbn [String.length replace_steps]. rewrite Hmatch.
  simpl in Hlen.
  rewrite (replace_steps_fuel (String.length s) (String.length rest));
    [reflexivity | lia | lia].
Qed.

(** ** Text that a replacement leaves as it is *)

(** [t], whatever follows it, goes through the replacement unchanged. *)
Definition passes (pat : Pattern) (t : string) : Prop :=
  forall f rest,
    replace_all pat f (t +:+ rest)
    = and_then (replace_all pat f rest) (fun out => Returned (t +:+ out)).

Lemma passes_nil (pat : Pattern) : passes pat "".
Proof. intros f rest. simpl. rewrite and_then_returned. reflexivity. Qed.

Lemma passes_cons (pat : Pattern) (c : ascii) (t : string) :
  (forall rest, match_here pat (String c (t +:+ rest)) = None) ->
  passes pat t -> passes pat (String c t).
Proof.
  intros Hhere Ht f rest. simpl. rewrite (replace_all_skip _ _ _ _ (Hhere rest)).
  rewrite Ht. destruct (replace_all pat f rest); reflexivity.
Qed.

Lemma passes_app (pat : Pattern) (t u : string) :
  passes pat t -> passes pat u -> passes pat (t +:+ u).
Proof.
  intros Ht Hu f rest. rewrite append_assoc, Ht, Hu.
  destruct (replace_all pat f rest); simpl; [rewrite append_assoc |];
    reflexivity.
Qed.

Definition is_brace (c : ascii) : bool := Ascii.eqb c "{"%char.

(** [t] holds no two opening braces in a row, and does not end with one:
    no placeholder starts in it, whatever follows it. *)
Fixpoint inert (t : string) : bool :=
  match t with
  | EmptyString => true
  | String c t' =>
      if is_brace c then negb (String.eqb t' "") && stops is_brace t'
                         && inert t'
      else inert t'
  end.

(** The patterns of [processImlTemplate] open with two braces. *)
Definition braced (pat : Pattern) : Prop :=
  exists o, opening pat = String "{" (String "{" o).

Lemma braced_no_match (pat : Pattern) (c : ascii) (t : string) :
  braced pat -> inert (String c t) = true ->
  forall rest, match_here pat (String c (t +:+ rest)) = None.
Proof.
  intros [o Ho] Ht rest. unfold match_here. rewrite Ho.
  cbn [strip_prefix inert] in *. unfold is_brace in Ht.
  rewrite Ascii.eqb_sym.
  destruct (Ascii.eqb c "{"); [| reflexivity].
  destruct t as [| d t]; [discriminate |].
  cbn [String.append String.eqb stops negb andb] in *. unfold is_brace in Ht.
  rewrite Ascii.eqb_sym.
  destruct (Ascii.eqb d "{"); [discriminate | reflexivity].
Qed.

Lemma inert_tail (c : ascii) (t : string) :
  inert (String c t) = true -> inert t = true.
Proof.
  simpl. destruct (is_brace c); [| auto].
  intros H. apply andb_true_iff in H as [_ H]. exact H.
Qed.

Lemma passes_inert (pat : Pattern) (t : string) :
  braced pat -> inert t = true -> passes pat t.
Proof.
  intros Hpat. induction t as [| c t IH]; intros Ht; [apply passes_nil |].
  apply passes_cons; [apply braced_no_match; assumption |].
  apply IH, (inert_tail c), Ht.
Qed.

Lemma inert_app (t u : string) :
  inert t = true -> inert u = true -> inert (t +:+ u) = true.
Proof.
  intros Ht Hu. induction t as [| c t IH]; [exact Hu |].
  pose proof (IH (inert_tail _ _ Ht)) as Htu.
  change (inert (String c (t +:+ u)) = true).
  cbn [inert] in Ht |- *.
  destruct (is_brace c); [| exact Htu].
  apply andb_true_iff in Ht as [Ht _]. apply andb_true_iff in Ht as [Hne Hstop].
  rewrite Htu, andb_true_r.
  destruct t as [| d t]; [discriminate Hne |].
  cbn [String.append String.eqb stops negb andb] in *. exact Hstop.
Qed.

Lemma word_not_brace (c : ascii) : is_word c = true -> is_brace c = false.
Proof.
  unfold is_brace. destruct (Ascii.eqb_spec c "{") as [-> | _];
    [discriminate | reflexivity].
Qed.

Lemma inert_word (key : string) :
  all_chars is_word key = true -> inert key = true.
Proof.
  induction key as [| c key IH]; [reflexivity |]. simpl.
  intros H. apply andb_true_iff in H as [Hc Hkey].
  rewrite (word_not_brace c Hc). exact (IH Hkey).
Qed.

(** ** Templates, as texts and placeholders *)

(** The placeholders of [processImlTemplate]. *)
Inductive Kind : Type := KParameters | KTemp | KBody | KParseJSON.

(** A piece of a template: a text, or a placeholder with its key. *)
Inductive Segment : Type :=
| Lit (text : string)
| Hole (kind : Kind) (key : string).

Definition kind_eqb (k k' : Kind) : bool :=
  match k, k' with
  | KParameters, KParameters | KTemp, KTemp | KBody, KBody
  | KParseJSON, KParseJSON => true
  | _, _ => false
  end.

Definition pattern_of (k : Kind) : Pattern :=
  match k with
  | KParameters => parameters_pattern
  | KTemp => temp_pattern
  | KBody => body_pattern
  | KParseJSON => parseJSON_pattern
  end.

(** What the pattern of a placeholder captures from it. *)
Definition captured (k : Kind) (key : string) : string :=
  match k with
  | KParseJSON => "parameters." +:+ key
  | _ => key
  end.

(** A placeholder, as it is written in a template. *)
Definition placeholder (k : Kind) (key : string) : string :=
  opening (pattern_of k) +:+ captured k key +:+ closing (pattern_of k).

Definition render1 (seg : Segment) : string :=
  match seg with
  | Lit text => text
  | Hole k key => placeholder k key
  end.

(** The template a list of segments stands for. *)
Fixpoint render (segs : list Segment) : string :=
  match segs with
  | [] => ""
  | seg :: rest => render1 seg +:+ render rest
  end.

(** The texts [F] gives for the segments, one after the other, up to the
    first exception. *)
Fixpoint expand_all (F : Segment -> Outcome string) (segs : list Segment)
  : Outcome string :=
  match segs with
  | [] => Returned ""
  | seg :: rest =>
      and_then (F seg) (fun t =>
      and_then (expand_all F rest) (fun out => Returned (t +:+ out)))
  end.

(** A key: [\w+]. *)
Definition is_key (key : string) : bool :=
  negb (String.eqb key "") && all_chars is_word key.

(** What a segment must be for the replacements to see it as it is meant:
    a text in which no placeholder starts, or a placeholder of a key. *)
Definition ready (seg : Segment) : bool :=
  match seg with
  | Lit text => inert text
  | Hole _ key => is_key key
  end.

(** What the replacement of the placeholders of kind [k] makes of a
    segment. *)
Definition during (k : Kind) (f : string -> Outcome string) (seg : Segment)
  : Outcome string :=
  match seg with
  | Lit text => Returned text
  | Hole k' key =>
      if kind_eqb k k' then f (captured k key)
      else Returned (placeholder k' key)
  end.

Lemma braced_pattern (k : Kind) : braced (pattern_of k).
Proof. destruct k; eexists; reflexivity. Qed.

Lemma is_key_word (key : string) :
  is_key key = true -> key <> "" /\ all_chars is_word key = true.
Proof.
  unfold is_key. intros H. apply andb_true_iff in H as [Hne Hall].
  split; [| exact Hall]. intros ->. discriminate.
Qed.

Lemma all_chars_weaken (f g : ascii -> bool) (s : string) :
  (forall c, f c = true -> g c = true) ->
  all_chars f s = true -> all_chars g s = true.
Proof.
  intros Hfg. induction s as [| c s IH]; [reflexivity |]. simpl.
  intros H. apply andb_true_iff in H as [Hc Hs].
  rewrite (Hfg c Hc), (IH Hs). reflexivity.
Qed.

Lemma word_not_paren (c : ascii) :
  is_word c = true -> negb (Ascii.eqb c ")") = true.
Proof.
  destruct (Ascii.eqb_spec c ")") as [-> | _]; [discriminate | reflexivity].
Qed.

(** The pattern of a placeholder matches it, and captures its key. *)
Lemma match_placeholder (k : Kind) (key rest : string) :
  is_key key = true ->
  match_here (pattern_of k) (placeholder k key +:+ rest)
  = Some (captured k key, rest).
Proof.
  intros Hkey. apply is_key_word in Hkey as [Hne Hall].
  unfold match_here, placeholder. rewrite !append_assoc.
  rewrite strip_prefix_append.
  assert (Hrun : span (inner (pattern_of k))
                      (captured k key
                       +:+ closing (pattern_of k) +:+ rest)
                 = (captured k key, closing (pattern_of k) +:+ rest)).
  { apply span_run.
    - destruct k; cbn [captured pattern_of inner parameters_pattern
                       temp_pattern body_pattern parseJSON_pattern];
        try exact Hall.
      change ("parameters." +:+ key)
        with (String "p" (String "a" (String "r" (String "a" (String "m"
               (String "e" (String "t" (String "e" (String "r" (String "s"
               (String "." key))))))))))).
      cbn [all_chars]. 
      rewrite (all_chars_weaken is_word _ key word_not_paren Hall).
      reflexivity.
    - destruct k; reflexivity. }
  rewrite Hrun.
  destruct (String.eqb_spec (captured k key) "") as [Hempty |].
  - destruct k; simpl in Hempty; congruence.
  - rewrite strip_prefix_append. reflexivity.
Qed.

(** What a placeholder is written with after its two braces. *)
Definition after_braces (k : Kind) (key : string) : string :=
  match k with
  | KParameters => "parameters."
  | KTemp => "temp."
  | KBody => "body."
  | KParseJSON => "parseJSON("
  end +:+ captured k key +:+ closing (pattern_of k).

Lemma placeholder_braces (k : Kind) (key : string) :
  placeholder k key = String "{" (String "{" (after_braces k key)).
Proof. destruct k; reflexivity. Qed.

Lemma inert_after_braces (k : Kind) (key : string) :
  is_key key = true -> inert (after_braces k key) = true.
Proof.
  intros Hkey. apply is_key_word in Hkey as [_ Hall].
  unfold after_braces.
  destruct k; cbn [captured]; repeat apply inert_app;
    first [apply inert_word, Hall | reflexivity].
Qed.

(** The replacement of the placeholders of one kind leaves those of the
    other kinds as they are. *)
Lemma passes_other_placeholder (k k' : Kind) (key : string) :
  kind_eqb k k' = false -> is_key key = true ->
  passes (pattern_of k) (placeholder k' key).
Proof.
  intros Hkind Hkey. rewrite placeholder_braces.
  apply passes_cons; [| apply passes_cons].
  - intros rest. destruct k, k'; try discriminate Hkind; reflexivity.
  - intros rest. destruct k, k'; reflexivity.
  - apply passes_inert; [apply braced_pattern |].
    apply inert_after_braces, Hkey.
Qed.

(** One replacement, segment by segment. *)
Lemma replace_all_render (k : Kind) (f : string -> Outcome string)
  (segs : list Segment) :
  Forall (fun seg => ready seg = true) segs ->
  replace_all (pattern_of k) f (render segs) = expand_all (during k f) segs.
Proof.
  induction 1 as [| seg segs Hseg _ IH]; [reflexivity |].
  cbn [render expand_all].
  destruct seg as [text | k' key]; cbn [render1 during ready] in *.
  - rewrite (passes_inert _ _ (braced_pattern k) Hseg), IH. reflexivity.
  - destruct (kind_eqb k k') eqn:Hkind.
    + assert (k' = k) as ->
        by (destruct k, k'; try discriminate Hkind; reflexivity).
      rewrite (replace_all_match _ _ _ _ _ (match_placeholder k key _ Hseg)).
      rewrite IH. reflexivity.
    + rewrite (passes_other_placeholder k k' key Hkind Hseg), IH.
      reflexivity.
Qed.

Lemma expand_all_pure (g : Segment -> Segment) (segs : list Segment) :
  expand_all (fun seg => Returned (render1 (g seg))) segs
  = Returned (render (g <$> segs)).
Proof.
  induction segs as [| seg segs IH]; [reflexivity |].
  cbn [expand_all fmap list_fmap render and_then]. rewrite IH. reflexivity.
Qed.

Lemma expand_all_ext (F G : Segment -> Outcome string)
  (segs : list Segment) :
  Forall (fun seg => F seg = G seg) segs ->
  expand_all F segs = expand_all G segs.
Proof.
  induction 1 as [| seg segs Hseg _ IH]; [reflexivity |].
  cbn [expand_all]. rewrite Hseg, IH. reflexivity.
Qed.

Lemma expand_all_fmap (F : Segment -> Outcome string)
  (g : Segment -> Segment) (segs : list Segment) :
  expand_all F (g <$> segs) = expand_all (fun seg => F (g seg)) segs.
Proof.
  induction segs as [| seg segs IH]; [reflexivity |].
  cbn [expand_all fmap list_fmap]. 
  change (list_fmap _ _ g segs) with (g <$> segs). rewrite IH. reflexivity.
Qed.

Lemma find_parameter_ref_unfold (expr : string) :
  find_parameter_ref expr
  = match strip_prefix "parameters." expr with
    | Some r =>
        if String.eqb (span is_word r).1 "" then
          match expr with
          | EmptyString => None
          | String _ expr' => find_parameter_ref expr'
          end
        else Some (span is_word r).1
    | None =>
        match expr with
        | EmptyString => None
        | String _ expr' => find_parameter_ref expr'
        end
    end.
Proof. destruct expr; reflexivity. Qed.

Lemma find_parameter_ref_key (key : string) :
  is_key key = true -> find_parameter_ref ("parameters." +:+ key) = Some key.
Proof.
  intros Hkey. apply is_key_word in Hkey as [Hne Hall].
  rewrite find_parameter_ref_unfold, strip_prefix_append.
  assert (Hspan : span is_word key = (key, "")).
  { pose proof (span_run is_word key "" Hall eq_refl) as Hrun.
    rewrite append_nil_r in Hrun. exact Hrun. }
  rewrite Hspan. cbn [fst].
  destruct (String.eqb_spec key ""); [contradiction | reflexivity].
Qed.

(** ** What [processImlTemplate] makes of a template *)

Section Expansion.

Variable JSON_parse : string -> Outcome Value.
Variable context : Context.

(** What a segment stands for: a text for itself; a [parameters]
    placeholder for the value, JSON-stringified when it is an object; a
    [temp] or [body] placeholder for the value, or for nothing when the
    value is falsy; a [parseJSON] placeholder for the JSON text of the
    parameter, parsed first when it is a string, which may throw. *)
Definition expansion (seg : Segment) : Outcome string :=
  match seg with
  | Lit text => Returned text
  | Hole KParameters key =>
      let value := optional_get (parameters context) key in
      if String.eqb (typeof value) "object"
      then Returned (stringify_text value) else ToString value
  | Hole KTemp key =>
      let value := optional_get (temp context) key in
      if truthy value then ToString value else Returned ""
  | Hole KBody key =>
      let value := optional_get (body context) key in
      if truthy value then ToString value else Returned ""
  | Hole KParseJSON key =>
      match optional_get (parameters context) key with
      | JStr text =>
          and_then (JSON_parse text) (fun parsed =>
          Returned (stringify_text parsed))
      | value => Returned (stringify_text value)
      end
  end.

(** The callback of each replacement. *)
Definition callback (k : Kind) : string -> Outcome string :=
  match k with
  | KParameters => replace_parameter context
  | KTemp => replace_temp context
  | KBody => replace_body context
  | KParseJSON => replace_parseJSON JSON_parse context
  end.

(** A segment the replacements see as it is meant, and go on seeing so:
    the texts that replace the placeholders of the first three kinds are
    scanned by the replacements that follow. *)
Definition placed (seg : Segment) : bool :=
  match seg with
  | Lit text => inert text
  | Hole k key =>
      is_key key
      && match k, expansion seg with
         | KParseJSON, _ => true
         | _, Returned text => inert text
         | _, Thrown _ => true
         end
  end.

(** A segment, once the placeholders of kind [k] are replaced. *)
Definition fill (k : Kind) (seg : Segment) : Segment :=
  match seg with
  | Lit _ => seg
  | Hole k' key =>
      if kind_eqb k k' then
        match expansion seg with
        | Returned text => Lit text
        | Thrown _ => seg
        end
      else seg
  end.

(** The exception of a segment in the replacement of the placeholders of
    kind [k]. *)
Definition fails (k : Kind) (seg : Segment) : Outcome unit :=
  match seg with
  | Lit _ => Returned tt
  | Hole k' _ =>
      if kind_eqb k k' then and_then (expansion seg) (fun _ => Returned tt)
      else Returned tt
  end.

(** The first exception of a replacement, if there is one. *)
Fixpoint first_failure (F : Segment -> Outcome unit) (segs : list Segment)
  : Outcome unit :=
  match segs with
  | [] => Returned tt
  | seg :: rest => and_then (F seg) (fun _ => first_failure F rest)
  end.

Lemma callback_expansion (k : Kind) (key : string) :
  is_key key = true ->
  callback k (captured k key) = expansion (Hole k key).
Proof.
  intros Hkey. destruct k; cbn [callback captured expansion].
  - unfold replace_parameter.
    destruct (String.eqb _ "object"); reflexivity.
  - unfold replace_temp, js_or.
    destruct (truthy (optional_get (temp context) key)); reflexivity.
  - unfold replace_body, js_or.
    destruct (truthy (optional_get (body context) key)); reflexivity.
  - unfold replace_parseJSON. rewrite (find_parameter_ref_key key Hkey).
    reflexivity.
Qed.

Lemma kind_eqb_eq (k k' : Kind) : kind_eqb k k' = true -> k' = k.
Proof. destruct k, k'; first [reflexivity | discriminate]. Qed.

Lemma kind_eqb_refl (k : Kind) : kind_eqb k k = true.
Proof. destruct k; reflexivity. Qed.

(** A [parameters] placeholder always stands for a text. *)
Lemma parameters_expansion (key : string) :
  exists text, expansion (Hole KParameters key) = Returned text.
Proof.
  cbn [expansion].
  destruct (String.eqb_spec
              (typeof (optional_get (parameters context) key)) "object")
    as [| Hty]; [eauto |].
  exact (ValidationFacts.ToString_primitive _ Hty).
Qed.

Lemma parameters_never_fail (segs : list Segment) :
  first_failure (fails KParameters) segs = Returned tt.
Proof.
  induction segs as [| [text | k key] segs IH]; [reflexivity | exact IH |].
  cbn [first_failure fails]. destruct (kind_eqb KParameters k) eqn:Hkind;
    [| exact IH].
  apply kind_eqb_eq in Hkind as ->.
  destruct (parameters_expansion key) as [text ->]. exact IH.
Qed.

Lemma placed_ready (seg : Segment) : placed seg = true -> ready seg = true.
Proof.
  destruct seg as [text | k key]; [auto |]. cbn [placed ready].
  intros H. apply andb_true_iff in H as [H _]. exact H.
Qed.

Lemma placed_fill (k : Kind) (seg : Segment) :
  k <> KParseJSON -> placed seg = true -> placed (fill k seg) = true.
Proof.
  intros Hk Hseg. destruct seg as [text | k' key]; [exact Hseg |].
  cbn [fill]. destruct (kind_eqb k k') eqn:Hkind; [| exact Hseg].
  apply kind_eqb_eq in Hkind as ->.
  destruct (expansion (Hole k key)) as [text |] eqn:Hexp; [| exact Hseg].
  cbn [placed] in Hseg |- *. apply andb_true_iff in Hseg as [_ Hseg].
  rewrite Hexp in Hseg. destruct k; try contradiction; exact Hseg.
Qed.

Lemma placed_fill_all (k : Kind) (segs : list Segment) :
  k <> KParseJSON ->
  Forall (fun seg => placed seg = true) segs ->
  Forall (fun seg => placed seg = true) (fill k <$> segs).
Proof.
  intros Hk Hsegs. apply Forall_fmap. eapply Forall_impl; [exact Hsegs |].
  intros seg Hseg. apply placed_fill; assumption.
Qed.

(** One of the first three replacements: it throws the first exception of
    its placeholders, or returns the template with them filled. *)
Lemma replace_all_fill (k : Kind) (segs : list Segment) :
  Forall (fun seg => placed seg = true) segs ->
  replace_all (pattern_of k) (callback k) (render segs)
  = and_then (first_failure (fails k) segs) (fun _ =>
    Returned (render (fill k <$> segs))).
Proof.
  intros Hsegs.
  rewrite replace_all_render
    by (eapply Forall_impl; [exact Hsegs | apply placed_ready]).
  induction Hsegs as [| seg segs Hseg _ IH]; [reflexivity |].
  cbn [expand_all first_failure fmap list_fmap render].
  change (list_fmap _ _ (fill k) segs) with (fill k <$> segs).
  rewrite IH. destruct seg as [text | k' key]; cbn [during fails fill].
  - cbn [and_then].
    destruct (first_failure (fails k) segs); reflexivity.
  - destruct (kind_eqb k k') eqn:Hkind.
    + apply kind_eqb_eq in Hkind as ->.
      rewrite callback_expansion by (apply (placed_ready (Hole k key)), Hseg).
      destruct (expansion (Hole k key)); cbn [and_then]; [| reflexivity].
      destruct (first_failure (fails k) segs); reflexivity.
    + cbn [and_then].
      destruct (first_failure (fails k) segs); reflexivity.
Qed.

(** Filling the placeholders of one kind leaves the exceptions of the
    other kinds as they are. *)
Lemma fails_fill (k k' : Kind) (segs : list Segment) :
  kind_eqb k k' = false ->
  first_failure (fails k) (fill k' <$> segs) = first_failure (fails k) segs.
Proof.
  intros Hkind. induction segs as [| seg segs IH]; [reflexivity |].
  cbn [first_failure fmap list_fmap].
  change (list_fmap _ _ (fill k') segs) with (fill k' <$> segs).
  rewrite IH. f_equal.
  destruct seg as [text | k'' key]; [reflexivity |]. cbn [fill].
  destruct (kind_eqb k' k'') eqn:Hfill; [| reflexivity].
  apply kind_eqb_eq in Hfill as ->.
  cbn [fails]. rewrite Hkind.
  destruct (expansion (Hole k' key)); cbn [fails]; [| rewrite Hkind];
    reflexivity.
Qed.

Lemma first_failure_none (F : Segment -> Outcome unit) (segs : list Segment) :
  first_failure F segs = Returned tt ->
  Forall (fun seg => F seg = Returned tt) segs.
Proof.
  induction segs as [| seg segs IH]; [constructor |].
  cbn [first_failure]. destruct (F seg) as [[] | e] eqn:Hseg; [| discriminate].
  intros Hrest. constructor; [exact Hseg | exact (IH Hrest)].
Qed.

(** The last replacement, after the three others. *)
Lemma during_parseJSON (seg : Segment) :
  placed seg = true ->
  fails KTemp seg = Returned tt -> fails KBody seg = Returned tt ->
  during KParseJSON (callback KParseJSON)
         (fill KBody (fill KTemp (fill KParameters seg)))
  = expansion seg.
Proof.
  intros Hseg Htemp Hbody. destruct seg as [text | k key]; [reflexivity |].
  pose proof (placed_ready _ Hseg) as Hkey. cbn [ready] in Hkey.
  destruct k; cbn [fill kind_eqb fails] in *.
  - destruct (parameters_expansion key) as [text Htext].
    rewrite Htext. reflexivity.
  - destruct (expansion (Hole KTemp key)); [reflexivity | discriminate Htemp].
  - destruct (expansion (Hole KBody key)); [reflexivity | discriminate Hbody].
  - exact (callback_expansion KParseJSON key Hkey).
Qed.

(** C7, as the code has it.  For a template made of texts and
    placeholders with [\w+] keys, [processImlTemplate] returns the texts
    as they are and, in the place of each placeholder, what it stands for
    ([expansion]): for [{{parameters.key}}] the value, JSON-stringified
    when it is an object; for [{{temp.key}}] and [{{body.key}}] the value,
    or nothing when it is falsy; for [{{parseJSON(parameters.key)}}] the
    JSON text of the parameter, parsed first when it is a string.  It
    throws when a [temp] or [body] value that is not falsy has no string
    form, or when that parse throws: the exception is that of the first
    such [temp] placeholder, or else of the first such [body] placeholder,
    or else of the first such [parseJSON] placeholder.  This holds when no
    text of the template, and no text that replaces a placeholder of the
    first three kinds, holds two opening braces in a row or ends with an
    opening brace. *)
Theorem template_placeholders_expanded (segs : list Segment) :
  Forall (fun seg => placed seg = true) segs ->
  processImlTemplate JSON_parse (render segs) context
  = and_then (first_failure (fails KTemp) segs) (fun _ =>
    and_then (first_failure (fails KBody) segs) (fun _ =>
    expand_all expansion segs)).
Proof.
  intros Hsegs. unfold processImlTemplate.
  pose proof (placed_fill_all KParameters segs ltac:(discriminate) Hsegs)
    as Hsegs1.
  pose proof (placed_fill_all KTemp _ ltac:(discriminate) Hsegs1) as Hsegs2.
  pose proof (placed_fill_all KBody _ ltac:(discriminate) Hsegs2) as Hsegs3.
  pose proof (replace_all_fill KParameters segs Hsegs) as Hrun1.
  pose proof (replace_all_fill KTemp _ Hsegs1) as Hrun2.
  pose proof (replace_all_fill KBody _ Hsegs2) as Hrun3.
  rewrite parameters_never_fail in Hrun1.
  rewrite (fails_fill KTemp KParameters) in Hrun2 by reflexivity.
  rewrite (fails_fill KBody KTemp), (fails_fill KBody KParameters) in Hrun3
    by reflexivity.
  cbn [pattern_of callback and_then] in Hrun1, Hrun2, Hrun3.
  rewrite Hrun1. cbn [and_then]. rewrite Hrun2.
  destruct (first_failure (fails KTemp) segs) as [[] |] eqn:Htemp;
    cbn [and_then]; [| reflexivity].
  rewrite Hrun3.
  destruct (first_failure (fails KBody) segs) as [[] |] eqn:Hbody;
    cbn [and_then]; [| reflexivity].
  change parseJSON_pattern with (pattern_of KParseJSON).
  change (replace_parseJSON JSON_parse context) with (callback KParseJSON).
  rewrite (replace_all_render KParseJSON)
    by (eapply Forall_impl; [exact Hsegs3 | apply placed_ready]).
  rewrite !expand_all_fmap. apply expand_all_ext.
  apply first_failure_none in Htemp, Hbody.
  rewrite Forall_forall in Hsegs, Htemp, Hbody. apply Forall_forall.
  intros seg Hin. apply during_parseJSON; auto.
Qed.

End Expansion.

(** *** Runs of the processor *)

(** [JSON.parse], on the two texts parsed below: a list of two numbers,
    and a text that is not JSON (the message stands for the
    SyntaxError's). *)
Definition parse_pair (text : string) : Outcome Value :=
  if String.eqb text "[1,2]" then Returned (JArr [JNum 1; JNum 2])
  else Thrown "Unexpected token".

Definition rank_context : Context :=
  {| parameters := Some {[ "rows" := JStr "[1,2]"; "task" := JStr "rank" ]};
     temp := Some {[ "session" := JStr "s1" ]};
     body := None |}.

(** A template with a placeholder of each kind, between texts that hold
    braces. *)
Lemma template_placeholders_expanded_witness :
  processImlTemplate parse_pair
    "{rows: {{parseJSON(parameters.rows)}}, by: {{parameters.task}}} in {{temp.session}}{{body.missing}}"
    rank_context
  = Returned "{rows: [1,2], by: rank} in s1".
Proof.
  apply (template_placeholders_expanded parse_pair rank_context
           [ Lit "{rows: "; Hole KParseJSON "rows"; Lit ", by: ";
             Hole KParameters "task"; Lit "} in "; Hole KTemp "session";
             Hole KBody "missing" ]).
  repeat constructor.
Defined.

Definition unprintable_context : Context :=
  {| parameters := Some {[ "rows" := JStr "not JSON" ]};
     temp := None;
     body := Some {[ "item" := JObj [("toString", JNum 1)] ]} |}.

(** A [body] value with an own [toString] property has no string form:
    the processor throws the TypeError, and not the exception of the
    [parseJSON] placeholder before it. *)
Example body_without_string_form :
  processImlTemplate parse_pair
    "{{parseJSON(parameters.rows)}} {{body.item}}" unprintable_context
  = Thrown not_primitive.
Proof. reflexivity. Qed.

Definition falsy_context : Context :=
  {| parameters := Some {[ "a" := JStr "{{temp.b}}" ]};
     temp := Some {[ "n" := JNum 0; "b" := JStr "x" ]};
     body := None |}.

(** C7, as the claim has it, fails: a [temp] value that is there but
    falsy is replaced by nothing; a [parameters] value that holds a
    placeholder is replaced in its turn; and a [parseJSON] placeholder of
    a string that is not JSON makes the processor throw. *)
Lemma falsy_value_replaced_by_nothing :
  processImlTemplate parse_pair "n={{temp.n}}" falsy_context = Returned "n="
  /\ processImlTemplate parse_pair "{{parameters.a}}" falsy_context
     = Returned "x"
  /\ processImlTemplate parse_pair "{{parseJSON(parameters.a)}}" falsy_context
     = Thrown "Unexpected token".
Proof. vm_compute. repeat split. Qed.

(** ** What [processImlTemplate] can throw *)

Lemma replace_steps_thrown (n : nat) (pat : Pattern)
  (f : string -> Outcome string) (s e : string) :
  replace_steps n pat f s = Thrown e ->
  exists captured, f captured = Thrown e.
Proof.
  revert s. induction n as [| n IH]; intros s.
  - destruct s; discriminate.
  - destruct s as [| c s']; [discriminate |]. cbn [replace_steps].
    destruct (match_here pat (String c s')) as [[captured rest] |].
    + destruct (f captured) as [r |] eqn:Hf; cbn [and_then].
      * destruct (replace_steps n pat f rest) as [out |] eqn:Hrest;
          cbn [and_then]; [discriminate |].
        intros [= <-]. exact (IH rest Hrest).
      * intros [= <-]. eauto.
    + destruct (replace_steps n pat f s') as [out |] eqn:Hrest;
        cbn [and_then]; [discriminate |].
      intros [= <-]. exact (IH s' Hrest).
Qed.

Lemma replace_parameter_returns (context : Context) (key : string) :
  exists text, replace_parameter context key = Returned text.
Proof.
  unfold replace_parameter.
  destruct (String.eqb_spec
              (typeof (optional_get (parameters context) key)) "object")
    as [| Hty]; [eauto |].
  exact (ValidationFacts.ToString_primitive _ Hty).
Qed.

Lemma replace_or_empty_thrown (value : Value) (e : string) :
  ToString (js_or value (JStr "")) = Thrown e ->
  truthy value = true /\ ToString value = Thrown e.
Proof.
  unfold js_or. destruct (truthy value); [auto | discriminate].
Qed.

(** [processImlTemplate] throws two exceptions only: the TypeError of a
    [temp] or [body] value that is not falsy and has no string form, and
    the exception that [JSON.parse] throws for a parameter that is a
    string.  The first replacement never throws. *)
Theorem template_exceptions
  (JSON_parse : string -> Outcome Value) (template : string)
  (context : Context) :
  match processImlTemplate JSON_parse template context with
  | Returned _ => True
  | Thrown e =>
      (exists key value,
         (value = optional_get (temp context) key
          \/ value = optional_get (body context) key)
         /\ truthy value = true /\ ToString value = Thrown e
         /\ e = not_primitive)
      \/ (exists key text,
             optional_get (parameters context) key = JStr text
             /\ JSON_parse text = Thrown e)
  end.
Proof.
  destruct (processImlTemplate JSON_parse template context) as [out | e]
    eqn:Hrun; [exact I |].
  unfold processImlTemplate, replace_all in Hrun.
  destruct (replace_steps _ parameters_pattern _ template) as [r1 |] eqn:H1;
    cbn [and_then] in Hrun.
  2:{ apply replace_steps_thrown in H1 as [captured Hf].
      destruct (replace_parameter_returns context captured) as [text Htext].
      congruence. }
  destruct (replace_steps _ temp_pattern _ r1) as [r2 |] eqn:H2;
    cbn [and_then] in Hrun.
  2:{ apply replace_steps_thrown in H2 as [captured Hf].
      injection Hrun as <-.
      apply replace_or_empty_thrown in Hf as [Htruthy Hf].
      left. exists captured, (optional_get (temp context) captured).
      repeat split; auto. exact (ValidationFacts.ToString_thrown _ _ Hf). }
  destruct (replace_steps _ body_pattern _ r2) as [r3 |] eqn:H3;
    cbn [and_then] in Hrun.
  2:{ apply replace_steps_thrown in H3 as [captured Hf].
      injection Hrun as <-.
      apply replace_or_empty_thrown in Hf as [Htruthy Hf].
      left. exists captured, (optional_get (body context) captured).
      repeat split; auto. exact (ValidationFacts.ToString_thrown _ _ Hf). }
  apply replace_steps_thrown in Hrun as [captured Hf].
  unfold replace_parseJSON in Hf.
  destruct (find_parameter_ref captured) as [key |]; [| discriminate Hf].
  destruct (optional_get (parameters context) key) as [| | | | text | | |]
    eqn:Hvalue; try discriminate Hf.
  right. exists key, text. split; [exact Hvalue |].
  destruct (JSON_parse text); [discriminate Hf | cbn in Hf; congruence].
Qed.

End TemplateFacts.

(* ===================================================================== *)
(** * Properties: the structure test, the parseJSON flow and [main] of
      scripts/test-module.ts *)
(* ===================================================================== *)

Module SuiteFacts.
Import TestModule TestSuite EffFacts.

(** What the structure test finds in a file: nothing to report, a
    complaint, or an exception. *)
Definition finding (JSON_parse : string -> Outcome Value)
  (content : Outcome string) : Outcome (option string) :=
  and_then content (fun text =>
  and_then (JSON_parse text) (fun module =>
  and_then (missing module requiredFields) (fun missingFields =>
  if 0 <? Z.of_nat (List.length missingFields) then
    Returned (Some ("Missing required fields: " +:+ join ", " missingFields))
  else
    and_then (get_prop module "communication") (fun communication =>
    if negb (isArray communication)
       || (Validation.array_length communication =? 0)
    then Returned (Some "Missing or empty communication array")
    else Returned None)))).

(** The result the structure test records for a file. *)
Definition structure_result (JSON_parse : string -> Outcome Value)
  (entry : string * Outcome string) : TestResult :=
  {| name := "structure:" +:+ MakeApi.remove_first ".imljson" entry.1;
     passed := match finding JSON_parse entry.2 with
               | Returned None => true
               | _ => false
               end;
     error := match finding JSON_parse entry.2 with
              | Returned complaint => complaint
              | Thrown e => Some ("JSON parse error: " +:+ e)
              end;
     details := None |}.

(** A result says it failed exactly when it carries an error. *)
Definition consistent (r : TestResult) : Prop :=
  passed r = true <-> error r = None.

(** A world with more results. *)
Definition record {Api : Type} (w : World Api) (rs : list TestResult)
  : World Api :=
  {| service := service w; results := results w ++ rs |}.

Lemma record_nil {Api : Type} (w : World Api) : record w [] = w.
Proof. destruct w. unfold record. simpl. rewrite app_nil_r. reflexivity. Qed.

Lemma record_app {Api : Type} (w : World Api) (rs rs' : list TestResult) :
  record (record w rs) rs' = record w (rs ++ rs').
Proof. unfold record. simpl. rewrite app_assoc. reflexivity. Qed.

Section Suite.

Variable JSON_parse : string -> Outcome Value.
Variable Api : Type.
Variable serve : Api -> Request -> Reply * Api.

Lemma testModuleFile_run (file : string) (content : Outcome string)
  (w : World Api) :
  testModuleFile JSON_parse Api file content w
  = (Returned tt, record w [structure_result JSON_parse (file, content)], []).
Proof.
  unfold testModuleFile, structure_result, finding, try_catch, bind, lift,
    push_result, modify, record. cbn [fst snd and_then].
  destruct content as [text | e]; cbn [and_then]; [| reflexivity].
  destruct (JSON_parse text) as [module | e]; cbn [and_then]; [| reflexivity].
  destruct (missing module requiredFields) as [missingFields | e];
    cbn [and_then]; [| reflexivity].
  destruct (0 <? Z.of_nat (List.length missingFields)); [reflexivity |].
  destruct (get_prop module "communication") as [communication | e];
    cbn [and_then]; [| reflexivity].
  destruct (negb (isArray communication) || _); reflexivity.
Qed.

Lemma testModuleFiles_run (files : list (string * Outcome string))
  (w : World Api) :
  testModuleFiles JSON_parse Api files w
  = (Returned tt, record w (structure_result JSON_parse <$> files), []).
Proof.
  revert w. induction files as [| [file content] files IH]; intros w.
  - simpl. rewrite record_nil. reflexivity.
  - cbn [testModuleFiles]. unfold bind. rewrite testModuleFile_run, IH.
    rewrite record_app. reflexivity.
Qed.

Lemma testModuleStructure_run (entries : list (string * Outcome string))
  (w : World Api) :
  testModuleStructure JSON_parse Api (Returned entries) w
  = (Returned tt,
     record w (structure_result JSON_parse <$> MakeApi.imljson_files entries),
     []).
Proof.
  unfold testModuleStructure.
  rewrite (bind_returned _ _ w w entries [] eq_refl), testModuleFiles_run.
  reflexivity.
Qed.

Lemma structure_result_consistent (entry : string * Outcome string) :
  consistent (structure_result JSON_parse entry).
Proof.
  unfold consistent, structure_result. simpl.
  destruct (finding JSON_parse entry.2) as [[complaint |] | e];
    split; congruence.
Qed.

(** A module definition with what the structure test asks for: a truthy
    label, type and connection, and a communication array that is not
    empty. *)
Definition has_field (module : Value) (f : string) : Prop :=
  exists v, get_prop module f = Returned v /\ truthy v = true.

Definition well_structured (module : Value) : Prop :=
  Forall (has_field module) requiredFields
  /\ exists items,
       get_prop module "communication" = Returned (JArr items)
       /\ items <> [].

Lemma missing_spec (module : Value) (fields : list string) :
  match missing module fields with
  | Returned missingFields =>
      missingFields = [] <-> Forall (has_field module) fields
  | Thrown _ => ~ Forall (has_field module) fields
  end.
Proof.
  induction fields as [| f fields IH]; cbn [missing].
  - split; [constructor | reflexivity].
  - destruct (get_prop module f) as [v |] eqn:Hf; cbn [and_then].
    + destruct (missing module fields) as [others |]; cbn [and_then].
      * destruct (truthy v) eqn:Hv; cbn [negb].
        -- rewrite IH. split.
           ++ intros H. constructor; [exists v; auto | exact H].
           ++ intros H. inversion H; assumption.
        -- split; [discriminate |]. intros H. inversion H as [| ? ? Hhas _].
           destruct Hhas as (v' & Hv' & Htruthy). congruence.
      * intros H. inversion H; auto.
    + intros H. inversion H as [| ? ? Hhas _].
      destruct Hhas as (v' & Hv' & _). congruence.
Qed.

Lemma finding_none (content : Outcome string) :
  finding JSON_parse content = Returned None
  <-> exists text module,
        content = Returned text /\ JSON_parse text = Returned module
        /\ well_structured module.
Proof.
  unfold finding, well_structured. split.
  - destruct content as [text |]; cbn [and_then]; [| discriminate].
    destruct (JSON_parse text) as [module |] eqn:Hparse; cbn [and_then];
      [| discriminate].
    pose proof (missing_spec module requiredFields) as Hmissing.
    destruct (missing module requiredFields) as [missingFields |];
      cbn [and_then]; [| discriminate].
    destruct missingFields as [| f others]; [| discriminate].
    cbn [List.length Z.of_nat Z.ltb Z.compare].
    destruct (get_prop module "communication") as [communication |] eqn:Hc;
      cbn [and_then]; [| discriminate].
    destruct communication as [| | | | | items | |]; try discriminate.
    destruct items as [| x items]; [discriminate |]. intros _.
    exists text, module. split; [reflexivity |]. split; [exact Hparse |].
    split; [apply Hmissing; reflexivity |].
    exists (x :: items). split; [exact Hc | discriminate].
  - intros (text & module & -> & Hparse & Hfields & items & Hc & Hitems).
    cbn [and_then]. rewrite Hparse. cbn [and_then].
    pose proof (missing_spec module requiredFields) as Hmissing.
    destruct (missing module requiredFields) as [missingFields |];
      [| contradiction].
    apply Hmissing in Hfields as ->. cbn [and_then List.length].
    rewrite Hc. cbn [and_then]. destruct items; [contradiction | reflexivity].
Qed.

(** Test 1 issues no request and settles every file on its own: it throws
    only when the directory cannot be listed, and then records nothing;
    otherwise it records one result for each .imljson file, in directory
    order, named after the file, and a result that failed carries an
    error. *)
Theorem structure_test_records_each_file (modulesDir : ModulesDir)
  (w : World Api) :
  let run := testModuleStructure JSON_parse Api modulesDir w in
  trace run = []
  /\ service (final run) = service w
  /\ match modulesDir with
     | Thrown e => outcome run = Thrown e /\ results (final run) = results w
     | Returned entries =>
         outcome run = Returned tt
         /\ exists rs,
              results (final run) = results w ++ rs
              /\ name <$> rs
                 = (fun entry =>
                      "structure:" +:+ MakeApi.remove_first ".imljson" entry.1)
                   <$> MakeApi.imljson_files entries
              /\ Forall consistent rs
     end.
Proof.
  intros run. subst run. unfold testModuleStructure.
  destruct modulesDir as [entries | e].
  - rewrite (bind_returned _ _ w w entries [] eq_refl).
    rewrite testModuleFiles_run. repeat split.
    exists (structure_result JSON_parse <$> MakeApi.imljson_files entries).
    repeat split.
    + rewrite <- list_fmap_compose. reflexivity.
    + apply Forall_fmap, Forall_forall. intros entry _.
      apply structure_result_consistent.
  - repeat split.
Qed.

(** Test 1 passes a file exactly when the file can be read, its text is
    JSON, and the value has a truthy label, type and connection and a
    communication array that is not empty. *)
Theorem structure_test_passes_well_structured (file : string)
  (content : Outcome string) (w : World Api) :
  let run := testModuleFile JSON_parse Api file content w in
  exists r,
    results (final run) = results w ++ [r]
    /\ (passed r = true
        <-> exists text module,
              content = Returned text /\ JSON_parse text = Returned module
              /\ well_structured module).
Proof.
  intros run. subst run. rewrite testModuleFile_run.
  exists (structure_result JSON_parse (file, content)).
  split; [reflexivity |]. rewrite <- finding_none.
  unfold structure_result. cbn [passed snd].
  destruct (finding JSON_parse content) as [[complaint |] | e];
    split; congruence.
Qed.

(** *** Test 5 *)

Definition parse_session_request : Request :=
  {| method := POST; endpoint := "/sessions/create";
     payload := Some (JObj [("name", JStr "Test parseJSON Flow")]) |}.

Definition parse_tasks_request (sessionId parsed : Value) : Request :=
  {| method := POST; endpoint := "/tasks";
     payload := Some (parsed_group_body sessionId parsed) |}.

(** Runs test 5 through, case by case. *)
Ltac run_parse_flow w :=
  unfold testParseJsonFlow, try_catch, bind, apiRequest, lift, throw,
    push_result, modify, outcome, final, trace;
  cbn [fst snd];
  destruct (serve (service w) _) as [[e1 | s1 [d1 | e1]] api1] eqn:Hserve1;
  cbn [fst snd results service];
  [ | destruct (get_prop d1 "session_id") as [sid | e] eqn:Hsid;
      cbn [fst snd];
      [ unfold logged;
        destruct (ToString sid) as [text1 | e] eqn:Hlog1;
        cbn [and_then fst snd];
        [ destruct (JSON_parse (stringify_text TEST_DATA)) as [parsed | e]
            eqn:Hparse; cbn [fst snd];
          [ destruct (serve api1 _) as [[e2 | s2 [d2 | e2]] api2] eqn:Hserve2;
            cbn [fst snd results service];
            [ | destruct (bad_status s2) eqn:Hstatus; cbn [fst snd];
                [ | destruct (get_prop d2 "task_id") as [tid | e] eqn:Htid;
                    cbn [fst snd];
                    [ destruct (ToString tid) as [text2 | e] eqn:Hlog2;
                      cbn [and_then fst snd results service]
                    | ] ]
              | ]
          | ]
        | ]
      | ]
  | ].

Lemma testParseJsonFlow_result (w : World Api) :
  let run := testParseJsonFlow JSON_parse Api serve w in
  outcome run = Returned tt
  /\ exists r,
       results (final run) = results w ++ [r]
       /\ name r = "api:parseJsonFlow".
Proof.
  intros run. subst run.
  run_parse_flow w; (split; [reflexivity |]); eexists; split; reflexivity.
Qed.

(** Test 5 never throws and never waits: it issues the create-session
    request, then at most the create-artifact request, and records one
    result, which carries an error when it failed. *)
Theorem parse_flow_records_one_result (w : World Api) :
  let run := testParseJsonFlow JSON_parse Api serve w in
  outcome run = Returned tt
  /\ (exists r,
        results (final run) = results w ++ [r]
        /\ name r = "api:parseJsonFlow" /\ consistent r)
  /\ exists calls : list (Request * Reply),
       trace run = (fun c => Call c.1 c.2) <$> calls
       /\ (fun c => (method c.1, endpoint c.1)) <$> calls
          `prefix_of` [(POST, "/sessions/create"); (POST, "/tasks")].
Proof.
  intros run. subst run. unfold consistent.
  run_parse_flow w;
    (split; [reflexivity |]);
    (split; [eexists; split; [reflexivity |]; split; [reflexivity |];
             cbn [passed error]; split; congruence |]);
    first
      [ eexists [(_, _)]; split; [reflexivity |];
        exists [(POST, "/tasks")]; reflexivity
      | eexists [(_, _); (_, _)]; split; [reflexivity |];
        exists []; reflexivity ].
Qed.

(** Test 5 passes exactly when the create-session request is answered with
    JSON data that is neither [null] nor [undefined], whatever the status
    of that answer, and whose [session_id] has a string form; the JSON
    text of the test data parses; and the create-artifact request, which
    carries the session id read from the first answer and the parsed data,
    is answered with the status 200 or 201 and JSON data that is neither
    [null] nor [undefined] and whose [task_id] has a string form. *)
Theorem parse_flow_passes (w : World Api) :
  let run := testParseJsonFlow JSON_parse Api serve w in
  exists r,
    results (final run) = results w ++ [r]
    /\ (passed r = true
        <-> exists s1 d1 sid text1 parsed s2 d2 tid text2,
              trace run
              = [ Call parse_session_request (Response s1 (Returned d1));
                  Call (parse_tasks_request sid parsed)
                       (Response s2 (Returned d2)) ]
              /\ get_prop d1 "session_id" = Returned sid
              /\ ToString sid = Returned text1
              /\ JSON_parse (stringify_text TEST_DATA) = Returned parsed
              /\ bad_status s2 = false
              /\ get_prop d2 "task_id" = Returned tid
              /\ ToString tid = Returned text2).
Proof.
  intros run. subst run.
  run_parse_flow w;
    (eexists; split; [reflexivity |]); cbn [passed];
    (split;
     [ first [ discriminate
             | intros _; exists s1, d1, sid, text1, parsed, s2, d2, tid, text2;
               repeat split; assumption ]
     | intros (s1' & d1' & sid' & text1' & parsed' & s2' & d2' & tid' & text2'
               & Htrace & Hsid' & Hlog1' & Hparse' & Hstatus' & Htid'
               & Hlog2');
       first [ reflexivity
             | discriminate Htrace
             | injection Htrace; intros; subst; congruence ] ]).
Qed.

(** *** [main] *)

Lemma testStartRankTaskFlow_result (module : Value) (w : World Api) :
  let run := testStartRankTaskFlow Api serve (Returned module) w in
  outcome run = Returned tt
  /\ exists r,
       results (final run) = results w ++ [r]
       /\ name r = "api:startRankTask".
Proof.
  intros run. subst run.
  pose proof (FlowFacts.flow_has_shape Api serve (Returned module) w) as Hshape.
  inversion Hshape; subst; (split; [reflexivity |]); eexists;
    split; reflexivity.
Qed.

Lemma testStartRankTaskFlow_no_file (e : string) (w : World Api) :
  testStartRankTaskFlow Api serve (Thrown e) w = (Thrown e, w, []).
Proof. reflexivity. Qed.

Lemma none_failed (rs : list TestResult) :
  List.filter (fun r => negb (passed r)) rs = []
  <-> Forall (fun r => passed r = true) rs.
Proof.
  induction rs as [| r rs IH]; simpl.
  - split; [constructor | reflexivity].
  - destruct (passed r) eqn:Hr; simpl.
    + rewrite IH. split; [intros H; constructor; assumption |].
      intros H. inversion H; assumption.
    + split; [discriminate |]. intros H. inversion H; congruence.
Qed.

Lemma some_failed (rs : list TestResult) (r : TestResult)
  (failed : list TestResult) :
  List.filter (fun r => negb (passed r)) rs = r :: failed ->
  Exists (fun r => passed r = false) rs.
Proof.
  intros Hfailed. apply Exists_exists. exists r.
  assert (Hin : In r (List.filter (fun r => negb (passed r)) rs))
    by (rewrite Hfailed; left; reflexivity).
  apply filter_In in Hin as [Hin Hr]. split.
  - apply list_elem_of_In, Hin.
  - destruct (passed r); [discriminate | reflexivity].
Qed.

(** How [main] may end, given the results in the end. *)
Definition exit_matches (o : Outcome MakeApi.MainEnd) (rs : list TestResult)
  : Prop :=
  match o with
  | Returned MakeApi.Exit1 => Exists (fun r => passed r = false) rs
  | Returned MakeApi.Complete => Forall (fun r => passed r = true) rs
  | Thrown _ => True
  end.

Lemma main_exit_matches (modulesDir : ModulesDir)
  (module_file : Outcome Value) (w : World Api) :
  let run := main JSON_parse Api serve modulesDir module_file w in
  exit_matches (outcome run) (results (final run)).
Proof.
  intros run. subst run. revert w.
  change (ends (fun o w => exit_matches o (results w))
               (main JSON_parse Api serve modulesDir module_file)).
  unfold main.
  do 3 (apply ends_bind; [intros; exact I | intros ?]).
  intros w. unfold bind, read, outcome, final. cbn [fst snd].
  destruct (List.filter _ (results w)) as [| r failed] eqn:Hfailed;
    cbn [List.length Z.of_nat Z.ltb Z.compare fst snd ret].
  - apply none_failed, Hfailed.
  - eapply some_failed, Hfailed.
Qed.

(** The environment holds an API key that is not empty. *)
Definition has_key (EVERYROW_API_KEY : option string) : bool :=
  match EVERYROW_API_KEY with
  | Some key => negb (String.eqb key "")
  | None => false
  end.

(** Without an API key the script exits with 1 before it does anything.
    With one, [main] runs the three tests in order, and no answer of the
    API makes it reject: it rejects only when the modules directory cannot
    be listed, before any test, or when startRankTask.imljson cannot be
    read and parsed, after the structure test and before any request.
    When it returns, [results] has gained one result for each module file,
    in order, then the result of the rank flow and the result of the
    parseJSON flow; it returns by [process.exit(1)] only with a failed
    result, and normally only without one. *)
Theorem test_script_runs_all_tests (EVERYROW_API_KEY : option string)
  (modulesDir : ModulesDir) (module_file : Outcome Value) (w : World Api) :
  let run := script JSON_parse Api serve EVERYROW_API_KEY modulesDir
               module_file w in
  if has_key EVERYROW_API_KEY then
    exit_matches (outcome run) (results (final run))
    /\ match modulesDir, module_file with
       | Thrown e, _ => run = (Thrown e, w, [])
       | Returned entries, Thrown e =>
           outcome run = Thrown e /\ trace run = []
           /\ results (final run)
              = results w
                ++ (structure_result JSON_parse
                      <$> MakeApi.imljson_files entries)
       | Returned entries, Returned _ =>
           exists rank parse,
             (outcome run = Returned MakeApi.Exit1
              \/ outcome run = Returned MakeApi.Complete)
             /\ results (final run)
                = results w
                  ++ (structure_result JSON_parse
                        <$> MakeApi.imljson_files entries)
                  ++ [rank; parse]
             /\ name rank = "api:startRankTask"
             /\ name parse = "api:parseJsonFlow"
       end
  else run = (Returned MakeApi.Exit1, w, []).
Proof.
  intros run. subst run. unfold script.
  destruct EVERYROW_API_KEY as [key |]; cbn [has_key truthy];
    [| reflexivity].
  destruct (negb (String.eqb key "")); cbn [negb]; [| reflexivity].
  split; [apply main_exit_matches |].
  destruct modulesDir as [entries | e]; [| destruct module_file; reflexivity].
  pose proof (testModuleStructure_run entries w) as Hrun1.
  set (w1 := record w _) in Hrun1.
  destruct module_file as [module | e].
  - destruct (testStartRankTaskFlow_result module w1)
      as (Hreturned2 & rank & Hresults2 & Hrank).
    destruct (testStartRankTaskFlow Api serve (Returned module) w1)
      as [[o2 w2] t2] eqn:Hrun2.
    unfold outcome, final in Hreturned2, Hresults2.
    cbn [fst snd] in Hreturned2, Hresults2. subst o2.
    destruct (testParseJsonFlow_result w2)
      as (Hreturned3 & parse & Hresults3 & Hparse).
    destruct (testParseJsonFlow JSON_parse Api serve w2)
      as [[o3 w3] t3] eqn:Hrun3.
    unfold outcome, final in Hreturned3, Hresults3.
    cbn [fst snd] in Hreturned3, Hresults3. subst o3.
    assert (Hfinal : results w3
                     = results w
                       ++ (structure_result JSON_parse
                             <$> MakeApi.imljson_files entries)
                       ++ [rank; parse]).
    { rewrite Hresults3, Hresults2. subst w1. cbn [record results].
      rewrite <- !app_assoc. reflexivity. }
    exists rank, parse.
    unfold main, bind, read, outcome, final, trace.
    rewrite Hrun1, Hrun2, Hrun3. cbn [fst snd].
    destruct (0 <? _); cbn [fst snd]; auto.
  - unfold main, bind, outcome, final, trace.
    rewrite Hrun1, testStartRankTaskFlow_no_file. cbn [fst snd].
    repeat split.
Qed.

End Suite.

End SuiteFacts.

(* ===================================================================== *)
(** * Properties: parameters of the other types *)
(* ===================================================================== *)

Module ParameterFacts.
Import Validation TestModule ValidationFacts.

(** Takes the validator or an iteration of the simulation apart, branch by
    branch. *)
Ltac branches :=
  repeat match goal with
         | |- context [if ?b then _ else _] => destruct b eqn:?
         | |- context [match ?x with _ => _ end] => destruct x eqn:?
         end.

(** A validation result is invalid exactly when it has an error; it never
    has more than one, and an invalid result has no warnings. *)
Theorem validation_errors_decide (param : ModuleParameter) (v : Value) :
  let r := validateMakecomParameter param v in
  (valid r = true <-> errors r = [])
  /\ (List.length (errors r) <= 1)%nat
  /\ (valid r = true \/ warnings r = []).
Proof.
  intros r. subst r. unfold validateMakecomParameter.
  branches; cbn [valid errors warnings List.length];
    (split; [split; congruence |]); (split; [lia | auto]).
Qed.

(** For a parameter declared with type [array], the validator accepts a
    value exactly when it is an array, required or not; and the simulation
    throws exactly when the validator rejects the value the simulation
    works with. *)
Theorem array_parameter_needs_array (param : ModuleParameter) :
  p_type param = "array" ->
  (forall v, valid (validateMakecomParameter param v) = isArray v)
  /\ (forall iv,
        is_thrown (simulateMakecomParameters [param] iv)
        = negb (valid (validateMakecomParameter param
                         (effective_value param iv)))).
Proof.
  intros Harray.
  assert (Hvalid : forall v,
             valid (validateMakecomParameter param v) = isArray v).
  { intros v. unfold validateMakecomParameter. rewrite Harray.
    cbn [String.eqb Ascii.eqb Bool.eqb].
    destruct (truthy (p_required param)); destruct v; cbn;
      branches; reflexivity. }
  split; [exact Hvalid |]. intros iv. rewrite Hvalid.
  unfold simulateMakecomParameters. cbn [simulate_loop].
  unfold simulate_parameter. rewrite Harray.
  cbn [String.eqb Ascii.eqb Bool.eqb].
  destruct (isArray (effective_value param iv)); reflexivity.
Qed.

(** A type that needs no particular value: any but [text] and [array]. *)
Definition free_type (param : ModuleParameter) : Prop :=
  p_type param <> "text" /\ p_type param <> "array".

Lemma simulate_parameter_free (param : ModuleParameter)
  (iv r : gmap string Value) :
  free_type param -> exists r', simulate_parameter param iv r = Returned r'.
Proof.
  intros [Htext Harray]. unfold simulate_parameter.
  destruct (String.eqb_spec (p_type param) "text"); [contradiction |].
  destruct (String.eqb_spec (p_type param) "array"); [contradiction |].
  destruct (String.eqb (p_type param) "boolean"); eauto.
Qed.

(** Parameters of the types [boolean] and [select], and of unknown types,
    are never refused for their value: the validator rejects one only
    when it is required and the value is [undefined] or [null], and the
    simulation of such parameters never throws. *)
Theorem free_types_accept_any_value (ps : list ModuleParameter) :
  Forall free_type ps ->
  (forall param v,
      param ∈ ps ->
      valid (validateMakecomParameter param v)
      = negb (missing_required param v))
  /\ (forall iv, exists r, simulateMakecomParameters ps iv = Returned r).
Proof.
  intros Hfree. split.
  - intros param v Hin. rewrite Forall_forall in Hfree.
    destruct (Hfree param Hin) as [Htext Harray].
    unfold validateMakecomParameter, missing_required.
    destruct (truthy (p_required param) && _); [reflexivity |].
    destruct (String.eqb_spec (p_type param) "text"); [contradiction |].
    destruct (String.eqb_spec (p_type param) "array"); [contradiction |].
    branches; reflexivity.
  - intros iv. unfold simulateMakecomParameters. generalize (∅ : gmap string Value).
    induction Hfree as [| param ps Hparam _ IH]; intros r; cbn [simulate_loop].
    + eauto.
    + destruct (simulate_parameter_free param iv r Hparam) as [r' ->].
      apply IH.
Qed.

(** The string form of a value that has one. *)
Definition text_of (v : Value) : string :=
  match ToString v with
  | Returned text => text
  | Thrown _ => ""
  end.

(** What the simulation stores for a parameter. *)
Definition converted (param : ModuleParameter) (iv : gmap string Value)
  : Value :=
  let value := effective_value param iv in
  if String.eqb (p_type param) "text" then JStr (text_of value)
  else if String.eqb (p_type param) "boolean" then JBool (truthy value)
  else value.

Lemma simulate_parameter_returned (param : ModuleParameter)
  (iv r r' : gmap string Value) :
  simulate_parameter param iv r = Returned r' ->
  r' = record_set r (p_name param) (converted param iv).
Proof.
  unfold simulate_parameter, converted, text_of.
  destruct (String.eqb_spec (p_type param) "text") as [Htext |].
  - destruct (String.eqb _ "object"); [discriminate |].
    destruct (ToString (effective_value param iv)); cbn [and_then];
      [congruence | discriminate].
  - destruct (String.eqb_spec (p_type param) "array") as [Harray |].
    + rewrite Harray. cbn [String.eqb Ascii.eqb Bool.eqb].
      destruct (negb _); [discriminate | congruence].
    + destruct (String.eqb (p_type param) "boolean"); congruence.
Qed.

Lemma record_set_lookup (r : gmap string Value) (k k' : string) (x : Value) :
  record_set r k x !! k'
  = if String.eqb k "__proto__" then r !! k'
    else if String.eqb k k' then Some x else r !! k'.
Proof.
  unfold record_set. destruct (String.eqb k "__proto__"); [reflexivity |].
  destruct (String.eqb_spec k k') as [-> | Hne].
  - apply lookup_insert_eq.
  - apply lookup_insert_ne, Hne.
Qed.

Lemma simulate_loop_other (ps : list ModuleParameter)
  (iv r r' : gmap string Value) (k : string) :
  simulate_loop ps iv r = Returned r' ->
  k ∉ p_name <$> ps -> r' !! k = r !! k.
Proof.
  revert r. induction ps as [| param ps IH]; intros r; cbn [simulate_loop].
  - intros [= ->] _. reflexivity.
  - destruct (simulate_parameter param iv r) as [r1 |] eqn:Hparam;
      cbn [and_then]; [| discriminate].
    intros Hloop Hk. rewrite fmap_cons in Hk.
    apply not_elem_of_cons in Hk as [Hne Hk].
    rewrite (IH r1 Hloop Hk).
    rewrite (simulate_parameter_returned _ _ _ _ Hparam), record_set_lookup.
    destruct (String.eqb (p_name param) "__proto__"); [reflexivity |].
    destruct (String.eqb_spec (p_name param) k); [congruence | reflexivity].
Qed.

(** When the simulation returns, and no two parameters share a name, the
    result holds for each parameter the value the simulation converted
    (the string form for [text], the truth value for [boolean], the value
    itself otherwise), and nothing else: inputs that are not declared as
    parameters are left out.  The name [__proto__] stores nothing. *)
Theorem simulation_stores_each_parameter (ps : list ModuleParameter)
  (iv r : gmap string Value) :
  simulateMakecomParameters ps iv = Returned r ->
  NoDup (p_name <$> ps) ->
  (forall param,
      param ∈ ps -> p_name param <> "__proto__" ->
      r !! p_name param = Some (converted param iv))
  /\ (forall k, k ∉ p_name <$> ps -> r !! k = None)
  /\ r !! "__proto__" = None.
Proof.
  unfold simulateMakecomParameters. intros Hrun Hnodup.
  assert (Hproto : forall ps r0 r',
             simulate_loop ps iv r0 = Returned r' ->
             r' !! "__proto__" = r0 !! "__proto__").
  { clear. induction ps as [| param ps IH]; intros r0 r'; cbn [simulate_loop].
    - intros [= ->]. reflexivity.
    - destruct (simulate_parameter param iv r0) as [r1 |] eqn:Hparam;
        cbn [and_then]; [| discriminate].
      intros Hloop. rewrite (IH r1 r' Hloop).
      rewrite (simulate_parameter_returned _ _ _ _ Hparam), record_set_lookup.
      destruct (String.eqb_spec (p_name param) "__proto__") as [| Hne];
        [reflexivity |].
      destruct (String.eqb_spec (p_name param) "__proto__");
        [contradiction | reflexivity]. }
  split; [| split].
  - revert Hrun Hnodup. generalize (∅ : gmap string Value).
    induction ps as [| first ps IH]; intros r0 Hrun Hnodup param Hin Hname.
    + inversion Hin.
    + cbn [simulate_loop] in Hrun.
      destruct (simulate_parameter first iv r0) as [r1 |] eqn:Hfirst;
        cbn [and_then] in Hrun; [| discriminate].
      rewrite fmap_cons in Hnodup. apply NoDup_cons in Hnodup as [Hnew Hnodup].
      apply elem_of_cons in Hin as [-> | Hin].
      * rewrite (simulate_loop_other _ _ _ _ _ Hrun Hnew).
        rewrite (simulate_parameter_returned _ _ _ _ Hfirst), record_set_lookup.
        destruct (String.eqb_spec (p_name first) "__proto__");
          [contradiction |].
        rewrite String.eqb_refl. reflexivity.
      * exact (IH r1 Hrun Hnodup param Hin Hname).
  - intros k Hk. rewrite (simulate_loop_other _ _ _ _ _ Hrun Hk).
    apply lookup_empty.
  - rewrite (Hproto _ _ _ Hrun). apply lookup_empty.
Qed.

Definition sessionName_text : ModuleParameter :=
  {| p_name := "sessionName"; p_type := "text"; p_required := JBool true;
     p_default := JStr "Session"; p_spec := JUndef |}.

Definition rows_array : ModuleParameter :=
  {| p_name := "rows"; p_type := "array"; p_required := JUndef;
     p_default := JUndef; p_spec := JArr [] |}.

Definition ascending_boolean : ModuleParameter :=
  {| p_name := "ascendingOrder"; p_type := "boolean"; p_required := JUndef;
     p_default := JUndef; p_spec := JUndef |}.

(** An array parameter given a string: the validator rejects it and the
    simulation throws. *)
Lemma array_parameter_needs_array_witness :
  valid (validateMakecomParameter rows_array (JStr "[1,2]")) = false
  /\ is_thrown (simulateMakecomParameters [rows_array]
                  {[ "rows" := JStr "[1,2]" ]}) = true.
Proof.
  pose proof (array_parameter_needs_array rows_array eq_refl) as [Hv Hs].
  split; [rewrite Hv; reflexivity |].
  rewrite Hs, Hv. reflexivity.
Defined.

(** A boolean parameter given a number is accepted and simulated. *)
Lemma free_types_accept_any_value_witness :
  valid (validateMakecomParameter ascending_boolean (JNum 0)) = true
  /\ exists r,
       simulateMakecomParameters [ascending_boolean]
         {[ "ascendingOrder" := JNum 0 ]} = Returned r.
Proof.
  assert (Hfree : Forall free_type [ascending_boolean])
    by (repeat constructor; discriminate).
  destruct (free_types_accept_any_value [ascending_boolean] Hfree)
    as [Hv Hs].
  split; [| apply Hs].
  rewrite Hv; [reflexivity | apply list_elem_of_here].
Defined.

(** Three parameters, one input left out, one input not declared. *)
Lemma simulation_stores_each_parameter_witness :
  exists r,
    simulateMakecomParameters [sessionName_text; rows_array; ascending_boolean]
      {[ "rows" := JArr [JNum 1]; "ascendingOrder" := JNum 0;
         "extra" := JStr "dropped" ]} = Returned r
    /\ r !! "sessionName" = Some (JStr "Session")
    /\ r !! "ascendingOrder" = Some (JBool false)
    /\ r !! "extra" = None.
Proof.
  destruct (simulateMakecomParameters
              [sessionName_text; rows_array; ascending_boolean]
              {[ "rows" := JArr [JNum 1]; "ascendingOrder" := JNum 0;
                 "extra" := JStr "dropped" ]}) as [r | e] eqn:Hrun;
    [| vm_compute in Hrun; discriminate Hrun].
  exists r. split; [reflexivity |].
  assert (Hnodup : NoDup (p_name <$>
                            [sessionName_text; rows_array; ascending_boolean])).
  { apply (bool_decide_unpack _). vm_compute. reflexivity. }
  destruct (simulation_stores_each_parameter _ _ _ Hrun Hnodup)
    as (Hstored & Hother & _).
  split; [| split].
  - refine (Hstored sessionName_text _ _); [| discriminate].
    apply list_elem_of_here.
  - refine (Hstored ascending_boolean _ _); [| discriminate].
    do 2 apply list_elem_of_further. apply list_elem_of_here.
  - apply Hother. apply (bool_decide_unpack _). vm_compute. reflexivity.
Defined.

End ParameterFacts.

(* ===================================================================== *)
(** * Properties: what each deploy function requests *)
(* ===================================================================== *)

Module RequestFacts.
Import MakeApi EffFacts.

(** What a request asks for: its method and its endpoint. *)
Definition asked (ev : Event) : Method * Endpoint :=
  (method ev.1, endpoint ev.1).

Section Rules.
Context {W : Type}.

(** The requests of a computation are among [expected], in that order,
    each at most once. *)
Definition issues (expected : list (Method * Endpoint)) {A}
  (m : M W Event A) : Prop :=
  forall w, asked <$> trace (m w) `sublist_of` expected.

Lemma issues_silent {A} (m : M W Event A) (expected : list (Method * Endpoint)) :
  (forall w, trace (m w) = []) -> issues expected m.
Proof. intros Hm w. rewrite Hm. apply sublist_nil_l. Qed.

Lemma issues_skip {A} (m : M W Event A) (x : Method * Endpoint)
  (expected : list (Method * Endpoint)) :
  issues expected m -> issues (x :: expected) m.
Proof. intros Hm w. apply sublist_cons, Hm. Qed.

Lemma issues_bind {A B} (l1 l2 : list (Method * Endpoint))
  (m : M W Event A) (k : A -> M W Event B) :
  issues l1 m -> (forall a, issues l2 (k a)) -> issues (l1 ++ l2) (bind m k).
Proof.
  intros Hm Hk w. specialize (Hm w).
  destruct (m w) as [[[a | e] w1] t1] eqn:Hrun.
  - rewrite (bind_returned _ _ _ _ _ _ Hrun). unfold trace at 1.
    cbn [fst snd]. rewrite fmap_app. apply sublist_app; [exact Hm | apply Hk].
  - rewrite (bind_thrown _ _ _ _ _ _ Hrun).
    apply sublist_inserts_r. exact Hm.
Qed.

Lemma issues_try {A} (l1 l2 : list (Method * Endpoint))
  (m : M W Event A) (h : string -> M W Event A) :
  issues l1 m -> (forall e, issues l2 (h e)) ->
  issues (l1 ++ l2) (try_catch m h).
Proof.
  intros Hm Hh w. specialize (Hm w).
  destruct (m w) as [[[a | e] w1] t1] eqn:Hrun.
  - rewrite (try_returned _ _ _ _ _ _ Hrun).
    apply sublist_inserts_r. exact Hm.
  - rewrite (try_thrown _ _ _ _ _ _ Hrun). unfold trace at 1.
    cbn [fst snd]. rewrite fmap_app. apply sublist_app; [exact Hm | apply Hh].
Qed.

(** A step that issues nothing, then the rest. *)
Lemma issues_after {A B} (expected : list (Method * Endpoint))
  (m : M W Event A) (k : A -> M W Event B) :
  (forall w, trace (m w) = []) -> (forall a, issues expected (k a)) ->
  issues expected (bind m k).
Proof.
  intros Hm Hk. apply (issues_bind [] expected); [| exact Hk].
  apply issues_silent, Hm.
Qed.

(** A step that issues at most [x], then the rest. *)
Lemma issues_then {A B} (x : Method * Endpoint)
  (expected : list (Method * Endpoint))
  (m : M W Event A) (k : A -> M W Event B) :
  issues [x] m -> (forall a, issues expected (k a)) ->
  issues (x :: expected) (bind m k).
Proof. apply (issues_bind [x] expected). Qed.

(** A handler that issues nothing. *)
Lemma issues_guarded {A} (expected : list (Method * Endpoint))
  (m : M W Event A) (h : string -> M W Event A) :
  issues expected m -> (forall e w, trace (h e w) = []) ->
  issues expected (try_catch m h).
Proof.
  intros Hm Hh. rewrite <- (app_nil_r expected).
  apply issues_try; [exact Hm |]. intros e. apply issues_silent, Hh.
Qed.

Lemma asked_in_first {A B} (m : M W Event A) (k : A -> M W Event B) (w : W)
  (x : Method * Endpoint) :
  x ∈ asked <$> trace (m w) -> x ∈ asked <$> trace (bind m k w).
Proof.
  intros Hx. rewrite trace_bind, fmap_app. apply elem_of_app. left. exact Hx.
Qed.

Lemma asked_after_lift {A B} (a : A) (k : A -> M W Event B) (w : W)
  (x : Method * Endpoint) :
  x ∈ asked <$> trace (k a w) ->
  x ∈ asked <$> trace (bind (lift (Returned a)) k w).
Proof. intros Hx. rewrite trace_bind. exact Hx. Qed.

Lemma issues_not_asked {A} (expected : list (Method * Endpoint))
  (m : M W Event A) (x : Method * Endpoint) (w : W) :
  issues expected m -> x ∉ expected -> x ∉ asked <$> trace (m w).
Proof.
  intros Hm Hx Hin. apply Hx. eapply elem_of_sublist; [exact Hin | apply Hm].
Qed.

End Rules.

(** Steps through a computation whose requests are listed. *)
Ltac issues_tac leaf :=
  repeat first
    [ progress cbv zeta
    | match goal with
      | |- issues _ (bind (if ?b then _ else _) _) => destruct b
      | |- issues _ (if ?b then _ else _) => destruct b
      end
    | apply issues_guarded; [| solve [intros ?; silent_tac] ]
    | apply issues_after; [solve [silent_tac] | intros ?]
    | apply issues_then; [solve [issues_tac leaf] | intros ?]
    | apply issues_silent; reflexivity
    | leaf
    | apply issues_skip ].

(** ** The listing of what exists *)

Lemma strict_eq_true (a b : Value) : strict_eq a b = true -> a = b.
Proof.
  destruct a, b; cbn; try discriminate; try reflexivity.
  - intros H. apply Bool.eqb_prop in H. congruence.
  - intros H. apply Z.eqb_eq in H. congruence.
  - intros H. apply String.eqb_eq in H. congruence.
  - intros H. apply String.eqb_eq in H. congruence.
Qed.

Lemma strict_eq_string (s : string) : strict_eq (JStr s) (JStr s) = true.
Proof. apply String.eqb_refl. Qed.

(** [map.get] after [map.set], for a string. *)
Lemma map_get_set (m : JsMap) (k v : Value) (s : string) :
  map_get (map_set m k v) (JStr s)
  = if strict_eq k (JStr s) then v else map_get m (JStr s).
Proof.
  induction m as [| [k' v'] m IH]; cbn [map_set map_get]; [reflexivity |].
  destruct (strict_eq k' k) eqn:Hk'; cbn [map_get].
  - apply strict_eq_true in Hk' as ->.
    destruct (strict_eq k (JStr s)); reflexivity.
  - rewrite IH. destruct (strict_eq k' (JStr s)) eqn:Hs; [| reflexivity].
    destruct (strict_eq k (JStr s)) eqn:Hs'; [| reflexivity].
    apply strict_eq_true in Hs, Hs'. subst.
    rewrite strict_eq_string in Hk'. discriminate.
Qed.

Lemma map_has_set (m : JsMap) (k v : Value) (s : string) :
  map_has (map_set m k v) (JStr s)
  = strict_eq k (JStr s) || map_has m (JStr s).
Proof.
  induction m as [| [k' v'] m IH]; cbn [map_set map_has]; [reflexivity |].
  destruct (strict_eq k' k) eqn:Hk'; cbn [map_has].
  - apply strict_eq_true in Hk' as ->.
    destruct (strict_eq k (JStr s)); reflexivity.
  - rewrite IH. destruct (strict_eq k' (JStr s)), (strict_eq k (JStr s));
      reflexivity.
Qed.

(** The item has the string [s] under [key]. *)
Definition keyed (key s : string) (x : Value) : Prop :=
  get_prop x key = Returned (JStr s).

Lemma collect_unkeyed (items : list Value) (key val s : string)
  (m0 m : JsMap) :
  Deploy.collect items key val m0 = Returned m ->
  Forall (fun x => ~ keyed key s x) items ->
  map_get m (JStr s) = map_get m0 (JStr s)
  /\ map_has m (JStr s) = map_has m0 (JStr s).
Proof.
  revert m0. induction items as [| x items IH]; intros m0; cbn [Deploy.collect].
  - intros [= ->] _. auto.
  - destruct (get_prop x key) as [k |] eqn:Hk; cbn [and_then]; [| discriminate].
    destruct (get_prop x val) as [v |] eqn:Hv; cbn [and_then]; [| discriminate].
    intros Hrest Hall. inversion Hall as [| ? ? Hx Hitems]; subst.
    destruct (IH _ Hrest Hitems) as [-> ->].
    rewrite map_get_set, map_has_set.
    destruct (strict_eq k (JStr s)) eqn:Hs; [| auto].
    apply strict_eq_true in Hs as ->. contradiction.
Qed.

Lemma collect_has (items : list Value) (key val s : string) (m0 m : JsMap) :
  Deploy.collect items key val m0 = Returned m ->
  map_has m (JStr s) = true
  <-> map_has m0 (JStr s) = true \/ Exists (keyed key s) items.
Proof.
  revert m0. induction items as [| x items IH]; intros m0; cbn [Deploy.collect].
  - intros [= ->]. split; [auto |]. intros [H | H]; [exact H | inversion H].
  - destruct (get_prop x key) as [k |] eqn:Hk; cbn [and_then];
      [| discriminate].
    destruct (get_prop x val) as [v |] eqn:Hv; cbn [and_then];
      [| discriminate].
    intros Hrest. rewrite (IH _ Hrest), map_has_set. split.
    + intros [H | H]; [| right; right; exact H].
      apply orb_true_iff in H as [H | H]; [| left; exact H].
      apply strict_eq_true in H as ->. right. left. exact Hk.
    + intros [H | H]; [left; rewrite H; apply orb_true_r |].
      inversion H as [? ? Hx | ? ? Hitems]; subst; [| right; exact Hitems].
      left. unfold keyed in Hx. rewrite Hk in Hx. injection Hx as ->.
      rewrite strict_eq_string. reflexivity.
Qed.

Lemma collect_last (before after : list Value) (x v : Value)
  (key val s : string) (m0 m : JsMap) :
  Deploy.collect (before ++ x :: after) key val m0 = Returned m ->
  keyed key s x -> get_prop x val = Returned v ->
  Forall (fun y => ~ keyed key s y) after ->
  map_get m (JStr s) = v.
Proof.
  revert m0. induction before as [| y before IH]; intros m0;
    cbn [app Deploy.collect].
  - intros Hrun Hx Hv Hafter. unfold keyed in Hx. rewrite Hx, Hv in Hrun.
    cbn [and_then] in Hrun.
    destruct (collect_unkeyed _ _ _ _ _ _ Hrun Hafter) as [-> _].
    rewrite map_get_set, strict_eq_string. reflexivity.
  - destruct (get_prop y key) as [k |]; cbn [and_then]; [| discriminate].
    destruct (get_prop y val) as [v' |]; cbn [and_then]; [| discriminate].
    apply IH.
Qed.

(** The map that [getExistingConnections], [getExistingModules] and
    [getExistingRpcs] build from a listing answers, for a string, with the
    property [val] of the last listed item that has the string under
    [key], and with [undefined] when no item has it; it has the string
    exactly when some listed item has it under [key]. *)
Theorem listing_answers_with_last_item (items : list Value)
  (key val : string) (m : JsMap) (s : string) :
  Deploy.collect items key val [] = Returned m ->
  (map_has m (JStr s) = true <-> Exists (keyed key s) items)
  /\ (forall before x after v,
         items = before ++ x :: after ->
         keyed key s x -> get_prop x val = Returned v ->
         Forall (fun y => ~ keyed key s y) after ->
         map_get m (JStr s) = v)
  /\ (Forall (fun x => ~ keyed key s x) items -> map_get m (JStr s) = JUndef).
Proof.
  intros Hrun. split; [| split].
  - rewrite (collect_has _ _ _ _ _ _ Hrun). cbn [map_has].
    split; [intros [H | H]; [discriminate | exact H] | auto].
  - intros before x after v -> Hx Hv Hafter.
    exact (collect_last _ _ _ _ _ _ _ _ _ Hrun Hx Hv Hafter).
  - intros Hnone. destruct (collect_unkeyed _ _ _ _ _ _ Hrun Hnone) as [-> _].
    reflexivity.
Qed.

(** Two connections listed under one label: the later one is found. *)
Lemma listing_answers_with_last_item_witness :
  exists m,
    Deploy.collect
      [ JObj [("label", JStr "EveryRow API"); ("name", JStr "everyrow-a1")];
        JObj [("label", JStr "Other"); ("name", JStr "other-b2")];
        JObj [("label", JStr "EveryRow API"); ("name", JStr "everyrow-c3")] ]
      "label" "name" [] = Returned m
    /\ map_get m (JStr "EveryRow API") = JStr "everyrow-c3"
    /\ map_has m (JStr "Missing") = false.
Proof.
  eexists. split; [reflexivity |].
  match goal with
  | |- map_get ?m _ = _ /\ _ =>
      destruct (listing_answers_with_last_item
                  [ JObj [("label", JStr "EveryRow API");
                          ("name", JStr "everyrow-a1")];
                    JObj [("label", JStr "Other"); ("name", JStr "other-b2")];
                    JObj [("label", JStr "EveryRow API");
                          ("name", JStr "everyrow-c3")] ]
                  "label" "name" m "EveryRow API" eq_refl)
        as (_ & Hlast & _)
  end.
  split; [| reflexivity].
  apply (Hlast [ JObj [("label", JStr "EveryRow API");
                       ("name", JStr "everyrow-a1")];
                 JObj [("label", JStr "Other"); ("name", JStr "other-b2")] ]
               (JObj [("label", JStr "EveryRow API");
                      ("name", JStr "everyrow-c3")]) []);
    [reflexivity | reflexivity | reflexivity | constructor].
Defined.

(** A request that is not in a list of requests. *)
Ltac not_among :=
  let H := fresh in
  intros H;
  repeat (apply elem_of_cons in H as [H | H]; [discriminate H |]);
  inversion H.

Module OfDeploy.
Import Deploy.

Section Script.

Variable JSON_parse : string -> Outcome Value.
Variable Api : Type.
Variable serve : Api -> Request -> Reply * Api.

Lemma makeRequest_issues (m : Method) (ep : Endpoint) (d : RequestData)
  (ct : string) :
  issues [(m, ep)] (makeRequest JSON_parse Api serve m ep d ct).
Proof.
  intros w. unfold Deploy.makeRequest, trace.
  destruct (serve _ _) as [rep api'].
  destruct rep as [e | status text]; [| destruct (negb (ok status))];
    reflexivity.
Qed.

Lemma getExisting_issues (ep : Endpoint) (field key val : string) :
  issues [(GET, ep)] (getExisting JSON_parse Api serve ep field key val).
Proof.
  unfold getExisting. rewrite <- (app_nil_r [(GET, ep)]).
  apply issues_bind; [apply makeRequest_issues |]. intros response.
  issues_tac fail.
Qed.

Lemma deployPart_issues (config : Value) (field : string) (ep : Endpoint)
  (ct : string) :
  issues [(PUT, ep)] (deployPart JSON_parse Api serve config field ep ct).
Proof.
  unfold deployPart. apply issues_after; [reflexivity | intros part].
  destruct (truthy part); [| apply issues_silent; reflexivity].
  rewrite <- (app_nil_r [(PUT, ep)]).
  apply issues_bind; [apply makeRequest_issues |]. intros _.
  apply issues_silent. reflexivity.
Qed.

Ltac leaf :=
  first [ apply makeRequest_issues | apply getExisting_issues
        | apply deployPart_issues ].

(** In the current script, [deployConnection] lists the connections and
    then at most creates one; [deployModule] lists the modules, at most
    creates one, and puts at most the four parts of the module it was
    called for, in the order api, expect, interface, samples;
    [deployRpc] does the same with the two parts of its RPC.  None
    requests anything else, or anything twice or in another order. *)
Theorem deploy_functions_request_in_order (localName : string)
  (config : Value) (connMap : JsMap) (w : World Api) :
  asked <$> trace (deployConnection JSON_parse Api serve localName config w)
    `sublist_of` [(GET, EConnections); (POST, EConnections)]
  /\ asked <$> trace (deployModule JSON_parse Api serve localName config
                        connMap w)
     `sublist_of` [ (GET, EModules); (POST, EModules);
                    (PUT, EModulePart localName "api");
                    (PUT, EModulePart localName "expect");
                    (PUT, EModulePart localName "interface");
                    (PUT, EModulePart localName "samples") ]
  /\ asked <$> trace (deployRpc JSON_parse Api serve localName config
                        connMap w)
     `sublist_of` [ (GET, ERpcs); (POST, ERpcs);
                    (PUT, ERpcPart localName "api");
                    (PUT, ERpcPart localName "parameters") ].
Proof.
  split; [| split]; revert w.
  - change (issues [(GET, EConnections); (POST, EConnections)]
              (deployConnection JSON_parse Api serve localName config)).
    unfold deployConnection, getExistingConnections. issues_tac leaf.
  - change (issues [ (GET, EModules); (POST, EModules);
                     (PUT, EModulePart localName "api");
                     (PUT, EModulePart localName "expect");
                     (PUT, EModulePart localName "interface");
                     (PUT, EModulePart localName "samples") ]
              (deployModule JSON_parse Api serve localName config connMap)).
    unfold deployModule, getExistingModules. issues_tac leaf.
  - change (issues [ (GET, ERpcs); (POST, ERpcs);
                     (PUT, ERpcPart localName "api");
                     (PUT, ERpcPart localName "parameters") ]
              (deployRpc JSON_parse Api serve localName config connMap)).
    unfold deployRpc, getExistingRpcs. issues_tac leaf.
Qed.

(** *** When a connection is created *)

(** What [makeRequest] makes of a reply. *)
Definition answer (rep : Reply) : Outcome Value :=
  match rep with
  | FetchFail e => Thrown e
  | Response status text =>
      if negb (ok status) then
        Thrown ("HTTP " +:+ pretty status +:+ ": " +:+ text)
      else Returned (match JSON_parse text with
                     | Returned v => v
                     | Thrown _ => JStr text
                     end)
  end.

(** The map of the listed items that a reply to a listing request gives. *)
Definition listing (field key val : string) (rep : Reply) : Outcome JsMap :=
  and_then (answer rep) (fun response =>
  and_then (get_prop response field) (fun listed =>
  and_then (iterate (js_or listed (JArr []))) (fun items =>
  collect items key val []))).

Definition served (w : World Api) (api : Api) : World Api :=
  {| service := api; results := results w;
     connectionNameMap := connectionNameMap w |}.

Lemma makeRequest_run (m : Method) (ep : Endpoint) (d : RequestData)
  (ct : string) (w : World Api) :
  let req := {| method := m; endpoint := ep; body := request_body d;
                contentType := ct |} in
  makeRequest JSON_parse Api serve m ep d ct w
  = (answer (serve (service w) req).1, served w (serve (service w) req).2,
     [(req, (serve (service w) req).1)]).
Proof.
  intros req. subst req. unfold Deploy.makeRequest, answer, served.
  destruct (serve _ _) as [[e | status text] api']; cbn [fst snd];
    [reflexivity |]. destruct (negb (ok status)); reflexivity.
Qed.

Definition list_request (ep : Endpoint) : Request :=
  {| method := GET; endpoint := ep; body := None;
     contentType := "application/json" |}.

Lemma getExisting_run (ep : Endpoint) (field key val : string)
  (w : World Api) :
  getExisting JSON_parse Api serve ep field key val w
  = (listing field key val (serve (service w) (list_request ep)).1,
     served w (serve (service w) (list_request ep)).2,
     [(list_request ep, (serve (service w) (list_request ep)).1)]).
Proof.
  unfold getExisting, listing, bind. rewrite makeRequest_run.
  cbn [request_body]. fold (list_request ep).
  destruct (answer _) as [response | e]; [| reflexivity].
  unfold lift. cbn [and_then].
  destruct (get_prop response field) as [listed | e]; [| reflexivity].
  cbn [and_then].
  destruct (iterate (js_or listed (JArr []))) as [items | e]; [| reflexivity].
  cbn [and_then]. destruct (collect items key val []); reflexivity.
Qed.

Definition create_connection_request (localName : string) (config : Value)
  : Request :=
  {| method := POST; endpoint := EConnections;
     body := request_body
               (Json (JObj [ ("label", DeployFacts.label_of localName config);
                             ("type",
                              js_or (match get_prop config "type" with
                                     | Returned type => type
                                     | Thrown _ => JUndef
                                     end) (JStr "basic")) ]));
     contentType := "application/json" |}.

(** A value that has no string form is an array or an object, which no
    listing has as a key. *)
Lemma unprintable_unlisted (m : JsMap) (v : Value) (e : string) :
  ToString v = Thrown e -> map_get m v = JUndef.
Proof.
  intros Hv. induction m as [| [k x] m IH]; [reflexivity |]. cbn [map_get].
  destruct v as [| | [|] | | | | |]; try discriminate Hv;
    destruct k; cbn [strict_eq]; exact IH.
Qed.

(** [deployConnection] of the current script does not create a connection
    that is listed: it lists the connections first; when the listing
    fails, that is its failure and nothing else is requested; when the
    listing has a truthy name for the label, it requests nothing else,
    and succeeds if that name has a string form, and fails with the
    TypeError if it has none; only otherwise does it send the request
    that creates the connection.  A label that has no string form is not
    listed and is not created either: the function rejects with the
    TypeError after the listing request. *)
Theorem listed_connection_is_not_created (localName : string)
  (config : Value) (w : World Api) :
  DeployFacts.nullish config = false ->
  let run := deployConnection JSON_parse Api serve localName config w in
  let listed := serve (service w) (list_request EConnections) in
  let label := DeployFacts.label_of localName config in
  match ToString label with
  | Thrown e =>
      run = (Thrown e, served w listed.2,
             [(list_request EConnections, listed.1)])
  | Returned text =>
      let ended r :=
        (Returned r, served w listed.2,
         [(list_request EConnections, listed.1)]) in
      let component := "connection:" +:+ text in
      match listing "appConnections" "label" "name" listed.1 with
      | Thrown e =>
          run = ended {| success := false; component := component;
                         error := Some e |}
      | Returned existing =>
          let remoteName := map_get existing label in
          if truthy remoteName then
            match ToString remoteName with
            | Returned _ =>
                run = ended {| success := true; component := component;
                               error := None |}
            | Thrown e =>
                run = ended {| success := false; component := component;
                               error := Some e |}
            end
          else
            trace run
            = [ (list_request EConnections, listed.1);
                (create_connection_request localName config,
                 (serve listed.2
                    (create_connection_request localName config)).1) ]
      end
  end.
Proof.
  intros Hconfig run listed label. subst run listed label.
  unfold deployConnection, create_connection_request, DeployFacts.label_of.
  destruct (get_prop config "label") as [configured | e] eqn:Hlabel.
  2:{ destruct config; discriminate. }
  destruct (get_prop config "type") as [type | e] eqn:Htype.
  2:{ destruct config; discriminate. }
  unfold getExistingConnections, try_catch, bind, lift, ret, logged.
  rewrite getExisting_run. cbv beta iota zeta.
  destruct (ToString (js_or configured (JStr localName))) as [text | e']
    eqn:Htext.
  - destruct (listing _ _ _ _) as [existing | e]; [| reflexivity].
    destruct (truthy (map_get existing _)); cbn [negb].
    + destruct (ToString (map_get existing _)); reflexivity.
    + cbn [and_then]. rewrite makeRequest_run. cbv beta iota.
      cbn [service served].
      destruct (answer _) as [response | e]; [| reflexivity].
      destruct (get_prop response "appConnection") as [appConnection | e];
        [| reflexivity].
      destruct (get_prop appConnection "name") as [name | e];
        [| reflexivity].
      destruct (ToString name); reflexivity.
  - destruct (listing _ _ _ _) as [existing | e]; [| reflexivity].
    rewrite (unprintable_unlisted _ _ _ Htext). reflexivity.
Qed.

(** *** When a component is created *)

Lemma makeRequest_asked (m : Method) (ep : Endpoint) (d : RequestData)
  (ct : string) (w : World Api) :
  asked <$> trace (makeRequest JSON_parse Api serve m ep d ct w) = [(m, ep)].
Proof. rewrite makeRequest_run. reflexivity. Qed.

(** A property of a configuration; [undefined] for a configuration that
    has none. *)
Definition config_prop (config : Value) (k : string) : Value :=
  match get_prop config k with
  | Returned v => v
  | Thrown _ => JUndef
  end.

(** The connection name [deployModule] resolves a reference to. *)
Definition module_connection (connMap : JsMap) (connection : Value) : Value :=
  if truthy connection then
    let found := js_or (map_get connMap (connection_label connection)) JNull in
    if negb (truthy found) then find_name connMap connection else found
  else JNull.

(** The connection name [deployRpc] resolves a reference to. *)
Definition rpc_connection (connMap : JsMap) (connection : Value) : Value :=
  if truthy connection
  then js_or (map_get connMap (connection_label connection)) JNull
  else JNull.

(** The line that logs a connection reference can be written: the
    reference, when there is one, and the name it resolves to have a
    string form. *)
Definition reference_logged (connection connectionName : Value) : Prop :=
  truthy connection = true ->
  DeployFacts.printable connection
  /\ DeployFacts.printable (js_or connectionName (JStr "null")).

Lemma reference_log_run (connection connectionName : Value) (w : World Api) :
  exists o,
    (if truthy connection then
       let* _ := lift (logged connection) in
       lift (logged (js_or connectionName (JStr "null")))
     else ret tt : Script Api unit) w = (o, w, [])
    /\ (o = Returned tt <-> reference_logged connection connectionName).
Proof.
  unfold reference_logged, DeployFacts.printable, logged.
  destruct (truthy connection).
  2:{ exists (Returned tt). split; [reflexivity |].
      split; [discriminate | reflexivity]. }
  unfold bind, lift.
  destruct (ToString connection) as [text1 | e1]; cbn [and_then].
  - destruct (ToString (js_or connectionName (JStr "null")))
      as [text2 | e2]; cbn [and_then].
    + exists (Returned tt). split; [reflexivity |].
      split; [eauto | reflexivity].
    + exists (Thrown e2). split; [reflexivity |].
      split; [discriminate |]. intros H.
      destruct (H eq_refl) as [_ [text Htext]]. discriminate.
  - exists (Thrown e1). split; [reflexivity |].
    split; [discriminate |]. intros H.
    destruct (H eq_refl) as [[text Htext] _]. discriminate.
Qed.

(** The requests of [deployConnection]. *)
Lemma deployConnection_asked (localName : string) (config : Value)
  (w : World Api) :
  DeployFacts.nullish config = false ->
  asked <$> trace (deployConnection JSON_parse Api serve localName config w)
  = (GET, EConnections)
    :: match listing "appConnections" "label" "name"
               (serve (service w) (list_request EConnections)).1 with
       | Returned existing =>
           if truthy (map_get existing
                        (DeployFacts.label_of localName config))
           then []
           else match ToString (DeployFacts.label_of localName config) with
                | Returned _ => [(POST, EConnections)]
                | Thrown _ => []
                end
       | Thrown _ => []
       end.
Proof.
  intros Hconfig. unfold deployConnection, DeployFacts.label_of.
  destruct (get_prop config "label") as [configured | e] eqn:Hlabel.
  2:{ destruct config; discriminate. }
  destruct (get_prop config "type") as [type | e] eqn:Htype.
  2:{ destruct config; discriminate. }
  unfold getExistingConnections, try_catch, bind, lift, ret, logged.
  rewrite getExisting_run. cbv beta iota zeta.
  destruct (listing _ _ _ _) as [existing | e].
  2:{ destruct (ToString (js_or configured (JStr localName))); reflexivity. }
  destruct (truthy (map_get existing _)); cbn [negb].
  { destruct (ToString (map_get existing _)); cbn [and_then];
      destruct (ToString (js_or configured (JStr localName))); reflexivity. }
  destruct (ToString (js_or configured (JStr localName))) as [text | e'];
    [| reflexivity].
  cbn [and_then]. rewrite makeRequest_run. cbv beta iota.
  cbn [service served].
  destruct (answer _) as [response | e]; [| reflexivity].
  destruct (get_prop response "appConnection") as [appConnection | e];
    [| reflexivity].
  destruct (get_prop appConnection "name") as [name | e]; [| reflexivity].
  destruct (ToString name); reflexivity.
Qed.

(** In the current script a deploy function sends the request that
    creates its component exactly when its configuration is neither
    [null] nor [undefined], the listing it starts with succeeds, the
    listing does not have the component (the label of a connection with a
    truthy name, the name of a module or of an RPC), and what the function
    writes to the log before the request has a string form: the label of
    the connection; the connection reference of the module or RPC, when it
    has one, and the name the reference resolves to. *)
Theorem component_created_when_unlisted (localName : string)
  (config : Value) (connMap : JsMap) (w : World Api) :
  ((POST, EConnections)
     ∈ asked <$> trace (deployConnection JSON_parse Api serve localName
                          config w)
   <-> DeployFacts.nullish config = false
       /\ DeployFacts.printable (DeployFacts.label_of localName config)
       /\ exists existing,
            listing "appConnections" "label" "name"
              (serve (service w) (list_request EConnections)).1
            = Returned existing
            /\ truthy (map_get existing
                         (DeployFacts.label_of localName config)) = false)
  /\ ((POST, EModules)
        ∈ asked <$> trace (deployModule JSON_parse Api serve localName config
                             connMap w)
      <-> DeployFacts.nullish config = false
          /\ reference_logged (config_prop config "connection")
               (module_connection connMap (config_prop config "connection"))
          /\ exists existing,
               listing "appModules" "name" "name"
                 (serve (service w) (list_request EModules)).1
               = Returned existing
               /\ map_has existing (JStr localName) = false)
  /\ ((POST, ERpcs)
        ∈ asked <$> trace (deployRpc JSON_parse Api serve localName config
                             connMap w)
      <-> DeployFacts.nullish config = false
          /\ reference_logged (config_prop config "connection")
               (rpc_connection connMap (config_prop config "connection"))
          /\ exists existing,
               listing "appRpcs" "name" "name"
                 (serve (service w) (list_request ERpcs)).1
               = Returned existing
               /\ map_has existing (JStr localName) = false).
Proof.
  split; [| split].
  - unfold DeployFacts.printable.
    destruct (DeployFacts.nullish config) eqn:Hconfig.
    { split; [| intros [H _]; discriminate H]. intros H. exfalso. revert H.
      unfold deployConnection.
      destruct config; try discriminate Hconfig; intros H; inversion H. }
    rewrite (deployConnection_asked _ _ _ Hconfig).
    destruct (listing _ _ _ _) as [existing | e].
    2:{ split.
        - intros H. apply list_elem_of_singleton in H. discriminate.
        - intros (_ & _ & existing & H & _). discriminate. }
    destruct (truthy (map_get existing _)) eqn:Hfound.
    { split.
      - intros H. apply list_elem_of_singleton in H. discriminate.
      - intros (_ & _ & existing' & [= <-] & H). congruence. }
    destruct (ToString (DeployFacts.label_of localName config))
      as [text | e] eqn:Htext.
    + split; [intros _; split; [reflexivity | eauto] |]. intros _.
      apply list_elem_of_further, list_elem_of_here.
    + split.
      * intros H. apply list_elem_of_singleton in H. discriminate.
      * intros (_ & [text Htext'] & _). discriminate.
  - unfold deployModule. rewrite trace_guarded by reflexivity.
    rewrite trace_bind.
    unfold getExistingModules. rewrite getExisting_run.
    cbn [trace outcome final fst snd fmap list_fmap app].
    destruct (listing _ _ _ _) as [existing | e].
    2:{ split.
        - intros H. apply list_elem_of_singleton in H. discriminate.
        - intros (_ & _ & existing & H & _). discriminate. }
    cbv zeta. rewrite trace_bind. cbn [lift trace outcome final fst snd app].
    unfold config_prop.
    destruct (get_prop config "connection") as [connection | e] eqn:Hconn.
    2:{ split.
        - intros H. apply list_elem_of_singleton in H. discriminate.
        - intros (Hconfig & _).
          destruct (DeployFacts.get_prop_returns config "connection" Hconfig).
          congruence. }
    pose proof (DeployFacts.get_prop_nullish _ _ _ Hconn) as Hconfig.
    rewrite trace_bind.
    destruct (reference_log_run connection
                (module_connection connMap connection)
                (served w (serve (service w) (list_request EModules)).2))
      as (o & Hlog & Hlogged).
    unfold module_connection in Hlog. cbv zeta in Hlog. rewrite Hlog.
    cbn [trace outcome final fst snd app].
    destruct o as [[] | e].
    2:{ split.
        - intros H. apply list_elem_of_singleton in H. discriminate.
        - intros (_ & H & _). apply Hlogged in H. discriminate. }
    destruct (map_has existing (JStr localName)) eqn:Hhas; cbn [negb].
    + split; [| intros (_ & _ & existing' & [= <-] & H); congruence].
      intros H. exfalso. apply elem_of_cons in H as [H | H]; [discriminate |].
      revert H. apply issues_not_asked
        with (expected := [ (PUT, EModulePart localName "api");
                            (PUT, EModulePart localName "expect");
                            (PUT, EModulePart localName "interface");
                            (PUT, EModulePart localName "samples") ]).
      * issues_tac leaf.
      * not_among.
    + split.
      { intros _. split; [exact Hconfig |].
        split; [apply Hlogged; reflexivity | eauto]. }
      intros _.
      destruct (DeployFacts.get_prop_returns config "type" Hconfig)
        as [type Htype].
      destruct (DeployFacts.get_prop_returns config "label" Hconfig)
        as [label Hlabel].
      destruct (DeployFacts.get_prop_returns config "description" Hconfig)
        as [description Hdescription].
      rewrite Htype, Hlabel, Hdescription.
      apply list_elem_of_further, asked_in_first.
      do 3 apply asked_after_lift. apply asked_in_first.
      rewrite makeRequest_asked. apply list_elem_of_here.
  - unfold deployRpc. rewrite trace_guarded by reflexivity.
    rewrite trace_bind.
    unfold getExistingRpcs. rewrite getExisting_run.
    cbn [trace outcome final fst snd fmap list_fmap app].
    destruct (listing _ _ _ _) as [existing | e].
    2:{ split.
        - intros H. apply list_elem_of_singleton in H. discriminate.
        - intros (_ & _ & existing & H & _). discriminate. }
    cbv zeta. rewrite trace_bind. cbn [lift trace outcome final fst snd app].
    unfold config_prop.
    destruct (get_prop config "connection") as [connection | e] eqn:Hconn.
    2:{ split.
        - intros H. apply list_elem_of_singleton in H. discriminate.
        - intros (Hconfig & _).
          destruct (DeployFacts.get_prop_returns config "connection" Hconfig).
          congruence. }
    pose proof (DeployFacts.get_prop_nullish _ _ _ Hconn) as Hconfig.
    rewrite trace_bind.
    destruct (reference_log_run connection
                (rpc_connection connMap connection)
                (served w (serve (service w) (list_request ERpcs)).2))
      as (o & Hlog & Hlogged).
    unfold rpc_connection in Hlog. rewrite Hlog.
    cbn [trace outcome final fst snd app].
    destruct o as [[] | e].
    2:{ split.
        - intros H. apply list_elem_of_singleton in H. discriminate.
        - intros (_ & H & _). apply Hlogged in H. discriminate. }
    destruct (map_has existing (JStr localName)) eqn:Hhas; cbn [negb].
    + split; [| intros (_ & _ & existing' & [= <-] & H); congruence].
      intros H. exfalso. apply elem_of_cons in H as [H | H]; [discriminate |].
      revert H. apply issues_not_asked
        with (expected := [ (PUT, ERpcPart localName "api");
                            (PUT, ERpcPart localName "parameters") ]).
      * issues_tac leaf.
      * not_among.
    + split.
      { intros _. split; [exact Hconfig |].
        split; [apply Hlogged; reflexivity | eauto]. }
      intros _.
      destruct (DeployFacts.get_prop_returns config "label" Hconfig)
        as [label Hlabel].
      rewrite Hlabel.
      apply list_elem_of_further, asked_in_first.
      apply asked_after_lift, asked_in_first.
      rewrite makeRequest_asked. apply list_elem_of_here.
Qed.

(** *** A connection file that holds [null] *)

Lemma deployConnection_throws (localName : string) (config : Value) :
  DeployFacts.nullish config = true ->
  throws (deployConnection JSON_parse Api serve localName config).
Proof.
  intros Hconfig w. unfold deployConnection.
  destruct config; try discriminate Hconfig; eexists; reflexivity.
Qed.

Lemma deployConnections_throw (files : list (string * Outcome string))
  (file : string) (content : Outcome string) (config : Value) :
  (file, content) ∈ files ->
  readJsonFile JSON_parse content = Returned config ->
  DeployFacts.nullish config = true ->
  throws (deployConnections JSON_parse Api serve files).
Proof.
  intros Hin Hread Hconfig.
  induction files as [| [file' content'] files IH]; [inversion Hin |].
  cbn [deployConnections]. cbv zeta.
  apply throws_after_lift. intros config' Hread'.
  apply elem_of_cons in Hin as [[= <- <-] | Hin].
  - rewrite Hread in Hread'. injection Hread' as <-.
    apply throws_first, deployConnection_throws, Hconfig.
  - apply throws_later. intros result. apply throws_later. intros _.
    apply IH, Hin.
Qed.

(** A connection file that holds [null] (or whose reading gives
    [undefined]) stops the current script: [deployConnection] reads the
    label of the configuration before its [try], so it throws, and [main]
    rejects; the script exits with 1 and what comes after the file is not
    deployed. *)
Theorem null_connection_file_stops_main (app : AppDir)
  (entries : list (string * Outcome string)) (file : string)
  (content : Outcome string) (config : Value) (w : World Api) :
  connections app = Listed entries ->
  (file, content) ∈ imljson_files entries ->
  readJsonFile JSON_parse content = Returned config ->
  DeployFacts.nullish config = true ->
  (forall localName w',
      deployConnection JSON_parse Api serve localName config w'
      = (Thrown ("Cannot read properties of " +:+ nullish_name config
                 +:+ " (reading 'label')"), w', []))
  /\ exists e,
       outcome (main JSON_parse Api serve app w) = Thrown e
       /\ exit_code (outcome (main JSON_parse Api serve app w)) = 1.
Proof.
  intros Hdir Hin Hread Hconfig. split.
  - intros localName w'. unfold deployConnection.
    destruct config; try discriminate Hconfig; reflexivity.
  - assert (Hmain : throws (main JSON_parse Api serve app)).
    { unfold main. do 5 (apply throws_later; intros ?).
      apply throws_first. rewrite Hdir. cbn [in_directory].
      exact (deployConnections_throw _ _ _ _ Hin Hread Hconfig). }
    destruct (Hmain w) as [e He]. exists e. rewrite He. auto.
Qed.

End Script.
End OfDeploy.

Module OfPrev.
Import DeployPrev.

Section Script.

Variable JSON_parse : string -> Outcome Value.
Variable Api : Type.
Variable serve : Api -> Request -> Reply * Api.

Lemma makeRequest_issues_prev (m : Method) (ep : Endpoint) (d : RequestData)
  (ct : string) :
  issues [(m, ep)] (makeRequest JSON_parse Api serve m ep d ct).
Proof.
  intros w. unfold DeployPrev.makeRequest, trace.
  destruct (serve _ _) as [rep api'].
  destruct rep as [e | status text]; [| destruct (negb (ok status))];
    reflexivity.
Qed.

Lemma deployPart_issues_prev (config : Value) (field : string)
  (ep : Endpoint) :
  issues [(PUT, ep)] (deployPart JSON_parse Api serve config field ep).
Proof.
  unfold deployPart. apply issues_after; [reflexivity | intros part].
  destruct (truthy part); [| apply issues_silent; reflexivity].
  rewrite <- (app_nil_r [(PUT, ep)]).
  apply issues_bind; [apply makeRequest_issues_prev |]. intros _.
  apply issues_silent. reflexivity.
Qed.

Ltac leaf :=
  first [apply makeRequest_issues_prev | apply deployPart_issues_prev].

(** In the other copy of the script, each deploy function first tries to
    create its component, without listing anything, and then puts at most
    the parts of that component: two for a connection, four for a module,
    two for an RPC, in a fixed order.  None requests anything else, or
    anything twice. *)
Theorem create_first_functions_request_in_order (name : string)
  (config : Value) (w : World Api) :
  asked <$> trace (deployConnection JSON_parse Api serve name config w)
    `sublist_of` [ (POST, EConnections);
                   (PUT, EConnectionPart name "api");
                   (PUT, EConnectionPart name "parameters") ]
  /\ asked <$> trace (deployModule JSON_parse Api serve name config w)
     `sublist_of` [ (POST, EModules);
                    (PUT, EModulePart name "api");
                    (PUT, EModulePart name "expect");
                    (PUT, EModulePart name "interface");
                    (PUT, EModulePart name "samples") ]
  /\ asked <$> trace (deployRpc JSON_parse Api serve name config w)
     `sublist_of` [ (POST, ERpcs);
                    (PUT, ERpcPart name "api");
                    (PUT, ERpcPart name "parameters") ].
Proof.
  split; [| split]; revert w.
  - change (issues [ (POST, EConnections);
                     (PUT, EConnectionPart name "api");
                     (PUT, EConnectionPart name "parameters") ]
              (deployConnection JSON_parse Api serve name config)).
    unfold deployConnection. issues_tac leaf.
  - change (issues [ (POST, EModules);
                     (PUT, EModulePart name "api");
                     (PUT, EModulePart name "expect");
                     (PUT, EModulePart name "interface");
                     (PUT, EModulePart name "samples") ]
              (deployModule JSON_parse Api serve name config)).
    unfold deployModule. issues_tac leaf.
  - change (issues [ (POST, ERpcs);
                     (PUT, ERpcPart name "api");
                     (PUT, ERpcPart name "parameters") ]
              (deployRpc JSON_parse Api serve name config)).
    unfold deployRpc. issues_tac leaf.
Qed.

(** *** A refused creation *)

(** The API accepts every PUT request. *)
Definition puts_accepted : Prop :=
  forall api req,
    method req = PUT ->
    exists status text, (serve api req).1 = Response status text
                        /\ ok status = true.

Lemma put_succeeds (ep : Endpoint) (d : RequestData) (ct : string) :
  puts_accepted ->
  succeeds (fun _ => True) (makeRequest JSON_parse Api serve PUT ep d ct).
Proof.
  intros Hputs w. unfold DeployPrev.makeRequest, outcome.
  destruct (Hputs (service w)
              {| method := PUT; endpoint := ep; body := request_body d;
                 contentType := ct |} eq_refl) as (status & text & Hrep & Hok).
  destruct (serve _ _) as [rep api']. cbn [fst] in Hrep. subst rep.
  rewrite Hok. cbn. eauto.
Qed.

Lemma deployPart_succeeds (config : Value) (field : string) (ep : Endpoint) :
  puts_accepted -> DeployFacts.nullish config = false ->
  succeeds (fun _ => True) (deployPart JSON_parse Api serve config field ep).
Proof.
  intros Hputs Hconfig. unfold deployPart.
  assert (exists part, get_prop config field = Returned part) as [part ->]
    by (destruct config; try discriminate; cbn; eauto).
  apply (succeeds_bind (fun _ => True)); [apply succeeds_lift; exact I |].
  clear part. intros part _.
  destruct (truthy part); [| apply succeeds_ret; exact I].
  apply (succeeds_bind (fun _ => True)); [apply put_succeeds, Hputs |].
  intros _ _. apply succeeds_ret. exact I.
Qed.

(** In the other copy of the script a refused creation does not fail a
    deployment: when the API accepts the PUT requests, each deploy
    function returns a success for any configuration that is neither
    [null] nor [undefined], whatever the API answers to the request that
    creates the component. *)
Theorem refused_creation_is_ignored (name : string) (config : Value)
  (w : World Api) :
  puts_accepted -> DeployFacts.nullish config = false ->
  outcome (deployConnection JSON_parse Api serve name config w)
  = Returned {| success := true; component := "connection:" +:+ name;
                error := None |}
  /\ outcome (deployModule JSON_parse Api serve name config w)
     = Returned {| success := true; component := "module:" +:+ name;
                   error := None |}
  /\ outcome (deployRpc JSON_parse Api serve name config w)
     = Returned {| success := true; component := "rpc:" +:+ name;
                   error := None |}.
Proof.
  intros Hputs Hconfig.
  assert (Hparts : forall field ep,
             succeeds (fun _ => True)
               (deployPart JSON_parse Api serve config field ep))
    by (intros; apply deployPart_succeeds; assumption).
  assert (Htype : exists type, get_prop config "type" = Returned type)
    by (destruct config; try discriminate; cbn; eauto).
  destruct Htype as [type Htype].
  assert (Hgoal : forall (deploy : Script Api DeployResult) r,
             succeeds (fun a => a = r) deploy ->
             outcome (deploy w) = Returned r).
  { intros deploy r Hdeploy. destruct (Hdeploy w) as (a & Ha & Hr).
    rewrite Ha, Hr. reflexivity. }
  split; [| split]; apply Hgoal.
  - unfold deployConnection. apply succeeds_guarded.
    apply (succeeds_bind (fun _ => True)); [apply succeeds_swallowed |].
    intros _ _.
    do 2 (apply (succeeds_bind (fun _ => True)); [apply Hparts | intros _ _]).
    apply succeeds_ret. reflexivity.
  - unfold deployModule. apply succeeds_guarded. rewrite Htype.
    apply (succeeds_bind (fun _ => True)); [apply succeeds_lift; exact I |].
    intros type' _. cbv zeta.
    apply (succeeds_bind (fun _ => True)); [apply succeeds_swallowed |].
    intros _ _.
    do 4 (apply (succeeds_bind (fun _ => True)); [apply Hparts | intros _ _]).
    apply succeeds_ret. reflexivity.
  - unfold deployRpc. apply succeeds_guarded.
    apply (succeeds_bind (fun _ => True)); [apply succeeds_swallowed |].
    intros _ _.
    do 2 (apply (succeeds_bind (fun _ => True)); [apply Hparts | intros _ _]).
    apply succeeds_ret. reflexivity.
Qed.

End Script.
End OfPrev.

(** *** Runs against particular APIs *)

(** A listing with one connection. *)
Definition everyrow_listing : Value :=
  JObj [ ("appConnections",
          JArr [ JObj [ ("label", JStr "EveryRow API");
                        ("name", JStr "everyrow-a1") ] ]) ].

(** [JSON.parse], on the text of that listing. *)
Definition parse_listing (text : string) : Outcome Value :=
  if String.eqb text (stringify_text everyrow_listing)
  then Returned everyrow_listing
  else Thrown "Unexpected token".

(** An API that lists that connection and refuses everything else. *)
Definition lists_everyrow (api : unit) (req : Request) : Reply * unit :=
  match method req with
  | GET => (Response 200 (stringify_text everyrow_listing), tt)
  | _ => (Response 500 "Internal Server Error", tt)
  end.

(** The connection is listed: one request, and a success. *)
Lemma listed_connection_is_not_created_witness :
  Deploy.deployConnection parse_listing unit lists_everyrow "everyrow_api"
    (JObj [("label", JStr "EveryRow API")]) DeployFacts.at_start
  = (Returned {| success := true; component := "connection:EveryRow API";
                 error := None |},
     DeployFacts.at_start,
     [ (OfDeploy.list_request EConnections,
        Response 200 (stringify_text everyrow_listing)) ]).
Proof.
  exact (OfDeploy.listed_connection_is_not_created parse_listing unit
           lists_everyrow "everyrow_api"
           (JObj [("label", JStr "EveryRow API")]) DeployFacts.at_start
           eq_refl).
Defined.

(** An API that refuses to create anything and accepts the parts. *)
Definition conflict (api : unit) (req : Request) : Reply * unit :=
  match method req with
  | PUT => (Response 200 "", tt)
  | _ => (Response 409 "already exists", tt)
  end.

(** The module cannot be created, and its deployment succeeds. *)
Lemma refused_creation_is_ignored_witness :
  outcome (DeployPrev.deployModule DeployFacts.parse_braces unit conflict
             "rank" (JObj [("communication", JObj [])])
             {| DeployPrev.service := tt; DeployPrev.results := [] |})
  = Returned {| success := true; component := "module:rank"; error := None |}.
Proof.
  refine (proj1 (proj2 (OfPrev.refused_creation_is_ignored
                          DeployFacts.parse_braces unit conflict "rank"
                          (JObj [("communication", JObj [])])
                          {| DeployPrev.service := tt;
                             DeployPrev.results := [] |} _ eq_refl))).
  intros api req Hput. unfold conflict. rewrite Hput. eauto.
Defined.

(** An app whose only connection file holds [null]. *)
Definition null_connection : AppDir :=
  {| base_imljson := Returned "{}"; common_imljson := Returned "{}";
     connections := Listed [("everyrow-api.imljson", Returned "null")];
     modules := Absent; rpcs := Absent |}.

(** [JSON.parse], on the texts of that app and the empty answers. *)
Definition parse_null (text : string) : Outcome Value :=
  if String.eqb text "null" then Returned JNull
  else if String.eqb text "{}" then Returned (JObj [])
  else Thrown "Unexpected end of JSON input".

Lemma null_connection_file_stops_main_witness :
  exists e,
    outcome (Deploy.main parse_null unit conflict null_connection
               DeployFacts.at_start) = Thrown e.
Proof.
  destruct (OfDeploy.null_connection_file_stops_main parse_null unit conflict
              null_connection
              [("everyrow-api.imljson", Returned "null")]
              "everyrow-api.imljson" (Returned "null") JNull
              DeployFacts.at_start eq_refl)
    as (_ & e & He & _).
  - apply list_elem_of_here.
  - reflexivity.
  - reflexivity.
  - exists e. exact He.
Defined.

End RequestFacts.

(* ===================================================================== *)
(** * Properties: the names of the files *)
(* ===================================================================== *)

Module NameFacts.
Import MakeApi StringFacts.

Definition is_dot (c : ascii) : bool := Ascii.eqb c ".".
Definition is_dash (c : ascii) : bool := Ascii.eqb c "-".

(** No character of [s] is in the class [f]. *)
Definition free_of (f : ascii -> bool) (s : string) : bool :=
  TemplateFacts.all_chars (fun c => negb (f c)) s.

Lemma ends_with_suffix (stem suffix : string) :
  ends_with suffix (stem +:+ suffix) = true.
Proof.
  induction stem as [| c stem IH]; cbn [String.append].
  - destruct suffix; cbn [ends_with]; rewrite String.eqb_refl; reflexivity.
  - cbn [ends_with]. rewrite IH. apply orb_true_r.
Qed.

Lemma remove_first_suffix (stem : string) :
  free_of is_dot stem = true ->
  remove_first ".imljson" (stem +:+ ".imljson") = stem.
Proof.
  unfold free_of. induction stem as [| c stem IH]; [reflexivity |].
  cbn [TemplateFacts.all_chars]. intros H.
  apply andb_true_iff in H as [Hc Hstem].
  cbn [String.append remove_first strip_prefix].
  unfold is_dot in Hc. rewrite Ascii.eqb_sym.
  destruct (Ascii.eqb c "."); [discriminate |].
  rewrite (IH Hstem). reflexivity.
Qed.

Lemma dashes_to_underscores_free (s : string) :
  free_of is_dash (dashes_to_underscores s) = true.
Proof.
  unfold free_of. induction s as [| c s IH]; [reflexivity |].
  cbn [dashes_to_underscores TemplateFacts.all_chars]. rewrite IH.
  unfold is_dash. destruct (Ascii.eqb_spec c "-") as [-> | Hc]; [reflexivity |].
  destruct (Ascii.eqb_spec c "-"); [contradiction | reflexivity].
Qed.

(** A file named by a stem without a dot and the extension .imljson is
    among the files the scripts go through; the structure test names it
    by its stem, and the deploy scripts by its stem with every dash made
    an underscore, so that no name they deploy holds a dash. *)
Theorem imljson_file_is_named_by_its_stem (stem : string)
  (content : Outcome string) (entries : list (string * Outcome string)) :
  free_of is_dot stem = true ->
  imljson_files ((stem +:+ ".imljson", content) :: entries)
  = (stem +:+ ".imljson", content) :: imljson_files entries
  /\ remove_first ".imljson" (stem +:+ ".imljson") = stem
  /\ local_name (stem +:+ ".imljson") = dashes_to_underscores stem
  /\ free_of is_dash (local_name (stem +:+ ".imljson")) = true.
Proof.
  intros Hstem. split; [| split; [| split]].
  - unfold imljson_files. cbn [List.filter fst].
    rewrite ends_with_suffix. reflexivity.
  - apply remove_first_suffix, Hstem.
  - unfold local_name. rewrite (remove_first_suffix stem Hstem). reflexivity.
  - apply dashes_to_underscores_free.
Qed.

Lemma imljson_file_is_named_by_its_stem_witness :
  local_name "start-rank-task.imljson" = "start_rank_task"
  /\ imljson_files [ ("start-rank-task.imljson", Returned "{}");
                     ("README.md", Returned "") ]
     = [("start-rank-task.imljson", Returned "{}")].
Proof.
  destruct (imljson_file_is_named_by_its_stem "start-rank-task"
              (Returned "{}") [("README.md", Returned "")] eq_refl)
    as (Hfiles & _ & Hname & _).
  split; [exact Hname | exact Hfiles].
Defined.

End NameFacts.

Module TypeIdMore.
Import TypeIdFacts.

(** For every string that is not the name of a member every object
    inherits, both copies of [getModuleTypeId] return the same number: the
    id the table has for the string, and 4 when the table does not have
    it. *)
Theorem getModuleTypeId_table_or_default (type : string) :
  inherited type = JUndef ->
  exists n,
    Deploy.getModuleTypeId type = JNum n
    /\ DeployPrev.getModuleTypeId type = JNum n
    /\ n ∈ [4; 9; 1; 5; 11; 12]
    /\ (type ∉ known_types -> n = 4).
Proof.
  intros Hinherited.
  destruct (decide (type ∈ known_types)) as [Hin | Hnot].
  - unfold known_types in Hin.
    repeat (apply elem_of_cons in Hin as [-> | Hin];
            [eexists; split; [reflexivity |]; split; [reflexivity |];
             split; [| intros Hnot; exfalso; apply Hnot; unfold known_types;
                       repeat first [apply list_elem_of_here
                                    | apply list_elem_of_further]];
             repeat first [apply list_elem_of_here
                          | apply list_elem_of_further] |]).
    inversion Hin.
  - exists 4.
    change (DeployPrev.getModuleTypeId type)
      with (Deploy.getModuleTypeId type).
    rewrite (getModuleTypeId_default type Hnot Hinherited).
    repeat split. apply list_elem_of_here.
Qed.

Lemma getModuleTypeId_table_or_default_witness :
  Deploy.getModuleTypeId "webhook" = JNum 4
  /\ Deploy.getModuleTypeId "search" = JNum 9.
Proof.
  destruct (getModuleTypeId_table_or_default "webhook" eq_refl)
    as (n & Hn & _ & _ & Hdefault).
  rewrite Hn, Hdefault; [split; reflexivity |].
  apply (bool_decide_unpack _). vm_compute. reflexivity.
Defined.

End TypeIdMore.

(* ===================================================================== *)
(** * Properties: when [main] of the deploy scripts returns *)
(* ===================================================================== *)

Module MainFacts.
Import MakeApi EffFacts RequestFacts.

(** A file that can be read and parsed, with what it holds. *)
Definition holds (JSON_parse : string -> Outcome Value)
  (P : Value -> Prop) (entry : string * Outcome string) : Prop :=
  exists text config,
    entry.2 = Returned text /\ JSON_parse text = Returned config /\ P config.

(** A directory that is absent or can be listed. *)
Definition listable (dir : Directory) : Prop :=
  match dir with
  | Unlistable _ => False
  | Absent | Listed _ => True
  end.

Section Prev.
Import DeployPrev.

Variable JSON_parse : string -> Outcome Value.
Variable Api : Type.
Variable serve : Api -> Request -> Reply * Api.
Variable app : AppDir.

Lemma deployFiles_succeeds
  (deploy : string -> Value -> Script Api DeployResult)
  (files : list (string * Outcome string)) :
  (forall name config, succeeds (fun _ => True) (deploy name config)) ->
  Forall (holds JSON_parse (fun _ => True)) files ->
  succeeds (fun _ => True) (deployFiles JSON_parse Api deploy files).
Proof.
  intros Hdeploy. induction 1 as [| [file content] files Hfile _ IH];
    cbn [deployFiles]; [apply succeeds_ret; exact I |].
  destruct Hfile as (text & config & Hcontent & Hparse & _).
  cbn [snd] in Hcontent. subst content.
  unfold readJsonFile. cbn [and_then]. rewrite Hparse. cbv zeta.
  apply (succeeds_bind (fun _ => True)); [apply succeeds_lift; exact I |].
  intros config' _.
  apply (succeeds_bind (fun _ => True)); [apply Hdeploy |]. intros r _.
  apply (succeeds_bind (fun _ => True)); [apply succeeds_modify |].
  intros _ _. exact IH.
Qed.

(** A directory that is absent, or that can be listed and whose
    configuration files can all be read and parsed. *)
Definition readable (dir : Directory) : Prop :=
  listable dir
  /\ Forall (holds JSON_parse (fun _ => True)) (DeployFacts.files_of dir).

Lemma in_directory_succeeds (dir : Directory)
  (loop : list (string * Outcome string) -> Script Api unit) :
  listable dir ->
  succeeds (fun _ => True) (loop (DeployFacts.files_of dir)) ->
  succeeds (fun _ => True) (in_directory Api dir loop).
Proof.
  destruct dir as [| e | entries]; cbn [in_directory DeployFacts.files_of];
    [| contradiction | auto].
  intros _ _. apply succeeds_ret. exact I.
Qed.

(** In the other copy of the script nothing the API answers makes [main]
    reject: when each of the three directories is absent or can be listed,
    and every configuration file in them can be read and parsed, [main]
    returns, whatever base.imljson and common.imljson hold and whatever
    each request is answered. *)
Theorem create_first_main_returns (w : World Api) :
  readable (connections app) -> readable (modules app) ->
  readable (rpcs app) ->
  outcome (main JSON_parse Api serve app w) = Returned Exit1
  \/ outcome (main JSON_parse Api serve app w) = Returned Complete.
Proof.
  intros [Hdir1 Hconnections] [Hdir2 Hmodules] [Hdir3 Hrpcs].
  assert (Hmain : succeeds (fun _ => True) (main JSON_parse Api serve app)).
  { unfold main.
    apply (succeeds_bind (fun _ => True)); [apply succeeds_modify |].
    intros _ _.
    apply (succeeds_bind (fun _ => True)).
    { intros w'.
      destruct (DeployFacts.ForPrev.deployBase_result_prev JSON_parse Api
                  serve app w') as (r & Hr & _). eauto. }
    intros base _.
    apply (succeeds_bind (fun _ => True)); [apply succeeds_modify |].
    intros _ _.
    apply (succeeds_bind (fun _ => True)).
    { intros w'.
      destruct (DeployFacts.ForPrev.deployCommon_result_prev JSON_parse Api
                  serve app w') as (r & Hr & _). eauto. }
    intros common _.
    apply (succeeds_bind (fun _ => True)); [apply succeeds_modify |].
    intros _ _.
    apply (succeeds_bind (fun _ => True)).
    { apply in_directory_succeeds; [exact Hdir1 |].
      apply deployFiles_succeeds; [| exact Hconnections].
      intros name config w'.
      destruct (DeployFacts.ForPrev.deployConnection_result_prev JSON_parse
                  Api serve name config w') as (r & Hr & _). eauto. }
    intros _ _.
    apply (succeeds_bind (fun _ => True)).
    { apply in_directory_succeeds; [exact Hdir2 |].
      apply deployFiles_succeeds; [| exact Hmodules].
      intros name config w'.
      destruct (DeployFacts.ForPrev.deployModule_result_prev JSON_parse
                  Api serve name config w') as (r & Hr & _). eauto. }
    intros _ _.
    apply (succeeds_bind (fun _ => True)).
    { apply in_directory_succeeds; [exact Hdir3 |].
      apply deployFiles_succeeds; [| exact Hrpcs].
      intros name config w'.
      destruct (DeployFacts.ForPrev.deployRpc_result_prev JSON_parse
                  Api serve name config w') as (r & Hr & _). eauto. }
    intros _ _.
    apply (succeeds_bind (fun _ => True)); [apply succeeds_read |].
    intros rs _. cbv zeta.
    destruct (0 <? _); apply succeeds_ret; exact I. }
  destruct (Hmain w) as ([|] & -> & _); auto.
Qed.

End Prev.

Section Current.
Import Deploy.

Variable JSON_parse : string -> Outcome Value.
Variable Api : Type.
Variable serve : Api -> Request -> Reply * Api.
Variable app : AppDir.

(** The API lists the connections whenever it is asked, under labels that
    have a string form. *)
Definition connections_listed : Prop :=
  forall api,
    exists existing,
      OfDeploy.listing JSON_parse "appConnections" "label" "name"
        (serve api (OfDeploy.list_request EConnections)).1
      = Returned existing
      /\ Forall (fun entry => DeployFacts.printable entry.1) existing.

Lemma fromEntries_returns (map : JsMap) :
  Forall (fun entry => DeployFacts.printable entry.1) map ->
  fromEntries map = Returned tt.
Proof.
  induction 1 as [| [k v] map [text Hk] _ IH]; [reflexivity |].
  cbn [fromEntries fst] in *. rewrite Hk. exact IH.
Qed.

Lemma getExistingConnections_succeeds :
  connections_listed ->
  succeeds (fun existing => fromEntries existing = Returned tt)
           (getExistingConnections JSON_parse Api serve).
Proof.
  intros Hlisted w. unfold getExistingConnections.
  rewrite OfDeploy.getExisting_run.
  destruct (Hlisted (service w)) as (m & -> & Hkeys).
  exists m. split; [reflexivity | apply fromEntries_returns, Hkeys].
Qed.

(** A connection file that can be read and parsed, and holds a
    configuration that is neither [null] nor [undefined] and whose label
    has a string form. *)
Definition connection_file (entry : string * Outcome string) : Prop :=
  holds JSON_parse
    (fun config =>
       DeployFacts.nullish config = false
       /\ DeployFacts.printable
            (DeployFacts.label_of (local_name entry.1) config))
    entry.

Lemma deployConnections_succeeds (files : list (string * Outcome string)) :
  Forall connection_file files ->
  succeeds (fun _ => True) (deployConnections JSON_parse Api serve files).
Proof.
  induction 1 as [| [file content] files Hfile _ IH];
    cbn [deployConnections]; [apply succeeds_ret; exact I |].
  destruct Hfile as (text & config & Hcontent & Hparse & Hconfig & Hlabel).
  cbn [fst snd] in Hcontent, Hlabel. subst content.
  unfold readJsonFile. cbn [and_then]. rewrite Hparse. cbv zeta.
  apply (succeeds_bind (fun c => c = config));
    [apply succeeds_lift; reflexivity |].
  intros config' ->.
  apply (succeeds_bind (fun _ => True)).
  { intros w'.
    destruct (DeployFacts.ForDeploy.deployConnection_result JSON_parse Api
                serve (local_name file) config w' Hconfig Hlabel)
      as (r & Hr & _).
    eauto. }
  intros r _.
  apply (succeeds_bind (fun _ => True)); [apply succeeds_modify |].
  intros _ _. exact IH.
Qed.

Lemma deployModules_succeeds (files : list (string * Outcome string)) :
  Forall (holds JSON_parse (fun _ => True)) files ->
  succeeds (fun _ => True) (deployModules JSON_parse Api serve files).
Proof.
  induction 1 as [| [file content] files Hfile _ IH];
    cbn [deployModules]; [apply succeeds_ret; exact I |].
  destruct Hfile as (text & config & Hcontent & Hparse & _).
  cbn [snd] in Hcontent. subst content.
  unfold readJsonFile. cbn [and_then]. rewrite Hparse. cbv zeta.
  apply (succeeds_bind (fun _ => True)); [apply succeeds_lift; exact I |].
  intros config' _.
  apply (succeeds_bind (fun _ => True)); [apply succeeds_read |].
  intros connMap _.
  apply (succeeds_bind (fun _ => True)).
  { intros w'.
    destruct (DeployFacts.ForDeploy.deployModule_result JSON_parse Api
                serve (local_name file) config' connMap w') as (r & Hr & _).
    eauto. }
  intros r _.
  apply (succeeds_bind (fun _ => True)); [apply succeeds_modify |].
  intros _ _. exact IH.
Qed.

Lemma deployRpcs_succeeds (files : list (string * Outcome string)) :
  Forall (holds JSON_parse (fun _ => True)) files ->
  succeeds (fun _ => True) (deployRpcs JSON_parse Api serve files).
Proof.
  induction 1 as [| [file content] files Hfile _ IH];
    cbn [deployRpcs]; [apply succeeds_ret; exact I |].
  destruct Hfile as (text & config & Hcontent & Hparse & _).
  cbn [snd] in Hcontent. subst content.
  unfold readJsonFile. cbn [and_then]. rewrite Hparse. cbv zeta.
  apply (succeeds_bind (fun _ => True)); [apply succeeds_lift; exact I |].
  intros config' _.
  apply (succeeds_bind (fun _ => True)); [apply succeeds_read |].
  intros connMap _.
  apply (succeeds_bind (fun _ => True)).
  { intros w'.
    destruct (DeployFacts.ForDeploy.deployRpc_result JSON_parse Api
                serve (local_name file) config' connMap w') as (r & Hr & _).
    eauto. }
  intros r _.
  apply (succeeds_bind (fun _ => True)); [apply succeeds_modify |].
  intros _ _. exact IH.
Qed.

Lemma in_directory_succeeds_current (dir : Directory)
  (loop : list (string * Outcome string) -> Script Api unit) :
  listable dir ->
  succeeds (fun _ => True) (loop (DeployFacts.files_of dir)) ->
  succeeds (fun _ => True) (in_directory Api dir loop).
Proof.
  destruct dir as [| e | entries]; cbn [in_directory DeployFacts.files_of];
    [| contradiction | auto].
  intros _ _. apply succeeds_ret. exact I.
Qed.

(** [main] of the current script returns when each of the three
    directories is absent or can be listed, every configuration file in
    them can be read and parsed, no connection file holds [null] or a
    label that has no string form, and the API lists the connections when
    it is asked, under labels that have a string form; no other answer of
    the API makes it reject. *)
Theorem main_returns_when_connections_are_listed (w : World Api) :
  listable (connections app) -> listable (modules app) ->
  listable (rpcs app) ->
  Forall connection_file (DeployFacts.files_of (connections app)) ->
  Forall (holds JSON_parse (fun _ => True))
         (DeployFacts.files_of (modules app)) ->
  Forall (holds JSON_parse (fun _ => True))
         (DeployFacts.files_of (rpcs app)) ->
  connections_listed ->
  outcome (main JSON_parse Api serve app w) = Returned Exit1
  \/ outcome (main JSON_parse Api serve app w) = Returned Complete.
Proof.
  intros Hdir1 Hdir2 Hdir3 Hconnections Hmodules Hrpcs Hlisted.
  assert (Hmain : succeeds (fun _ => True) (main JSON_parse Api serve app)).
  { unfold main.
    apply (succeeds_bind (fun _ => True)); [apply succeeds_modify |].
    intros _ _.
    apply (succeeds_bind (fun _ => True)).
    { intros w'.
      destruct (DeployFacts.ForDeploy.deployBase_result JSON_parse Api
                  serve app w') as (r & Hr & _). eauto. }
    intros base _.
    apply (succeeds_bind (fun _ => True)); [apply succeeds_modify |].
    intros _ _.
    apply (succeeds_bind (fun _ => True)).
    { intros w'.
      destruct (DeployFacts.ForDeploy.deployCommon_result JSON_parse Api
                  serve app w') as (r & Hr & _). eauto. }
    intros common _.
    apply (succeeds_bind (fun _ => True)); [apply succeeds_modify |].
    intros _ _.
    apply (succeeds_bind (fun _ => True)).
    { apply in_directory_succeeds_current; [exact Hdir1 |].
      apply deployConnections_succeeds. exact Hconnections. }
    intros _ _.
    apply (succeeds_bind (fun existing => fromEntries existing = Returned tt));
      [apply getExistingConnections_succeeds, Hlisted |].
    intros refreshed Hkeys.
    apply (succeeds_bind (fun _ => True)); [apply succeeds_modify |].
    intros _ _. rewrite Hkeys.
    apply (succeeds_bind (fun _ => True)); [apply succeeds_lift; exact I |].
    intros _ _.
    apply (succeeds_bind (fun _ => True)).
    { apply in_directory_succeeds_current; [exact Hdir2 |].
      apply deployModules_succeeds. exact Hmodules. }
    intros _ _.
    apply (succeeds_bind (fun _ => True)).
    { apply in_directory_succeeds_current; [exact Hdir3 |].
      apply deployRpcs_succeeds. exact Hrpcs. }
    intros _ _.
    apply (succeeds_bind (fun _ => True)); [apply succeeds_read |].
    intros rs _. cbv zeta.
    destruct (0 <? _); apply succeeds_ret; exact I. }
  destruct (Hmain w) as ([|] & -> & _); auto.
Qed.

End Current.

(** A module file that can be read. *)
Definition one_module : AppDir :=
  {| base_imljson := Thrown "ENOENT: no such file or directory";
     common_imljson := Returned "{}";
     connections := Absent;
     modules := Listed [("start-rank-task.imljson", Returned "{}")];
     rpcs := Absent |}.

(** The API refuses every request, base.imljson is missing, and [main]
    of the other copy returns all the same, by [process.exit(1)]. *)
Lemma create_first_main_returns_witness :
  outcome (DeployPrev.main DeployFacts.parse_braces unit
             (fun _ _ => (Response 500 "Internal Server Error", tt))
             one_module
             {| DeployPrev.service := tt; DeployPrev.results := [] |})
  = Returned Exit1.
Proof.
  destruct (create_first_main_returns DeployFacts.parse_braces unit
              (fun _ _ => (Response 500 "Internal Server Error", tt))
              one_module
              {| DeployPrev.service := tt; DeployPrev.results := [] |})
    as [H | H].
  - split; constructor.
  - split; [exact I |]. repeat constructor. exists "{}", (JObj []).
    repeat split.
  - split; constructor.
  - exact H.
  - vm_compute in H. discriminate H.
Defined.

(** [JSON.parse], on the text of an empty object and of the listing. *)
Definition parse_app (text : string) : Outcome Value :=
  if String.eqb text "{}" then Returned (JObj []) else parse_listing text.

(** The API lists one connection and refuses everything else: [main] of
    the current script returns, by [process.exit(1)]. *)
Lemma main_returns_when_connections_are_listed_witness :
  outcome (Deploy.main parse_app unit lists_everyrow one_module
             DeployFacts.at_start)
  = Returned Exit1.
Proof.
  destruct (main_returns_when_connections_are_listed parse_app unit
              lists_everyrow one_module DeployFacts.at_start)
    as [H | H].
  - exact I.
  - exact I.
  - exact I.
  - constructor.
  - repeat constructor. exists "{}", (JObj []). repeat split.
  - constructor.
  - intros []. eexists. split; [vm_compute; reflexivity |].
    repeat constructor. exists "EveryRow API". reflexivity.
  - exact H.
  - vm_compute in H. discriminate H.
Defined.

End MainFacts.

(* ===================================================================== *)
(** * Properties: the plan the requests of the deploy scripts follow *)
(* ===================================================================== *)

Module PlanFacts.
Import MakeApi EffFacts RequestFacts.

(** The requests of one component: those its deployment opens with,
    whenever it starts, and those that may follow, in that order. *)
Record Stage : Type := {
  opens : list (Method * Endpoint);
  follows : list (Method * Endpoint)
}.

(** A stage without requests. *)
Definition idle : Stage := {| opens := []; follows := [] |}.



Section Rules.
Context {W : Type}.

















End Rules.

(** ** The current script *)

Module Current.
Import Deploy.

Section Script.

Variable JSON_parse : string -> Outcome Value.
Variable Api : Type.
Variable serve : Api -> Request -> Reply * Api.
Variable app : AppDir.

(** A file is put when it can be read and parsed. *)
Definition put_stage (file : Outcome string) (endpoint : Endpoint) : Stage :=
  {| opens := match readJsonFile JSON_parse file with
              | Returned _ => [(PUT, endpoint)]
              | Thrown _ => []
              end;
     follows := [] |}.

(** A connection is looked for in the listing, and then at most
    created. *)
Definition connection_stage : Stage :=
  {| opens := [(GET, EConnections)]; follows := [(POST, EConnections)] |}.

(** The refresh of the connection names. *)
Definition refresh_stage : Stage :=
  {| opens := [(GET, EConnections)]; follows := [] |}.

(** A module is looked for in the listing, then at most created, then at
    most its four parts are put. *)
Definition module_stage (name : string) : Stage :=
  {| opens := [(GET, EModules)];
     follows := [ (POST, EModules);
                  (PUT, EModulePart name "api");
                  (PUT, EModulePart name "expect");
                  (PUT, EModulePart name "interface");
                  (PUT, EModulePart name "samples") ] |}.

Definition rpc_stage (name : string) : Stage :=
  {| opens := [(GET, ERpcs)];
     follows := [ (POST, ERpcs);
                  (PUT, ERpcPart name "api");
                  (PUT, ERpcPart name "parameters") ] |}.

(** What [main] goes through: base, common, the connection files in
    directory order, the refresh, the module files, the RPC files. *)
Definition plan : list Stage :=
  [ put_stage (base_imljson app) EBase;
    put_stage (common_imljson app) ECommon ]
  ++ ((fun _ => connection_stage)
        <$> DeployFacts.files_of (connections app))
  ++ [refresh_stage]
  ++ ((fun entry => module_stage (local_name entry.1))
        <$> DeployFacts.files_of (modules app))
  ++ ((fun entry => rpc_stage (local_name entry.1))
        <$> DeployFacts.files_of (rpcs app)).

Ltac leaf :=
  first [ apply OfDeploy.makeRequest_issues | apply OfDeploy.getExisting_issues
        | apply OfDeploy.deployPart_issues ].













End Script.
End Current.

(** ** The other copy *)

Module Prev.
Import DeployPrev.

Section Script.

Variable JSON_parse : string -> Outcome Value.
Variable Api : Type.
Variable serve : Api -> Request -> Reply * Api.
Variable app : AppDir.

Definition put_stage (file : Outcome string) (endpoint : Endpoint) : Stage :=
  {| opens := match readJsonFile JSON_parse file with
              | Returned _ => [(PUT, endpoint)]
              | Thrown _ => []
              end;
     follows := [] |}.

(** A component is created, unless its configuration is [null] or
    [undefined], and then at most its parts are put. *)
Definition created (endpoint : Endpoint) (parts : list (Method * Endpoint))
  (config : Value) : Stage :=
  {| opens := if DeployFacts.nullish config then [] else [(POST, endpoint)];
     follows := parts |}.

Definition connection_stage (name : string) : Value -> Stage :=
  created EConnections [ (PUT, EConnectionPart name "api");
                         (PUT, EConnectionPart name "parameters") ].

Definition module_stage (name : string) : Value -> Stage :=
  created EModules [ (PUT, EModulePart name "api");
                     (PUT, EModulePart name "expect");
                     (PUT, EModulePart name "interface");
                     (PUT, EModulePart name "samples") ].

Definition rpc_stage (name : string) : Value -> Stage :=
  created ERpcs [ (PUT, ERpcPart name "api");
                  (PUT, ERpcPart name "parameters") ].

(** The stage of a configuration file; a file that cannot be read or
    parsed has none: [main] rejects there. *)
Definition file_stage (stage : string -> Value -> Stage)
  (entry : string * Outcome string) : Stage :=
  match readJsonFile JSON_parse entry.2 with
  | Returned config => stage (local_name entry.1) config
  | Thrown _ => idle
  end.

(** What [main] goes through: base, common, the connection files in
    directory order, the module files, the RPC files. *)
Definition plan : list Stage :=
  [ put_stage (base_imljson app) EBase;
    put_stage (common_imljson app) ECommon ]
  ++ (file_stage connection_stage <$> DeployFacts.files_of (connections app))
  ++ (file_stage module_stage <$> DeployFacts.files_of (modules app))
  ++ (file_stage rpc_stage <$> DeployFacts.files_of (rpcs app)).

Ltac leaf :=
  first [ apply OfPrev.makeRequest_issues_prev
        | apply OfPrev.deployPart_issues_prev ].










End Script.
End Prev.




End PlanFacts.
